(** * Music popularity pipeline: data windowing and evaluation

    A shallow embedding of the [DataLoader] class (record store, track
    selector, normalizer, window builder), of the analysis methods of
    [GRUModel] and of the breakout detector of [MusicPopularityApp],
    followed by the properties of the pipeline.

    Numbers.  JavaScript numbers are modelled as exact rationals ([Q]):
    [NaN] and the infinities are outside the model, and arithmetic does not
    round.  A field that JavaScript leaves [undefined] is an [option].

    Host.  [parseFloat] and [localeCompare] are parameters of the
    definitions that call them.  An exception is the result [None]. *)

From Stdlib Require Import List String Ascii Bool Arith ZArith QArith Qminmax.
From Stdlib Require Import Lia Lqa Permutation Sorted.
Import ListNotations.

Local Open Scope Q_scope.

(** ** Host built-ins used by the program *)

Module JS.

(** [a[i]]: [undefined] when the index is negative or past the end. *)
Definition get {A : Type} (l : list A) (i : Z) : option A :=
  if (i <? 0)%Z then None else nth_error l (Z.to_nat i).

(** [Array.prototype.findIndex]: -1 when no element satisfies [p]. *)
Fixpoint findIndexFrom {A : Type} (p : A -> bool) (l : list A) (i : Z) : Z :=
  match l with
  | [] => (-1)%Z
  | x :: l' => if p x then i else findIndexFrom p l' (i + 1)%Z
  end.

Definition findIndex {A : Type} (p : A -> bool) (l : list A) : Z :=
  findIndexFrom p l 0%Z.

(** [Array.prototype.indexOf] on strings (strict equality). *)
Definition indexOf (x : string) (l : list string) : Z :=
  findIndex (String.eqb x) l.

(** [Array.prototype.includes] on strings. *)
Definition includes (x : string) (l : list string) : bool :=
  existsb (String.eqb x) l.

(** [Array.prototype.slice(a, b)] for [0 <= a <= b]. *)
Definition slice {A : Type} (a b : nat) (l : list A) : list A :=
  firstn (b - a) (skipn a l).

(** [Array.prototype.sort] is stable; with a consistent comparator it
    produces what this insertion sort produces.  [le x y] reads "the
    comparator does not put [y] before [x]". *)
Fixpoint insert {A : Type} (le : A -> A -> bool) (x : A) (l : list A) : list A :=
  match l with
  | [] => [x]
  | y :: l' => if le x y then x :: y :: l' else y :: insert le x l'
  end.

Fixpoint sortBy {A : Type} (le : A -> A -> bool) (l : list A) : list A :=
  match l with
  | [] => []
  | x :: l' => insert le x (sortBy le l')
  end.

(** [sort()] without comparator: ascending order of the code units. *)
Definition sort (l : list string) : list string := sortBy String.leb l.

(** [sort((a, b) => cmp(a, b))]: [a] stays before [b] when [cmp a b <= 0]. *)
Definition sortWith {A : Type} (cmp : A -> A -> Q) (l : list A) : list A :=
  sortBy (fun a b => Qle_bool (cmp a b) 0) l.

(** [Set.prototype.add]: insertion order, no duplicates. *)
Definition setAdd (x : string) (s : list string) : list string :=
  if includes x s then s else s ++ [x].

(** [Map.prototype.get] and [Map.prototype.set] on string keys: a key that
    is set again keeps its place in the iteration order. *)
Fixpoint mapGet {V : Type} (k : string) (m : list (string * V)) : option V :=
  match m with
  | [] => None
  | (k', v) :: m' => if String.eqb k k' then Some v else mapGet k m'
  end.

Fixpoint mapSet {V : Type} (k : string) (v : V) (m : list (string * V))
  : list (string * V) :=
  match m with
  | [] => [(k, v)]
  | (k', v') :: m' =>
      if String.eqb k k' then (k', v) :: m' else (k', v') :: mapSet k v m'
  end.

Definition mapKeys {V : Type} (m : list (string * V)) : list string :=
  map fst m.

Definition mapValues {V : Type} (m : list (string * V)) : list V :=
  map snd m.

(** [x > y] on numbers. *)
Definition gtb (x y : Q) : bool := negb (Qle_bool x y).

(** [x || 0] on a possibly undefined number: 0 and [undefined] are falsy. *)
Definition orElse (o : option Q) (d : Q) : Q :=
  match o with
  | Some v => if Qeq_bool v 0 then d else v
  | None => d
  end.

(** [Math.min(...values)] and [Math.max(...values)] on a non-empty array. *)
Definition minOf (x : Q) (l : list Q) : Q := fold_left Qmin l x.
Definition maxOf (x : Q) (l : list Q) : Q := fold_left Qmax l x.

(** [Math.floor(n * 0.8)] for an array length [n]. *)
Definition floor08 (n : nat) : nat := (4 * n) / 5.

(** *** Strings.  A string is its sequence of code units below 128. *)

Fixpoint splitFrom (sep : ascii) (s : string) (current : string) : list string :=
  match s with
  | EmptyString => [current]
  | String ch rest =>
      if Ascii.eqb ch sep then current :: splitFrom sep rest EmptyString
      else splitFrom sep rest (current ++ String ch EmptyString)
  end.

(** [String.prototype.split] with a one-character separator. *)
Definition split (sep : ascii) (s : string) : list string :=
  splitFrom sep s EmptyString.

(** Tab, line feed, vertical tab, form feed, carriage return, space. *)
Definition isWhiteSpace (ch : ascii) : bool :=
  let n := nat_of_ascii ch in
  ((9 <=? n)%nat && (n <=? 13)%nat) || (n =? 32)%nat.

Fixpoint trimStart (s : string) : string :=
  match s with
  | EmptyString => EmptyString
  | String ch rest => if isWhiteSpace ch then trimStart rest else s
  end.

Fixpoint trimEnd (s : string) : string :=
  match s with
  | EmptyString => EmptyString
  | String ch rest =>
      match trimEnd rest with
      | EmptyString => if isWhiteSpace ch then EmptyString
                       else String ch EmptyString
      | rest' => String ch rest'
      end
  end.

(** [String.prototype.trim] *)
Definition trim (s : string) : string := trimEnd (trimStart s).

Definition quote : ascii := ascii_of_nat 34.
Definition comma : ascii := ascii_of_nat 44.
Definition newline : ascii := ascii_of_nat 10.

(** [replace] with the global pattern of the double quote and the empty
    replacement: every double quote goes. *)
Fixpoint removeQuotes (s : string) : string :=
  match s with
  | EmptyString => EmptyString
  | String ch rest =>
      if Ascii.eqb ch quote then removeQuotes rest
      else String ch (removeQuotes rest)
  end.

Definition lowerChar (ch : ascii) : ascii :=
  let n := nat_of_ascii ch in
  if ((65 <=? n)%nat && (n <=? 90)%nat) then ascii_of_nat (n + 32) else ch.

(** [String.prototype.toLowerCase] *)
Fixpoint toLowerCase (s : string) : string :=
  match s with
  | EmptyString => EmptyString
  | String ch rest => String (lowerChar ch) (toLowerCase rest)
  end.

(** [String.prototype.includes] *)
Definition strIncludes (sub s : string) : bool :=
  match String.index 0 sub s with
  | Some _ => true
  | None => false
  end.

(** Truthiness of a possibly undefined string. *)
Definition truthy (o : option string) : bool :=
  match o with
  | Some EmptyString => false
  | Some _ => true
  | None => false
  end.

End JS.

(** ** DataLoader *)

Module DataLoader.

Record Entry : Type := mkEntry {
  date : string;
  track_id : string;
  streams : Q;
  danceability : Q;
  energy : Q;
  valence : Q;
  acousticness : Q;
  streams_momentum : option Q;
  streams_ma3 : option Q;
  streams_normalized : option Q;
  danceability_normalized : option Q;
  energy_normalized : option Q;
  streams_momentum_normalized : option Q;
  streams_ma3_normalized : option Q
}.

Record MinMax : Type := mkMinMax { min : Q; max : Q }.

(** The [params] object of one track, one [MinMax] per feature name. *)
Record Params : Type := mkParams {
  p_streams : MinMax;
  p_danceability : MinMax;
  p_energy : MinMax;
  p_streams_momentum : MinMax;
  p_streams_ma3 : MinMax
}.

Record Metadata : Type := mkMetadata {
  id : string;
  name : string;
  totalStreams : option Q
}.

Definition Sample : Type := list (list Q).
Definition Target : Type := list Q.

(** The instance fields of a [DataLoader]. *)
Record Loader : Type := mkLoader {
  data : list Entry;
  tracks : list string;
  dates : list string;
  X_train : option (list Sample);
  y_train : option (list Target);
  X_test : option (list Sample);
  y_test : option (list Target);
  trackMetadata : list (string * Metadata);
  normalizationParams : list (string * Params);
  selectedTracks : list string
}.

(** [new DataLoader()]; the [null] record table is the empty table. *)
Definition constructor : Loader :=
  mkLoader [] [] [] None None None None [] [] [].

Definition setData (st : Loader) (d : list Entry) : Loader :=
  mkLoader d (tracks st) (dates st) (X_train st) (y_train st) (X_test st)
    (y_test st) (trackMetadata st) (normalizationParams st)
    (selectedTracks st).

(** [this.data.find(d => d.date === date && d.track_id === trackId)] *)
Definition findEntry (st : Loader) (date0 trackId : string) : option Entry :=
  find (fun d => String.eqb (date d) date0 && String.eqb (track_id d) trackId)
    (data st).

(** *** selectTopTracks *)

(** One turn of [this.data.forEach] over the map [trackStreams]. *)
Definition tally (trackStreams : list (string * Q)) (entry : Entry)
  : list (string * Q) :=
  let current := JS.orElse (JS.mapGet (track_id entry) trackStreams) 0 in
  JS.mapSet (track_id entry) (current + streams entry) trackStreams.

Definition trackStreamsOf (d : list Entry) : list (string * Q) :=
  fold_left tally d [].

Definition sortedTracksOf (n : nat) (trackStreams : list (string * Q))
  : list string :=
  map fst
    (JS.slice 0 n (JS.sortWith (fun a b => snd b - snd a) trackStreams)).

Definition selectTopTracks (n : nat) (st : Loader) : Loader :=
  let trackStreams := trackStreamsOf (data st) in
  let sortedTracks := sortedTracksOf n trackStreams in
  let data' :=
    filter (fun entry => JS.includes (track_id entry) sortedTracks) (data st) in
  let metadata' :=
    fold_left
      (fun md trackId =>
         match find (fun d => String.eqb (track_id d) trackId) data' with
         | Some _ =>
             JS.mapSet trackId
               (mkMetadata trackId trackId (JS.mapGet trackId trackStreams)) md
         | None => md
         end)
      sortedTracks (trackMetadata st) in
  mkLoader data' (tracks st) (dates st) (X_train st) (y_train st) (X_test st)
    (y_test st) metadata' (normalizationParams st) sortedTracks.

(** *** engineerFeatures

    [trackData] holds the very objects of [this.data], so every row is
    carried with its position in [this.data] and written back there. *)

Definition indexed (d : list Entry) : list (nat * Entry) :=
  combine (seq 0 (List.length d)) d.

Definition setMomentum (v : Q) (e : Entry) : Entry :=
  mkEntry (date e) (track_id e) (streams e) (danceability e) (energy e)
    (valence e) (acousticness e) (Some v) (streams_ma3 e)
    (streams_normalized e) (danceability_normalized e) (energy_normalized e)
    (streams_momentum_normalized e) (streams_ma3_normalized e).

Definition setMa3 (v : Q) (e : Entry) : Entry :=
  mkEntry (date e) (track_id e) (streams e) (danceability e) (energy e)
    (valence e) (acousticness e) (streams_momentum e) (Some v)
    (streams_normalized e) (danceability_normalized e) (energy_normalized e)
    (streams_momentum_normalized e) (streams_ma3_normalized e).

(** [for (i = 1; ...) trackData[i].streams_momentum = ...], the list
    starting at [trackData[i]] with [prev] the streams of [trackData[i-1]]. *)
Fixpoint momentumFrom (prev : Q) (td : list (nat * Entry)) : list (nat * Entry) :=
  match td with
  | [] => []
  | (i, e) :: td' =>
      (i, setMomentum (streams e - prev) e) :: momentumFrom (streams e) td'
  end.

Definition momentumLoop (td : list (nat * Entry)) : list (nat * Entry) :=
  match td with
  | [] => []
  | (i, e) :: td' => (i, e) :: momentumFrom (streams e) td'
  end.

(** [for (i = 2; ...) trackData[i].streams_ma3 = ...], the list starting
    at [trackData[i]]. *)
Fixpoint ma3From (prev2 prev1 : Q) (td : list (nat * Entry)) : list (nat * Entry) :=
  match td with
  | [] => []
  | (i, e) :: td' =>
      (i, setMa3 ((streams e + prev1 + prev2) / 3) e)
        :: ma3From prev1 (streams e) td'
  end.

Definition ma3Loop (td : list (nat * Entry)) : list (nat * Entry) :=
  match td with
  | (i0, e0) :: (i1, e1) :: td' =>
      (i0, e0) :: (i1, e1) :: ma3From (streams e0) (streams e1) td'
  | _ => td
  end.

(** The initial values; [trackData[0]] of an empty array throws. *)
Definition fillInitial (td : list (nat * Entry)) : option (list (nat * Entry)) :=
  match td with
  | [] => None
  | (i0, e0) :: td' =>
      let e0' := setMa3 (streams e0) (setMomentum 0 e0) in
      match td' with
      | (i1, e1) :: td'' =>
          Some ((i0, e0')
                  :: (i1, setMa3 ((streams e1 + streams e0') / 2) e1) :: td'')
      | [] => Some [(i0, e0')]
      end
  end.

Definition writeBack (td : list (nat * Entry)) (d : list Entry) : list Entry :=
  map (fun ie =>
         match find (fun je => Nat.eqb (fst je) (fst ie)) td with
         | Some je => snd je
         | None => snd ie
         end)
    (indexed d).

Section Engineer.

(** The host's [String.prototype.localeCompare]: a number that is
    negative, zero or positive, by the collation of the host's locale. *)
Variable localeCompare : string -> string -> Q.

Definition engineerTrack (trackId : string) (d : list Entry) : option (list Entry) :=
  let trackData :=
    JS.sortWith (fun a b => localeCompare (date (snd a)) (date (snd b)))
      (filter (fun ie => String.eqb (track_id (snd ie)) trackId) (indexed d)) in
  match fillInitial (ma3Loop (momentumLoop trackData)) with
  | Some td => Some (writeBack td d)
  | None => None
  end.

Fixpoint engineerLoop (ts : list string) (d : list Entry) : option (list Entry) :=
  match ts with
  | [] => Some d
  | t :: ts' =>
      match engineerTrack t d with
      | Some d' => engineerLoop ts' d'
      | None => None
      end
  end.

(** [None] stands for the exception. *)
Definition engineerFeatures (st : Loader) : option Loader :=
  match engineerLoop (selectedTracks st) (data st) with
  | Some d => Some (setData st d)
  | None => None
  end.

End Engineer.

(** *** normalizeFeatures *)

(** The feature names of the [features] array, in its order. *)
Inductive Feature : Type :=
| F_streams
| F_danceability
| F_energy
| F_streams_momentum
| F_streams_ma3.

(** [d[feature]]; [None] is [undefined]. *)
Definition featureValue (f : Feature) (d : Entry) : option Q :=
  match f with
  | F_streams => Some (streams d)
  | F_danceability => Some (danceability d)
  | F_energy => Some (energy d)
  | F_streams_momentum => streams_momentum d
  | F_streams_ma3 => streams_ma3 d
  end.

(** [params[feature]] *)
Definition paramOf (f : Feature) (p : Params) : MinMax :=
  match f with
  | F_streams => p_streams p
  | F_danceability => p_danceability p
  | F_energy => p_energy p
  | F_streams_momentum => p_streams_momentum p
  | F_streams_ma3 => p_streams_ma3 p
  end.

(** [trackData.map(d => d[feature]).filter(v => !isNaN(v))]:
    [isNaN(undefined)] holds, so the undefined values go. *)
Fixpoint definedValues (f : Feature) (trackData : list Entry) : list Q :=
  match trackData with
  | [] => []
  | d :: rest =>
      match featureValue f d with
      | Some v => v :: definedValues f rest
      | None => definedValues f rest
      end
  end.

Definition fitFeature (trackData : list Entry) (f : Feature) : MinMax :=
  match definedValues f trackData with
  | v :: vs => mkMinMax (JS.minOf v vs) (JS.maxOf v vs)
  | [] => mkMinMax 0 1
  end.

Definition trainingDatesOf (st : Loader) : list string :=
  let sortedDates := JS.sort (dates st) in
  let splitIndex := JS.floor08 (List.length sortedDates) in
  JS.slice 0 splitIndex sortedDates.

Definition trainingRows (trainingDates : list string) (trackId : string)
    (d : list Entry) : list Entry :=
  filter (fun e => String.eqb (track_id e) trackId
                   && JS.includes (date e) trainingDates) d.

Definition fitTrack (st : Loader) (trainingDates : list string)
    (trackId : string) : Params :=
  let trackData := trainingRows trainingDates trackId (data st) in
  mkParams (fitFeature trackData F_streams) (fitFeature trackData F_danceability)
    (fitFeature trackData F_energy) (fitFeature trackData F_streams_momentum)
    (fitFeature trackData F_streams_ma3).

Definition fitParams (st : Loader) : list (string * Params) :=
  let trainingDates := trainingDatesOf st in
  fold_left
    (fun m trackId => JS.mapSet trackId (fitTrack st trainingDates trackId) m)
    (selectedTracks st) [].

Definition minMaxNormalize (value : Q) (params : option MinMax) : Q :=
  match params with
  | Some p =>
      if JS.gtb (max p) (min p) then (value - min p) / (max p - min p)
      else 1 # 2
  | None => 1 # 2
  end.

Definition setNormalized (e : Entry) (s d en mo ma : Q) : Entry :=
  mkEntry (date e) (track_id e) (streams e) (danceability e) (energy e)
    (valence e) (acousticness e) (streams_momentum e) (streams_ma3 e)
    (Some s) (Some d) (Some en) (Some mo) (Some ma).

Definition normalizeEntry (np : list (string * Params)) (entry : Entry) : Entry :=
  match JS.mapGet (track_id entry) np with
  | Some params =>
      setNormalized entry
        (minMaxNormalize (streams entry) (Some (p_streams params)))
        (minMaxNormalize (danceability entry) (Some (p_danceability params)))
        (minMaxNormalize (energy entry) (Some (p_energy params)))
        (minMaxNormalize (JS.orElse (streams_momentum entry) 0)
           (Some (p_streams_momentum params)))
        (minMaxNormalize (JS.orElse (streams_ma3 entry) (streams entry))
           (Some (p_streams_ma3 params)))
  | None => setNormalized entry (1 # 2) (1 # 2) (1 # 2) (1 # 2) (1 # 2)
  end.

Definition normalizeFeatures (st : Loader) : Loader :=
  let np := fitParams st in
  mkLoader (map (normalizeEntry np) (data st)) (tracks st) (dates st)
    (X_train st) (y_train st) (X_test st) (y_test st) (trackMetadata st)
    np (selectedTracks st).

(** *** createSample, createTarget, createSlidingWindows *)

Definition windowSize : nat := 7.

Definition trackFeatures (st : Loader) (date0 trackId : string) : list Q :=
  match findEntry st date0 trackId with
  | Some entry =>
      [ JS.orElse (streams_normalized entry) 0;
        JS.orElse (danceability_normalized entry) 0;
        JS.orElse (energy_normalized entry) 0;
        JS.orElse (streams_momentum_normalized entry) 0;
        JS.orElse (streams_ma3_normalized entry) 0 ]
  | None => [0; 0; 0; 0; 0]
  end.

Definition dayFeatures (st : Loader) (date0 : string) : list Q :=
  flat_map (trackFeatures st date0) (selectedTracks st).

Definition createSample (st : Loader) (windowDates : list string)
  : option Sample :=
  let sample := map (dayFeatures st) windowDates in
  if Nat.eqb (List.length sample) (List.length windowDates)
  then Some sample else None.

(** The inner loop of [createTarget] over the offsets still to do;
    [None] is the early [return null]. *)
Fixpoint offsetLoop (st : Loader) (sortedDates : list string)
    (currentDateIndex : Z) (trackId : string) (currentStreams : Q)
    (offsets : list Z) (target : Target) : option Target :=
  match offsets with
  | [] => Some target
  | offset :: rest =>
      match JS.get sortedDates (currentDateIndex + offset) with
      | Some futureDate =>
          match findEntry st futureDate trackId with
          | Some futureEntry =>
              offsetLoop st sortedDates currentDateIndex trackId currentStreams
                rest
                (target ++ [if JS.gtb (streams futureEntry) currentStreams
                            then 1 else 0])
          | None => None
          end
      | None => None
      end
  end.

Fixpoint trackLoop (st : Loader) (sortedDates : list string)
    (currentDate : string) (currentDateIndex : Z) (ts : list string)
    (target : Target) : option Target :=
  match ts with
  | [] => Some target
  | trackId :: rest =>
      match findEntry st currentDate trackId with
      | None => None
      | Some currentEntry =>
          match offsetLoop st sortedDates currentDateIndex trackId
                  (streams currentEntry) [1; 2; 3]%Z target with
          | Some target' =>
              trackLoop st sortedDates currentDate currentDateIndex rest target'
          | None => None
          end
      end
  end.

Definition createTarget (st : Loader) (currentDate : string) : option Target :=
  let sortedDates := JS.sort (dates st) in
  let currentDateIndex := JS.indexOf currentDate sortedDates in
  trackLoop st sortedDates currentDate currentDateIndex (selectedTracks st) [].

(** The indices the [for] loop of [createSlidingWindows] visits:
    [windowSize <= i < len - 3]. *)
Definition candidates (len : nat) : list nat :=
  seq windowSize (len - 3 - windowSize).

(** One turn of the loop at index [i]. *)
Definition windowStep (st : Loader) (sortedDates : list string)
    (acc : list Sample * list Target) (i : nat) : list Sample * list Target :=
  match nth_error sortedDates i with
  | None => acc
  | Some currentDate =>
      let windowDates := JS.slice (i - windowSize) i sortedDates in
      match createSample st windowDates with
      | Some sample =>
          match createTarget st currentDate with
          | Some target =>
              if Nat.eqb (List.length target)
                   (List.length (selectedTracks st) * 3)
              then (fst acc ++ [sample], snd acc ++ [target])
              else acc
          | None => acc
          end
      | None => acc
      end
  end.

(** [samples] and [targets] when the loop ends, on a loader whose
    features are normalized. *)
Definition slidingWindows (st : Loader) : list Sample * list Target :=
  let sortedDates := JS.sort (dates st) in
  fold_left (windowStep st sortedDates)
    (candidates (List.length sortedDates)) ([], []).

(** [tf.tensor3d(rows)] and [tf.tensor2d(rows)] of a nested array without
    a shape argument, as [splitData] calls them: of an empty array the library
    infers the shape [[0]], which has not the rank asked for, and throws
    ([None]); otherwise the tensor holds the rows. *)
Definition tensorOf {A : Type} (rows : list A) : option (list A) :=
  match rows with
  | [] => None
  | _ :: _ => Some rows
  end.

(** [None] stands for the exception of one of the four tensor
    constructions; [logDataStatistics], called last, only logs. *)
Definition splitData (st : Loader) (samples : list Sample)
    (targets : list Target) : option Loader :=
  let splitIndex := JS.floor08 (List.length samples) in
  match tensorOf (firstn splitIndex samples) with
  | None => None
  | Some xTrain =>
      match tensorOf (firstn splitIndex targets) with
      | None => None
      | Some yTrain =>
          match tensorOf (skipn splitIndex samples) with
          | None => None
          | Some xTest =>
              match tensorOf (skipn splitIndex targets) with
              | None => None
              | Some yTest =>
                  Some (mkLoader (data st) (tracks st) (dates st)
                          (Some xTrain) (Some yTrain) (Some xTest) (Some yTest)
                          (trackMetadata st) (normalizationParams st)
                          (selectedTracks st))
              end
          end
      end
  end.

Definition createSlidingWindows (st : Loader) : option Loader :=
  let st' := normalizeFeatures st in
  let w := slidingWindows st' in
  splitData st' (fst w) (snd w).

(** *** parseCSVLine, parseCSV *)

Definition cleanField (current : string) : string :=
  JS.removeQuotes (JS.trim current).

(** The scanner of [parseCSVLine] on what is left of the line. *)
Fixpoint scanLine (line : string) (result : list string) (current : string)
    (inQuotes : bool) : list string :=
  match line with
  | EmptyString => result ++ [cleanField current]
  | String char rest =>
      if Ascii.eqb char JS.quote then
        scanLine rest result current (negb inQuotes)
      else if Ascii.eqb char JS.comma && negb inQuotes then
        scanLine rest (result ++ [cleanField current]) EmptyString inQuotes
      else
        scanLine rest result (current ++ String char EmptyString) inQuotes
  end.

Definition parseCSVLine (line : string) : list string :=
  scanLine line [] EmptyString false.

(** The column indices found in the header row. *)
Record Columns : Type := mkColumns {
  dateIdx : Z;
  trackIdx : Z;
  streamsIdx : Z;
  danceabilityIdx : Z;
  energyIdx : Z;
  valenceIdx : Z;
  acousticnessIdx : Z
}.

(** [headers.findIndex(h => h.toLowerCase().includes(key))] *)
Definition locate (key : string) (headers : list string) : Z :=
  JS.findIndex (fun h => JS.strIncludes key (JS.toLowerCase h)) headers.

Definition locateColumns (headers : list string) : Columns :=
  mkColumns (locate "date" headers) (locate "track" headers)
    (locate "stream" headers) (locate "danceability" headers)
    (locate "energy" headers) (locate "valence" headers)
    (locate "acousticness" headers).

(** [Math.max(dateIdx, trackIdx, streamsIdx, danceabilityIdx, energyIdx)] *)
Definition maxIdx (c : Columns) : Z :=
  Z.max (dateIdx c)
    (Z.max (trackIdx c)
       (Z.max (streamsIdx c) (Z.max (danceabilityIdx c) (energyIdx c)))).

Definition nonEmptyLine (line : string) : bool :=
  JS.truthy (Some (JS.trim line)).

Section Parse.

(** The host's [parseFloat]; [None] is [NaN]. *)
Variable parseFloat : string -> option Q.

(** The host's [localeCompare], which [engineerFeatures] sorts with. *)
Variable localeCompare : string -> string -> Q.

(** [parseFloat(values[idx]) || 0] *)
Definition numberAt (values : list string) (idx : Z) : Q :=
  match JS.get values idx with
  | Some s => JS.orElse (parseFloat s) 0
  | None => 0
  end.

(** The entry a data row gives, when the row passes the two guards. *)
Definition rowEntry (c : Columns) (values : list string) : option Entry :=
  if (Z.of_nat (List.length values) >=? maxIdx c)%Z then
    match JS.get values (dateIdx c), JS.get values (trackIdx c) with
    | Some d, Some t =>
        if JS.truthy (Some t) && JS.truthy (Some d) then
          Some (mkEntry d t (numberAt values (streamsIdx c))
                  (numberAt values (danceabilityIdx c))
                  (numberAt values (energyIdx c))
                  (numberAt values (valenceIdx c))
                  (numberAt values (acousticnessIdx c))
                  None None None None None None None)
        else None
    | _, _ => None
    end
  else None.

(** One turn of the loop over the data rows. *)
Definition ingestLine (c : Columns) (st : Loader) (line : string) : Loader :=
  match rowEntry c (parseCSVLine line) with
  | Some entry =>
      mkLoader (data st ++ [entry]) (JS.setAdd (track_id entry) (tracks st))
        (JS.setAdd (date entry) (dates st)) (X_train st) (y_train st)
        (X_test st) (y_test st) (trackMetadata st) (normalizationParams st)
        (selectedTracks st)
  | None => st
  end.

(** The record store when the loop over the rows ends; [lines[0]] of
    an input without a non-blank line throws. *)
Definition ingest (st : Loader) (csvText : string) : option Loader :=
  match filter nonEmptyLine (JS.split JS.newline csvText) with
  | [] => None
  | header :: rows =>
      let headers := map cleanField (JS.split JS.comma header) in
      Some (fold_left (ingestLine (locateColumns headers)) rows
              (setData st []))
  end.

Definition parseCSV (st : Loader) (csvText : string) : option Loader :=
  match ingest st csvText with
  | Some st' => engineerFeatures localeCompare (selectTopTracks 10 st')
  | None => None
  end.

End Parse.

End DataLoader.

(** ** Tensors of the numeric library, as far as the analysis uses them *)

Module TF.

(** A tensor is its shape and its values in row-major order. *)
Record Tensor : Type := mkTensor {
  shape : list nat;
  values : list Q
}.

(** [tf.tensor2d(rows)] of a rectangular nested array that is not
    empty. *)
Definition tensor2d (rows : list (list Q)) : Tensor :=
  mkTensor [List.length rows; List.length (hd [] rows)] (List.concat rows).

Definition ofBool (b : bool) : Q := if b then 1 else 0.

(** [t.greater(c).cast('float32')] *)
Definition greater (t : Tensor) (c : Q) : Tensor :=
  mkTensor (shape t) (map (fun v => ofBool (JS.gtb v c)) (values t)).

(** [a.equal(b)] on operands of one shape. *)
Definition equal (a b : Tensor) : Tensor :=
  mkTensor (shape a)
    (map (fun vw => ofBool (Qeq_bool (fst vw) (snd vw)))
       (combine (values a) (values b))).

(** [t.sum()] *)
Definition sum (t : Tensor) : Q := fold_right Qplus 0 (values t).

Fixpoint chunk (rows cols : nat) (vs : list Q) : list (list Q) :=
  match rows with
  | O => []
  | S rows' => firstn cols vs :: chunk rows' cols (skipn cols vs)
  end.

(** [t.arraySync()] of a rank-2 tensor. *)
Definition arraySync (t : Tensor) : list (list Q) :=
  chunk (nth 0 (shape t) 0%nat) (nth 1 (shape t) 0%nat) (values t).

End TF.

(** ** GRUModel: the analysis methods *)

Module GRUModel.

(** [computeConsistentAccuracy]; [None] is the [NaN] of a division of
    zero by zero. *)
Definition computeConsistentAccuracy (predictions y_true : TF.Tensor)
  : option Q :=
  let binaryPreds := TF.greater predictions (1 # 2) in
  let binaryTrue := TF.greater y_true (1 # 2) in
  let correct := TF.sum (TF.equal binaryPreds binaryTrue) in
  let total := (nth 0 (TF.shape y_true) 0 * nth 1 (TF.shape y_true) 0)%nat in
  if Nat.eqb total 0 then None
  else Some (correct / inject_Z (Z.of_nat total) * 100).

(** [row[idx] > 0.5 ? 1 : 0]; the comparison of [undefined] is false. *)
Definition binarize (row : list Q) (idx : nat) : bool :=
  match nth_error row idx with
  | Some v => JS.gtb v (1 # 2)
  | None => false
  end.

(** [prediction === actual] at column [predIdx] of one sample. *)
Definition hit (predIdx : nat) (rows : list Q * list Q) : bool :=
  Bool.eqb (binarize (fst rows) predIdx) (binarize (snd rows) predIdx).

(** The matches of one track at one day offset over all samples. *)
Definition dayHits (predData trueData : list (list Q))
    (trackIndex dayOffset : nat) : nat :=
  List.length
    (filter (hit (trackIndex * 3 + dayOffset)) (combine predData trueData)).

Definition percent (correct total : nat) : Q :=
  if (0 <? total)%nat
  then inject_Z (Z.of_nat correct) / inject_Z (Z.of_nat total) * 100
  else 0.

Record DayAccuracies : Type := mkDayAccuracies {
  day1 : Q;
  day2 : Q;
  day3 : Q
}.

Record TrackAccuracy : Type := mkTrackAccuracy {
  accuracy : Q;
  trackName : string;
  dayAccuracies : DayAccuracies
}.

(** [trackMetadata.get(trackId).name || trackId] *)
Definition displayName (trackMetadata : list (string * DataLoader.Metadata))
    (trackId : string) : string :=
  match JS.mapGet trackId trackMetadata with
  | Some md =>
      if JS.truthy (Some (DataLoader.name md)) then DataLoader.name md
      else trackId
  | None => trackId
  end.

Definition trackAccuracyOf (predData trueData : list (list Q))
    (trackMetadata : list (string * DataLoader.Metadata))
    (trackId : string) (trackIndex : nat) : TrackAccuracy :=
  let samples := List.length predData in
  let h := dayHits predData trueData trackIndex in
  mkTrackAccuracy (percent (h 0 + h 1 + h 2)%nat (3 * samples))
    (displayName trackMetadata trackId)
    (mkDayAccuracies (percent (h 0%nat) samples) (percent (h 1%nat) samples)
       (percent (h 2%nat) samples)).

(** The pairs of [tracks.forEach((trackId, trackIndex) => ...)]. *)
Definition withIndex {A : Type} (l : list A) : list (A * nat) :=
  combine l (seq 0 (List.length l)).

(** [computeTrackSpecificAccuracy]; [None] is the exception of reading a
    row that [y_true] does not have, which the loop over the samples does for
    the first track when the predictions have more rows than [y_true]; without
    a track nothing is read. *)
Definition computeTrackSpecificAccuracy (predictions y_true : TF.Tensor)
    (trackMetadata : list (string * DataLoader.Metadata))
  : option (list (string * TrackAccuracy) * DayAccuracies) :=
  let predData := TF.arraySync predictions in
  let trueData := TF.arraySync y_true in
  let tracks := JS.mapKeys trackMetadata in
  if (List.length predData <=? List.length trueData)%nat
     || Nat.eqb (List.length tracks) 0 then
    let trackAccuracies :=
      fold_left
        (fun m ti =>
           JS.mapSet (fst ti)
             (trackAccuracyOf predData trueData trackMetadata (fst ti) (snd ti))
             m)
        (withIndex tracks) [] in
    let dayTotal (dayOffset : nat) : nat :=
      fold_right
        (fun ti acc => (dayHits predData trueData (snd ti) dayOffset + acc)%nat)
        0%nat (withIndex tracks) in
    let dayCount := (List.length tracks * List.length predData)%nat in
    Some (trackAccuracies,
          mkDayAccuracies (percent (dayTotal 0%nat) dayCount)
            (percent (dayTotal 1%nat) dayCount)
            (percent (dayTotal 2%nat) dayCount))
  else None.

End GRUModel.

(** ** MusicPopularityApp: breakout detection *)

Module MusicPopularityApp.

(** A number that may be [NaN] ([None]). *)
Definition num : Type := option Q.

Definition lift2 (f : Q -> Q -> Q) (a b : num) : num :=
  match a, b with
  | Some x, Some y => Some (f x y)
  | _, _ => None
  end.

(** [a > c]; false on [NaN]. *)
Definition gt (a : num) (c : Q) : bool :=
  match a with
  | Some x => JS.gtb x c
  | None => false
  end.

Definition calculateRiskLevel (breakoutScore confidence : num) : string :=
  if gt breakoutScore (1 # 10) && gt confidence (7 # 10) then "low"
  else if gt breakoutScore (5 # 100) && gt confidence (6 # 10) then "medium"
  else if gt breakoutScore 0 then "high"
  else "very-high".

Record Breakout : Type := mkBreakout {
  trackId : string;
  trackName : string;
  breakoutScore : num;
  confidence : num;
  trend : string;
  riskLevel : string
}.

(** [(day3Prob - day1Prob) * 2 + (day2Prob - day1Prob)] of one sample;
    a column the row does not have reads [undefined] and gives [NaN]. *)
Definition trendStrength (row : list Q) (trackIndex : nat) : num :=
  let day1Prob := nth_error row (trackIndex * 3) in
  let day2Prob := nth_error row (trackIndex * 3 + 1) in
  let day3Prob := nth_error row (trackIndex * 3 + 2) in
  lift2 Qplus
    (lift2 Qmult (lift2 Qminus day3Prob day1Prob) (Some 2))
    (lift2 Qminus day2Prob day1Prob).

(** [(day1Prob + day2Prob + day3Prob) / 3] of one sample. *)
Definition overallConfidence (row : list Q) (trackIndex : nat) : num :=
  let day1Prob := nth_error row (trackIndex * 3) in
  let day2Prob := nth_error row (trackIndex * 3 + 1) in
  let day3Prob := nth_error row (trackIndex * 3 + 2) in
  lift2 Qdiv (lift2 Qplus (lift2 Qplus day1Prob day2Prob) day3Prob) (Some 3).

(** The sum of [f] over the samples, started at 0. *)
Definition sumOver (f : list Q -> num) (predData : list (list Q)) : num :=
  fold_left (fun acc row => lift2 Qplus acc (f row)) predData (Some 0).

(** [sum / sampleCount]; zero by zero is [NaN]. *)
Definition average (sum : num) (sampleCount : nat) : num :=
  if Nat.eqb sampleCount 0 then None
  else lift2 Qdiv sum (Some (inject_Z (Z.of_nat sampleCount))).

Definition breakoutOf (predData : list (list Q))
    (ti : DataLoader.Metadata * nat) : Breakout :=
  let track := fst ti in
  let trackIndex := snd ti in
  let sampleCount := List.length predData in
  let avgBreakoutScore :=
    average (sumOver (fun row => trendStrength row trackIndex) predData)
      sampleCount in
  let avgConfidence :=
    average (sumOver (fun row => overallConfidence row trackIndex) predData)
      sampleCount in
  mkBreakout (DataLoader.id track) (DataLoader.name track)
    (lift2 Qmult avgBreakoutScore (Some 100))
    (lift2 Qmult avgConfidence (Some 100))
    (if gt avgBreakoutScore 0 then "rising" else "stable")
    (calculateRiskLevel avgBreakoutScore avgConfidence).

(** The comparator [b.breakoutScore - a.breakoutScore]; a [NaN] result
    orders nothing. *)
Definition byScore (a b : Breakout) : bool :=
  match lift2 Qminus (breakoutScore b) (breakoutScore a) with
  | Some d => Qle_bool d 0
  | None => true
  end.

Definition detectBreakoutTracks (predictions : TF.Tensor)
    (trackMetadata : list (string * DataLoader.Metadata)) : list Breakout :=
  let predData := TF.arraySync predictions in
  let tracks := JS.mapValues trackMetadata in
  JS.sortBy byScore (map (breakoutOf predData) (GRUModel.withIndex tracks)).

End MusicPopularityApp.

(** ** The vocabulary of the specification *)

Module Spec.

Import DataLoader.

(** A sample: [windowSize] days, each day five values per selected track. *)
Definition sampleShape (st : Loader) (sample : Sample) : Prop :=
  List.length sample = windowSize
  /\ Forall (fun day =>
               List.length day = (5 * List.length (selectedTracks st))%nat)
       sample.

(** A target: three labels per selected track. *)
Definition targetShape (st : Loader) (target : Target) : Prop :=
  List.length target = (3 * List.length (selectedTracks st))%nat.

(** Track [t] has an observation at the date of index [idx] of the
    sorted date list [D]. *)
Definition observedAt (st : Loader) (D : list string) (idx : nat)
    (t : string) : bool :=
  match nth_error D idx with
  | Some d =>
      match findEntry st d t with
      | Some _ => true
      | None => false
      end
  | None => false
  end.

(** Every selected track has an observation at the candidate date of
    index [i] and at each of the three dates after it. *)
Definition fullyObserved (st : Loader) (D : list string) (i : nat) : bool :=
  forallb
    (fun t => forallb (fun k => observedAt st D (i + k) t) [0; 1; 2; 3]%nat)
    (selectedTracks st).

(** The sample of the candidate of index [i]: the [windowSize] dates
    strictly before it. *)
Definition windowAt (st : Loader) (D : list string) (i : nat) : Sample :=
  map (dayFeatures st) (JS.slice (i - windowSize) i D).

(** The target of the candidate of index [i]: what [createTarget] returns
    at the date of index [i]. *)
Definition targetAt (st : Loader) (D : list string) (i : nat) : option Target :=
  match nth_error D i with
  | Some currentDate => createTarget st currentDate
  | None => None
  end.

(** The streams of track [t] at the date [offset] places after index
    [idx] of [D], when there is such an observation. *)
Definition futureStreams (st : Loader) (D : list string) (idx : Z)
    (t : string) (offset : Z) : option Q :=
  match JS.get D (idx + offset)%Z with
  | Some futureDate => option_map streams (findEntry st futureDate t)
  | None => None
  end.

(** The label of one future observation against the current one. *)
Definition label (currentStreams futureStreams : Q) : Q :=
  if JS.gtb futureStreams currentStreams then 1 else 0.

(** The three labels of one track, or nothing when the current or a
    future observation is missing. *)
Definition trackBlock (st : Loader) (D : list string) (d : string) (idx : Z)
    (t : string) : option (list Q) :=
  match findEntry st d t with
  | None => None
  | Some ce =>
      match futureStreams st D idx t 1, futureStreams st D idx t 2,
            futureStreams st D idx t 3 with
      | Some f1, Some f2, Some f3 =>
          Some [label (streams ce) f1; label (streams ce) f2;
                label (streams ce) f3]
      | _, _, _ => None
      end
  end.

(** The record table without the observations of track [t] at date [d]. *)
Definition removeObservation (d t : string) (st : Loader) : Loader :=
  setData st
    (filter (fun e => negb (String.eqb (date e) d && String.eqb (track_id e) t))
       (data st)).

(** The loader after one more retained row, as the loop of [parseCSV]
    stores it. *)
Definition appendRow (st : Loader) (entry : Entry) : Loader :=
  mkLoader (data st ++ [entry]) (JS.setAdd (track_id entry) (tracks st))
    (JS.setAdd (date entry) (dates st)) (X_train st) (y_train st)
    (X_test st) (y_test st) (trackMetadata st) (normalizationParams st)
    (selectedTracks st).

(** [d] is lexically later than every date of [ds]. *)
Definition laterThanAll (d : string) (ds : list string) : Prop :=
  Forall (fun x => String.ltb x d = true) ds.

(** The distinct strings of [l] in the order of their first occurrence. *)
Definition firstSeen (l : list string) : list string :=
  fold_left (fun s x => JS.setAdd x s) l [].

(** The sum of the streams of the rows of track [t]. *)
Definition totalOf (t : string) (d : list Entry) : Q :=
  fold_right Qplus 0
    (map streams (filter (fun e => String.eqb (track_id e) t) d)).

(** The entries of a ranking whose total is [v]. *)
Definition withTotal (v : Q) (l : list (string * Q)) : list (string * Q) :=
  filter (fun p => Qeq_bool (snd p) v) l.

(** The number of entries at which the prediction and the ground truth,
    both thresholded at 1/2, agree. *)
Definition matches (predictions y_true : TF.Tensor) : nat :=
  List.length
    (filter
       (fun vw => Bool.eqb (JS.gtb (fst vw) (1 # 2)) (JS.gtb (snd vw) (1 # 2)))
       (combine (TF.values predictions) (TF.values y_true))).

(** The three day probabilities of the track of index [trackIndex] in
    one row of predictions. *)
Definition dayProbs (row : list Q) (trackIndex : nat) (p1 p2 p3 : Q) : Prop :=
  nth_error row (trackIndex * 3) = Some p1
  /\ nth_error row (trackIndex * 3 + 1) = Some p2
  /\ nth_error row (trackIndex * 3 + 2) = Some p3.

(** The loader with only the rows of the train period kept. *)
Definition trainRowsOnly (st : Loader) : Loader :=
  setData st
    (filter (fun e => JS.includes (date e) (trainingDatesOf st)) (data st)).

End Spec.

(** ** Concrete inputs *)

Module Fixtures.

Import DataLoader.

Local Open Scope string_scope.

Definition digitOf (ch : ascii) : option Z :=
  let n := nat_of_ascii ch in
  if ((48 <=? n)%nat && (n <=? 57)%nat) then Some (Z.of_nat (n - 48)) else None.

(** The digits at the head of [s]: their value after [acc], how many
    there are, and what follows them. *)
Fixpoint digits (s : string) (acc : Z) (count : nat) : Z * nat * string :=
  match s with
  | EmptyString => (acc, count, s)
  | String ch rest =>
      match digitOf ch with
      | Some d => digits rest (10 * acc + d)%Z (S count)
      | None => (acc, count, s)
      end
  end.

Definition unsignedDecimal (s : string) : option Q :=
  let '(ip, icount, rest) := digits s 0%Z 0%nat in
  match rest with
  | String ch rest' =>
      if Ascii.eqb ch (ascii_of_nat 46) then
        let '(fp, fcount, _) := digits rest' 0%Z 0%nat in
        if Nat.eqb (icount + fcount) 0 then None
        else Some (inject_Z ip + inject_Z fp / inject_Z (10 ^ Z.of_nat fcount))
      else if Nat.eqb icount 0 then None else Some (inject_Z ip)
  | EmptyString => if Nat.eqb icount 0 then None else Some (inject_Z ip)
  end.

(** [parseFloat] on the plain decimal literals the inputs below use:
    leading white space, a sign, digits, a fraction. *)
Definition parseDecimal (s : string) : option Q :=
  match JS.trimStart s with
  | String ch rest =>
      if Ascii.eqb ch (ascii_of_nat 45) then
        match unsignedDecimal rest with
        | Some v => Some (Qred (- v))
        | None => None
        end
      else if Ascii.eqb ch (ascii_of_nat 43) then
        option_map Qred (unsignedDecimal rest)
      else option_map Qred (unsignedDecimal (String ch rest))
  | EmptyString => None
  end.

(** [localeCompare] on the dates the inputs below use: strings of digits
    and hyphens of one length and format, which a collation orders as their
    code units do. *)
Definition compareDates (a b : string) : Q :=
  match String.compare a b with
  | Lt => - (1)
  | Eq => 0
  | Gt => 1
  end.

(** A collation that compares letters without regard to their case, as
    the collation of a locale does at its first level: it puts [a] before
    [B], which the code units do not. *)
Definition compareFolded (a b : string) : Q :=
  compareDates (JS.toLowerCase a) (JS.toLowerCase b).

Definition lines (l : list string) : string :=
  String.concat (String JS.newline EmptyString) l.

(** A row of the record table with only the parsed fields set. *)
Definition row (d t : string) (s : Q) : Entry :=
  mkEntry d t s 0 0 0 0 None None None None None None None.

(** The loader after [parseCSV] of a text on the loader [st]; [st]
    itself when the parse throws. *)
Definition loadOn (st : Loader) (csvText : string) : Loader :=
  match parseCSV parseDecimal compareDates st csvText with
  | Some st' => st'
  | None => st
  end.

Definition load (csvText : string) : Loader := loadOn constructor csvText.

(** Eleven dates, two tracks, every observation present. *)
Definition rows11 : list string :=
  ["2024-01-01,A,100,0.5,0.7";
   "2024-01-01,B,50,0.4,0.6";
   "2024-01-02,A,110,0.5,0.7";
   "2024-01-02,B,50,0.4,0.6";
   "2024-01-03,A,120,0.5,0.7";
   "2024-01-03,B,50,0.4,0.6";
   "2024-01-04,A,130,0.5,0.7";
   "2024-01-04,B,50,0.4,0.6";
   "2024-01-05,A,140,0.5,0.7";
   "2024-01-05,B,50,0.4,0.6";
   "2024-01-06,A,150,0.5,0.7";
   "2024-01-06,B,50,0.4,0.6";
   "2024-01-07,A,160,0.5,0.7";
   "2024-01-07,B,50,0.4,0.6";
   "2024-01-08,A,170,0.5,0.7";
   "2024-01-08,B,60,0.4,0.6";
   "2024-01-09,A,180,0.5,0.7";
   "2024-01-09,B,60,0.4,0.6";
   "2024-01-10,A,175,0.5,0.7";
   "2024-01-10,B,55,0.4,0.6";
   "2024-01-11,A,180,0.5,0.7";
   "2024-01-11,B,70,0.4,0.6"].

Definition csv11 : string :=
  lines ("date,track_id,streams,danceability,energy" :: rows11).

Definition loaded11 : Loader := load csv11.

(** Twelve dates: the eleven and one more. *)
Definition csv12 : string :=
  lines [csv11; "2024-01-12,A,190,0.5,0.7"; "2024-01-12,B,65,0.4,0.6"].

Definition loaded12 : Loader := load csv12.

(** The same text without the row of track B at the date of index 9. *)
Definition csv11gap : string :=
  lines
    ("date,track_id,streams,danceability,energy"
       :: filter (fun l => negb (String.eqb l "2024-01-10,B,55,0.4,0.6")) rows11).

(** Four dates of one track, whose last date is outside the train period
    of three dates, and the same text with one row of a later date: the
    train period then has four dates. *)
Definition csv4 : string :=
  lines
    ["date,track_id,streams,danceability,energy";
     "2024-01-01,A,1,0.5,0.7";
     "2024-01-02,A,2,0.5,0.7";
     "2024-01-03,A,3,0.5,0.7";
     "2024-01-04,A,100,0.5,0.7"].

Definition csv4plus : string := lines [csv4; "2024-01-05,A,5,0.5,0.7"].

(** Five dates of one track, and a row of a sixth, later date. *)
Definition csv5 : string :=
  lines
    ["date,track_id,streams,danceability,energy";
     "2024-01-01,A,1,0.5,0.7";
     "2024-01-02,A,2,0.5,0.7";
     "2024-01-03,A,3,0.5,0.7";
     "2024-01-04,A,100,0.5,0.7";
     "2024-01-05,A,7,0.5,0.7"].

Definition row6 : Entry := row "2024-01-06" "A" 500.

(** Track B is observed on the last of five dates only, outside the
    train period of four dates. *)
Definition csvLate : string := lines [csv5; "2024-01-05,B,1000,0.4,0.6"].

(** Rows with the totals A: 100, B: 50, C: 200, the 100 of A in two
    rows; and rows where A and B tie at 100 behind C. *)
Definition abcRows : list Entry :=
  [row "2024-01-01" "A" 60; row "2024-01-01" "B" 50;
   row "2024-01-01" "C" 200; row "2024-01-02" "A" 40].

Definition tieRows : list Entry :=
  [row "2024-01-01" "A" 100; row "2024-01-01" "B" 100;
   row "2024-01-01" "C" 200].

(** Predictions and ground truth of two samples and two columns. *)
Definition predictions22 : TF.Tensor :=
  TF.tensor2d [[6 # 10; 4 # 10]; [3 # 10; 7 # 10]].

Definition truth22 : TF.Tensor := TF.tensor2d [[1; 0]; [0; 1]].

(** One sample of predictions for one track, and the metadata of the
    track. *)
Definition predictions13 : TF.Tensor :=
  TF.tensor2d [[2 # 10; 5 # 10; 8 # 10]].

Definition metadataA : list (string * Metadata) :=
  [("A", mkMetadata "A" "A" (Some 100))].

(** Five columns are located; the first data row has four values and
    so lacks the energy column, the second has three. *)
Definition headerRow : string := "date,track_id,streams,danceability,energy".

Definition shortRow : string := "2024-01-01,A,100,0.5".

Definition csvShort : string := lines [headerRow; shortRow; "2024-01-02,B,7"].

(** Two files loaded one after the other into the same loader. *)
Definition csvFirst : string :=
  lines [headerRow; "2024-01-01,A,10,0.5,0.7"; "2024-01-01,B,20,0.4,0.6"].

Definition csvSecond : string :=
  lines [headerRow; "2024-02-01,B,5,0.4,0.6"; "2024-02-01,C,50,0.3,0.2"].

Definition loadedTwice : Loader := loadOn (load csvFirst) csvSecond.

(** One sample for the selected tracks C, B in that order: every
    probability is 0.9, the labels of C are all 1 and those of B all 0, so the
    predictions are right on the block of C and wrong on the block of B. *)
Definition predictionsCB : TF.Tensor :=
  TF.tensor2d [[9 # 10; 9 # 10; 9 # 10; 9 # 10; 9 # 10; 9 # 10]].

Definition truthCB : TF.Tensor := TF.tensor2d [[1; 1; 1; 0; 0; 0]].

(** The accuracy reported for each key of the metadata map. *)
Definition reportedAccuracies (predictions y_true : TF.Tensor)
    (trackMetadata : list (string * Metadata)) : option (list (string * Q)) :=
  option_map
    (fun r => map (fun kv => (fst kv, Qred (GRUModel.accuracy (snd kv)))) (fst r))
    (GRUModel.computeTrackSpecificAccuracy predictions y_true trackMetadata).

(** A row of a track that has no parameters. *)
Definition strayRow : Entry := row "2024-01-05" "Z" 9.

End Fixtures.

(** ** More vocabulary: derived features *)

Module SpecDerived.

Import DataLoader.

(** A row without its derived features. *)
Definition clearDerived (e : Entry) : Entry :=
  mkEntry (date e) (track_id e) (streams e) (danceability e) (energy e)
    (valence e) (acousticness e) None None
    (streams_normalized e) (danceability_normalized e) (energy_normalized e)
    (streams_momentum_normalized e) (streams_ma3_normalized e).

(** The rows of track [t] in the order in which [localeCompare] puts
    their dates, rows of one date in the order of the table. *)
Definition trackRows (localeCompare : string -> string -> Q) (t : string)
    (d : list Entry) : list Entry :=
  JS.sortWith (fun a b => localeCompare (date a) (date b))
    (filter (fun e => String.eqb (track_id e) t) d).

(** The differences of consecutive streams, after the stream [prev]. *)
Fixpoint diffs (prev : Q) (ss : list Q) : list Q :=
  match ss with
  | [] => []
  | s :: rest => (s - prev) :: diffs s rest
  end.

(** The momentum of each observation of a track: 0 at the first, the
    streams less those of the observation before at the others. *)
Definition momentumOf (ss : list Q) : list Q :=
  match ss with
  | [] => []
  | s0 :: rest => 0 :: diffs s0 rest
  end.

(** The means of three consecutive streams, after [prev2] and [prev1]. *)
Fixpoint means3 (prev2 prev1 : Q) (ss : list Q) : list Q :=
  match ss with
  | [] => []
  | s :: rest => ((s + prev1 + prev2) / 3) :: means3 prev1 s rest
  end.

(** The moving average of each observation of a track: the streams at the
    first, the mean of two at the second, the mean of three from the third. *)
Definition ma3Of (ss : list Q) : list Q :=
  match ss with
  | [] => []
  | [s0] => [s0]
  | s0 :: s1 :: rest => s0 :: ((s1 + s0) / 2) :: means3 s0 s1 rest
  end.

(** The rows [td] with the values [vs] set by [set], one value per row. *)
Fixpoint zipSet (set : Q -> Entry -> Entry) (td : list (nat * Entry))
    (vs : list Q) : list (nat * Entry) :=
  match td, vs with
  | (i, e) :: td', v :: vs' => (i, set v e) :: zipSet set td' vs'
  | _, _ => td
  end.

Definition streamsOf (td : list (nat * Entry)) : list Q :=
  map (fun ie => streams (snd ie)) td.

(** The rows of one track with their derived features. *)
Definition derived (td : list (nat * Entry)) : list (nat * Entry) :=
  zipSet setMa3 (zipSet setMomentum td (momentumOf (streamsOf td)))
    (ma3Of (streamsOf td)).

End SpecDerived.

(** ** GRUModel: the training loop

    The numeric library trains and reports; its reports are an input here,
    and the calls of [getWeights] and [setWeights] are recorded, not
    interpreted. *)

Module GRUModelFit.

(** [history.history] of one call of [this.model.fit] with [epochs: 1];
    a number that is [NaN] is [None]. *)
Record EpochResult : Type := mkEpochResult {
  loss : option Q;
  binaryAccuracy : option Q;
  val_loss : option Q;
  val_binaryAccuracy : option Q
}.

(** [this.history] *)
Record History : Type := mkHistory {
  h_loss : list (option Q);
  h_val_loss : list (option Q);
  h_accuracy : list (option Q);
  h_val_accuracy : list (option Q)
}.

(** The detail of a [trainingProgress] event. *)
Record Progress : Type := mkProgress {
  p_epoch : nat;
  p_loss : option Q;
  p_accuracy : option Q;
  p_val_loss : option Q;
  p_val_accuracy : option Q;
  earlyStopping : nat
}.

(** The state of [fit]: [bestValLoss] is [None] for [Infinity];
    [bestWeights] is the epoch whose call of [getWeights] gave the stored
    weights, [None] for [null]; [restored] lists the arguments of the calls of
    [setWeights]; [dispatched] lists the events sent. *)
Record Fit : Type := mkFit {
  history : History;
  bestValLoss : option Q;
  bestWeights : option nat;
  patienceCounter : nat;
  dispatched : list Progress;
  restored : list (option nat)
}.

Definition patience : nat := 20.

(** [valLoss < this.bestValLoss]; false on [NaN]. *)
Definition improves (valLoss : option Q) (best : option Q) : bool :=
  match valLoss with
  | Some v =>
      match best with
      | Some b => negb (Qle_bool b v)
      | None => true
      end
  | None => false
  end.

(** The four [push] calls. *)
Definition push (r : EpochResult) (h : History) : History :=
  mkHistory (h_loss h ++ [loss r]) (h_val_loss h ++ [val_loss r])
    (h_accuracy h ++ [binaryAccuracy r])
    (h_val_accuracy h ++ [val_binaryAccuracy r]).

Definition progress (epoch : nat) (r : EpochResult) (counter : nat) : Progress :=
  mkProgress (epoch + 1) (loss r) (binaryAccuracy r) (val_loss r)
    (val_binaryAccuracy r) counter.

(** How a turn of the loop ends: at its end, or at the [break]. *)
Inductive Turn : Type :=
| Next (s : Fit)
| Break (s : Fit).

(** The turn of the loop at [epoch], the library reporting [r]. *)
Definition epochTurn (epoch : nat) (r : EpochResult) (s : Fit) : Turn :=
  let h := push r (history s) in
  match val_loss r, improves (val_loss r) (bestValLoss s) with
  | Some valLoss, true =>
      Next (mkFit h (Some valLoss) (Some epoch) 0
              (dispatched s ++ [progress epoch r 0]) (restored s))
  | _, _ =>
      let counter := S (patienceCounter s) in
      if (patience <=? counter)%nat then
        Break (mkFit h (bestValLoss s) (bestWeights s) counter (dispatched s)
                 (restored s ++ [bestWeights s]))
      else
        Next (mkFit h (bestValLoss s) (bestWeights s) counter
                (dispatched s ++ [progress epoch r counter]) (restored s))
  end.

Section Training.

(** The report of the library at each epoch. *)
Variable trainer : nat -> EpochResult.

(** [for (let epoch = ...; epoch < epochs; epoch++)] with [remaining]
    turns to go. *)
Fixpoint epochLoop (remaining epoch : nat) (s : Fit) : Fit :=
  match remaining with
  | O => s
  | S remaining' =>
      match epochTurn epoch (trainer epoch) s with
      | Next s' => epochLoop remaining' (S epoch) s'
      | Break s' => s'
      end
  end.

(** The state [fit] sets before the loop, whatever it was. *)
Definition start : Fit := mkFit (mkHistory [] [] [] []) None None 0 [] [].

Definition fit (epochs : nat) : Fit := epochLoop epochs 0 start.

End Training.

End GRUModelFit.

(** The vocabulary for the training loop. *)

Module SpecFit.

Import GRUModelFit.

Section Run.

Variable trainer : nat -> EpochResult.

(** The histories that record the first [n] epochs. *)
Definition historyOf (n : nat) : History :=
  let rs := map trainer (seq 0 n) in
  mkHistory (map loss rs) (map val_loss rs) (map binaryAccuracy rs)
    (map val_binaryAccuracy rs).

(** Epoch [k] is the first of the first [n] epochs to report the least
    validation loss [b] among them. *)
Definition leastAt (n k : nat) (b : Q) : Prop :=
  (k < n)%nat
  /\ val_loss (trainer k) = Some b
  /\ forall j v, (j < n)%nat -> val_loss (trainer j) = Some v ->
                 b <= v /\ ((j < k)%nat -> b < v).

(** What [s] holds as the best after [n] epochs, [sinceBest] of them
    after the best one. *)
Definition bestOf (n : nat) (s : Fit) (sinceBest : nat) : Prop :=
  (bestValLoss s = None /\ bestWeights s = None /\ sinceBest = n
   /\ forall j, (j < n)%nat -> val_loss (trainer j) = None)
  \/ (exists k b,
         bestValLoss s = Some b /\ bestWeights s = Some k
         /\ leastAt n k b /\ n = (k + 1 + sinceBest)%nat).

(** The loop is about to start epoch [n]. *)
Definition running (n : nat) (s : Fit) : Prop :=
  history s = historyOf n
  /\ map p_epoch (dispatched s) = seq 1 n
  /\ restored s = []
  /\ (patienceCounter s < patience)%nat
  /\ bestOf n s (patienceCounter s).

(** The loop was left at the [break] of its [n]th turn. *)
Definition stopped (n : nat) (s : Fit) : Prop :=
  history s = historyOf n
  /\ map p_epoch (dispatched s) = seq 1 (n - 1)
  /\ restored s = [bestWeights s]
  /\ patienceCounter s = patience
  /\ bestOf n s patience.

End Run.

End SpecFit.

(** * Properties *)

(** ** Lists, sets and sorting *)

Section ListFacts.

Context {A : Type}.

Lemma fold_left_invariant {B : Type} (P : A -> Prop) (f : A -> B -> A)
    (l : list B) (a : A) :
  P a -> (forall a' b, In b l -> P a' -> P (f a' b)) -> P (fold_left f l a).
Proof.
  revert a. induction l as [|b l IH]; intros a Ha Hstep; simpl.
  - exact Ha.
  - apply IH.
    + apply Hstep; [now left | exact Ha].
    + intros a' b' Hb'. apply Hstep. now right.
Qed.

Lemma slice_length (a b : nat) (l : list A) :
  (a <= b)%nat -> (b <= List.length l)%nat ->
  List.length (JS.slice a b l) = (b - a)%nat.
Proof.
  intros Hab Hb. unfold JS.slice.
  rewrite length_firstn, length_skipn. lia.
Qed.

Lemma insert_perm (le : A -> A -> bool) (x : A) (l : list A) :
  Permutation (JS.insert le x l) (x :: l).
Proof.
  induction l as [|y l IH]; simpl.
  - reflexivity.
  - destruct (le x y).
    + reflexivity.
    + rewrite IH. apply perm_swap.
Qed.

Lemma sortBy_perm (le : A -> A -> bool) (l : list A) :
  Permutation (JS.sortBy le l) l.
Proof.
  induction l as [|x l IH]; simpl.
  - reflexivity.
  - rewrite insert_perm. now constructor.
Qed.

Lemma sortBy_length (le : A -> A -> bool) (l : list A) :
  List.length (JS.sortBy le l) = List.length l.
Proof. apply Permutation_length, sortBy_perm. Qed.

End ListFacts.

Lemma sort_NoDup (l : list string) : NoDup l -> NoDup (JS.sort l).
Proof.
  intro H. eapply Permutation_NoDup; [|exact H].
  symmetry. apply sortBy_perm.
Qed.

Lemma candidates_range (len i : nat) :
  In i (DataLoader.candidates len)
  <-> (DataLoader.windowSize <= i /\ i + 3 < len)%nat.
Proof.
  unfold DataLoader.candidates, DataLoader.windowSize.
  rewrite in_seq. lia.
Qed.

(** ** Shapes of the samples and the targets *)

Section Shapes.

Import DataLoader Spec.

Variable st : Loader.

Lemma trackFeatures_length (d t : string) :
  List.length (trackFeatures st d t) = 5%nat.
Proof. unfold trackFeatures. now destruct (findEntry st d t). Qed.

Lemma dayFeatures_length (d : string) :
  List.length (dayFeatures st d) = (5 * List.length (selectedTracks st))%nat.
Proof.
  unfold dayFeatures.
  induction (selectedTracks st) as [|t ts IH]; simpl.
  - reflexivity.
  - rewrite length_app, trackFeatures_length, IH. lia.
Qed.

Lemma createSample_total (windowDates : list string) :
  createSample st windowDates = Some (map (dayFeatures st) windowDates).
Proof.
  unfold createSample. now rewrite length_map, Nat.eqb_refl.
Qed.

Lemma windowStep_shapes (D : list string) (acc : list Sample * list Target)
    (i : nat) :
  In i (candidates (List.length D)) ->
  Forall (sampleShape st) (fst acc) /\ Forall (targetShape st) (snd acc) ->
  Forall (sampleShape st) (fst (windowStep st D acc i))
  /\ Forall (targetShape st) (snd (windowStep st D acc i)).
Proof.
  intros Hi [Hs Ht]. apply candidates_range in Hi. unfold windowSize in Hi.
  unfold windowStep.
  destruct (nth_error D i) as [currentDate|]; [|now split].
  rewrite createSample_total.
  destruct (createTarget st currentDate) as [target|]; [|now split].
  destruct (Nat.eqb_spec (List.length target)
              (List.length (selectedTracks st) * 3)) as [Hlen|]; [|now split].
  simpl. split; apply Forall_app; split; trivial; constructor; trivial.
  - split.
    + rewrite length_map, slice_length; unfold windowSize; lia.
    + apply Forall_map, Forall_forall. intros d _. apply dayFeatures_length.
  - unfold targetShape. lia.
Qed.

Lemma slidingWindows_shapes :
  Forall (sampleShape st) (fst (slidingWindows st))
  /\ Forall (targetShape st) (snd (slidingWindows st)).
Proof.
  unfold slidingWindows.
  apply (fold_left_invariant
           (fun acc => Forall (sampleShape st) (fst acc)
                       /\ Forall (targetShape st) (snd acc))).
  - split; constructor.
  - intros acc i Hi Hacc. now apply windowStep_shapes.
Qed.

End Shapes.

(** ** The target of one candidate date *)

Lemma findIndexFrom_nth (x : string) (l : list string) (i : nat) (k : Z) :
  NoDup l -> nth_error l i = Some x ->
  JS.findIndexFrom (String.eqb x) l k = (k + Z.of_nat i)%Z.
Proof.
  revert i k. induction l as [|y l IH]; intros i k Hnd Hnth.
  - now destruct i.
  - destruct i as [|i]; simpl in *.
    + injection Hnth as ->. rewrite String.eqb_refl. lia.
    + inversion Hnd as [|? ? Hnotin Hnd']; subst.
      destruct (String.eqb_spec x y) as [->|_].
      * exfalso. apply Hnotin. eapply nth_error_In; eauto.
      * rewrite (IH i (k + 1)%Z Hnd' Hnth). lia.
Qed.

Lemma indexOf_nth (x : string) (l : list string) (i : nat) :
  NoDup l -> nth_error l i = Some x -> JS.indexOf x l = Z.of_nat i.
Proof.
  intros Hnd Hnth. unfold JS.indexOf, JS.findIndex.
  now rewrite (findIndexFrom_nth x l i 0 Hnd Hnth).
Qed.

Lemma get_of_nat {A : Type} (l : list A) (i k : nat) :
  JS.get l (Z.of_nat i + Z.of_nat k)%Z = nth_error l (i + k).
Proof.
  unfold JS.get.
  destruct (Z.ltb_spec (Z.of_nat i + Z.of_nat k) 0) as [H|H]; [lia|].
  f_equal. lia.
Qed.

Section Target.

Import DataLoader Spec.

Variable st : Loader.
Variable D : list string.
Variable d : string.
Variable idx : Z.

Lemma offsetLoop_app (t : string) (cs : Q) (offs : list Z) (target : Target) :
  offsetLoop st D idx t cs offs target
  = option_map (app target) (offsetLoop st D idx t cs offs []).
Proof.
  revert target. induction offs as [|o offs IH]; intro target; simpl.
  - now rewrite app_nil_r.
  - destruct (JS.get D (idx + o)) as [fd|]; [|reflexivity].
    destruct (findEntry st fd t) as [fe|]; [|reflexivity].
    rewrite IH. rewrite (IH [_]).
    destruct (offsetLoop st D idx t cs offs []) as [out|]; simpl; [|reflexivity].
    now rewrite <- app_assoc.
Qed.

(** The inner loop over the offsets 1, 2, 3 computes the block of the
    track. *)
Lemma offsetLoop_trackBlock (t : string) (ce : Entry) :
  findEntry st d t = Some ce ->
  offsetLoop st D idx t (streams ce) [1; 2; 3]%Z [] = trackBlock st D d idx t.
Proof.
  intro Hce. unfold trackBlock, futureStreams. rewrite Hce. simpl.
  destruct (JS.get D (idx + 1)) as [d1|]; [|reflexivity].
  destruct (findEntry st d1 t) as [e1|]; simpl; [|reflexivity].
  destruct (JS.get D (idx + 2)) as [d2|]; [|reflexivity].
  destruct (findEntry st d2 t) as [e2|]; simpl; [|reflexivity].
  destruct (JS.get D (idx + 3)) as [d3|]; [|reflexivity].
  destruct (findEntry st d3 t) as [e3|]; simpl; reflexivity.
Qed.

Lemma trackLoop_cons (t : string) (ts : list string) (target : Target) :
  trackLoop st D d idx (t :: ts) target
  = match trackBlock st D d idx t with
    | Some b => trackLoop st D d idx ts (target ++ b)
    | None => None
    end.
Proof.
  cbn [trackLoop]. destruct (findEntry st d t) as [ce|] eqn:Hce.
  - rewrite offsetLoop_app, (offsetLoop_trackBlock t ce Hce).
    now destruct (trackBlock st D d idx t).
  - unfold trackBlock. now rewrite Hce.
Qed.

Lemma trackBlock_length (t : string) (b : list Q) :
  trackBlock st D d idx t = Some b -> List.length b = 3%nat.
Proof.
  unfold trackBlock. intro H.
  destruct (findEntry st d t); [|discriminate].
  destruct (futureStreams st D idx t 1); [|discriminate].
  destruct (futureStreams st D idx t 2); [|discriminate].
  destruct (futureStreams st D idx t 3); [|discriminate].
  now injection H as <-.
Qed.

(** An accepted target is the concatenation of the blocks of the tracks,
    in the order of the tracks. *)
Lemma trackLoop_Some (ts : list string) (target out : Target) :
  trackLoop st D d idx ts target = Some out ->
  exists blocks,
    Forall2 (fun t b => trackBlock st D d idx t = Some b) ts blocks
    /\ out = target ++ List.concat blocks.
Proof.
  revert target. induction ts as [|t ts IH]; intros target H.
  - injection H as <-. exists []. split; [constructor|].
    simpl. now rewrite app_nil_r.
  - rewrite trackLoop_cons in H.
    destruct (trackBlock st D d idx t) as [b|] eqn:Hb; [|discriminate].
    destruct (IH _ H) as (blocks & HF & ->).
    exists (b :: blocks). split; [now constructor|].
    simpl. now rewrite app_assoc.
Qed.

(** The target is dropped exactly when some track misses a block. *)
Lemma trackLoop_None (ts : list string) (target : Target) :
  trackLoop st D d idx ts target = None
  <-> exists t, In t ts /\ trackBlock st D d idx t = None.
Proof.
  revert target. induction ts as [|t ts IH]; intro target.
  - simpl. split; [discriminate|]. now intros (t & [] & _).
  - rewrite trackLoop_cons.
    destruct (trackBlock st D d idx t) as [b|] eqn:Hb.
    + rewrite IH. split.
      * intros (t' & Hin & Ht'). exists t'. split; [now right|trivial].
      * intros (t' & [<-|Hin] & Ht'); [congruence|]. now exists t'.
    + split; [|trivial]. intros _. exists t. split; [now left|trivial].
Qed.

Lemma trackLoop_length (ts : list string) (target out : Target) :
  trackLoop st D d idx ts target = Some out ->
  List.length out = (List.length target + 3 * List.length ts)%nat.
Proof.
  revert target. induction ts as [|t ts IH]; intros target H.
  - injection H as <-. simpl. lia.
  - rewrite trackLoop_cons in H.
    destruct (trackBlock st D d idx t) as [b|] eqn:Hb; [|discriminate].
    rewrite (IH _ H), length_app, (trackBlock_length t b Hb). simpl. lia.
Qed.

End Target.

Lemma concat_blocks_nth (blocks : list (list Q)) (j r : nat) (b : list Q) :
  Forall (fun b => List.length b = 3%nat) blocks ->
  nth_error blocks j = Some b -> (r < 3)%nat ->
  nth_error (List.concat blocks) (3 * j + r) = nth_error b r.
Proof.
  revert j. induction blocks as [|b0 blocks IH]; intros j HF Hj Hr.
  - now destruct j.
  - inversion HF as [|? ? Hb0 HF']; subst.
    change (List.concat (b0 :: blocks)) with (b0 ++ List.concat blocks).
    destruct j as [|j].
    + injection Hj as ->. now rewrite nth_error_app1 by lia.
    + rewrite nth_error_app2 by lia.
      replace (3 * S j + r - List.length b0)%nat with (3 * j + r)%nat by lia.
      now apply IH.
Qed.

Section Acceptance.

Import DataLoader Spec.

Variable st : Loader.

Lemma createTarget_length (d : string) (target : Target) :
  createTarget st d = Some target -> targetShape st target.
Proof.
  unfold createTarget, targetShape. intro H.
  now rewrite (trackLoop_length _ _ _ _ _ _ _ H).
Qed.

(** At the date of index [i] of the sorted dates a track has a block
    exactly when it is observed at [i], [i+1], [i+2] and [i+3]. *)
Lemma trackBlock_observed (i : nat) (d t : string) :
  nth_error (JS.sort (dates st)) i = Some d ->
  (exists b, trackBlock st (JS.sort (dates st)) d (Z.of_nat i) t = Some b)
  <-> forallb (fun k => observedAt st (JS.sort (dates st)) (i + k) t)
        [0; 1; 2; 3]%nat = true.
Proof.
  intro Hd. unfold trackBlock, futureStreams, observedAt. simpl.
  rewrite Nat.add_0_r, Hd.
  change 1%Z with (Z.of_nat 1). change 2%Z with (Z.of_nat 2).
  change 3%Z with (Z.of_nat 3). rewrite !get_of_nat.
  destruct (findEntry st d t); simpl.
  2:{ split; [now intros [b Hb]|discriminate]. }
  destruct (nth_error (JS.sort (dates st)) (i + 1)) as [d1|]; simpl.
  2:{ split; [now intros [b Hb]|discriminate]. }
  destruct (findEntry st d1 t); simpl.
  2:{ split; [now intros [b Hb]|discriminate]. }
  destruct (nth_error (JS.sort (dates st)) (i + 2)) as [d2|]; simpl.
  2:{ split; [now intros [b Hb]|discriminate]. }
  destruct (findEntry st d2 t); simpl.
  2:{ split; [now intros [b Hb]|discriminate]. }
  destruct (nth_error (JS.sort (dates st)) (i + 3)) as [d3|]; simpl.
  2:{ split; [now intros [b Hb]|discriminate]. }
  destruct (findEntry st d3 t); simpl.
  2:{ split; [now intros [b Hb]|discriminate]. }
  split; [reflexivity|]. intros _. eexists. reflexivity.
Qed.

(** A candidate is accepted exactly when it is fully observed. *)
Lemma createTarget_fullyObserved (i : nat) (d : string) :
  NoDup (dates st) ->
  nth_error (JS.sort (dates st)) i = Some d ->
  (exists target, createTarget st d = Some target)
  <-> fullyObserved st (JS.sort (dates st)) i = true.
Proof.
  intros Hnd Hd. unfold createTarget, fullyObserved.
  rewrite (indexOf_nth d _ i (sort_NoDup _ Hnd) Hd).
  rewrite forallb_forall. split.
  - intros [target Ht] t Hin.
    apply (trackBlock_observed i d t Hd).
    destruct (trackBlock st (JS.sort (dates st)) d (Z.of_nat i) t) as [b|] eqn:Hb;
      [now exists b|].
    assert (Hnone : trackLoop st (JS.sort (dates st)) d (Z.of_nat i)
                      (selectedTracks st) [] = None)
      by (apply trackLoop_None; now exists t).
    congruence.
  - intro Hall.
    destruct (trackLoop st (JS.sort (dates st)) d (Z.of_nat i)
                (selectedTracks st) []) as [target|] eqn:Ht; [now exists target|].
    apply trackLoop_None in Ht. destruct Ht as (t & Hin & Hb).
    apply Hall in Hin. apply (trackBlock_observed i d t Hd) in Hin.
    destruct Hin as [b Hb']. congruence.
Qed.

End Acceptance.

(** ** The loop of the window builder *)

Section Windows.

Import DataLoader Spec.

Variable st : Loader.

Local Abbreviation D := (JS.sort (dates st)).

(** One turn of the loop appends the window of the candidate when it is
    fully observed and nothing otherwise. *)
Lemma windowStep_accept (acc : list Sample * list Target) (i : nat) :
  NoDup (dates st) ->
  In i (candidates (List.length D)) ->
  fst (windowStep st D acc i)
  = fst acc ++ (if fullyObserved st D i then [windowAt st D i] else [])
  /\ List.length (snd (windowStep st D acc i))
     = (List.length (snd acc) + (if fullyObserved st D i then 1 else 0))%nat.
Proof.
  intros Hnd Hi. apply candidates_range in Hi.
  destruct (nth_error D i) as [d|] eqn:Hd.
  2:{ apply nth_error_None in Hd. lia. }
  unfold windowStep. rewrite Hd, createSample_total.
  pose proof (createTarget_fullyObserved st i d Hnd Hd) as Hacc.
  fold D in Hacc.
  destruct (createTarget st d) as [target|] eqn:Ht.
  - assert (Hfo : fullyObserved st D i = true) by (apply Hacc; now exists target).
    rewrite Hfo. apply createTarget_length in Ht. unfold targetShape in Ht.
    replace (List.length (selectedTracks st) * 3)%nat
      with (3 * List.length (selectedTracks st))%nat by lia.
    rewrite Ht, Nat.eqb_refl. simpl. rewrite length_app. simpl. split; [reflexivity|lia].
  - destruct (fullyObserved st D i) eqn:Hfo.
    + destruct Hacc as [_ Hacc]. destruct (Hacc eq_refl) as [target Habs].
      discriminate.
    + rewrite app_nil_r. split; [reflexivity|lia].
Qed.

Lemma windowLoop_accept (l : list nat) (acc : list Sample * list Target) :
  NoDup (dates st) ->
  (forall i, In i l -> In i (candidates (List.length D))) ->
  fst (fold_left (windowStep st D) l acc)
  = fst acc ++ map (windowAt st D) (filter (fullyObserved st D) l)
  /\ List.length (snd (fold_left (windowStep st D) l acc))
     = (List.length (snd acc)
        + List.length (filter (fullyObserved st D) l))%nat.
Proof.
  intros Hnd. revert acc. induction l as [|i l IH]; intros acc Hl; simpl.
  - rewrite app_nil_r. split; [reflexivity|lia].
  - destruct (IH (windowStep st D acc i)) as [IHs IHt].
    { intros j Hj. apply Hl. now right. }
    destruct (windowStep_accept acc i Hnd) as [Hs Ht].
    { apply Hl. now left. }
    rewrite IHs, IHt, Hs, Ht.
    destruct (fullyObserved st D i); simpl.
    + rewrite <- app_assoc. split; [reflexivity|lia].
    + rewrite app_nil_r. split; [reflexivity|lia].
Qed.

(** The samples are the windows of the fully observed candidates, in
    the order of the dates, and there is one target per sample. *)
Lemma slidingWindows_accepted :
  NoDup (dates st) ->
  fst (slidingWindows st)
  = map (windowAt st D)
      (filter (fullyObserved st D) (candidates (List.length D)))
  /\ List.length (snd (slidingWindows st))
     = List.length (fst (slidingWindows st)).
Proof.
  intro Hnd. unfold slidingWindows. fold D.
  destruct (windowLoop_accept (candidates (List.length D)) ([], []) Hnd)
    as [Hs Ht]; [auto|].
  rewrite Hs, Ht. simpl. now rewrite length_map.
Qed.

(** One turn of the loop stores, for a fully observed candidate, the
    target that [createTarget] returns at its date. *)
Lemma windowStep_target (acc : list Sample * list Target) (i : nat) :
  NoDup (dates st) ->
  In i (candidates (List.length D)) ->
  map Some (snd (windowStep st D acc i))
  = map Some (snd acc)
    ++ (if fullyObserved st D i then [targetAt st D i] else []).
Proof.
  intros Hnd Hi. apply candidates_range in Hi.
  destruct (nth_error D i) as [d|] eqn:Hd.
  2:{ apply nth_error_None in Hd. lia. }
  unfold windowStep, targetAt. rewrite Hd, createSample_total.
  pose proof (createTarget_fullyObserved st i d Hnd Hd) as Hacc.
  fold D in Hacc.
  destruct (createTarget st d) as [target|] eqn:Ht.
  - assert (Hfo : fullyObserved st D i = true) by (apply Hacc; now exists target).
    rewrite Hfo. apply createTarget_length in Ht. unfold targetShape in Ht.
    replace (List.length (selectedTracks st) * 3)%nat
      with (3 * List.length (selectedTracks st))%nat by lia.
    rewrite Ht, Nat.eqb_refl. cbn [snd]. now rewrite map_app.
  - destruct (fullyObserved st D i) eqn:Hfo.
    + destruct Hacc as [_ Hacc]. destruct (Hacc eq_refl) as [target Habs].
      discriminate.
    + now rewrite app_nil_r.
Qed.

Lemma windowLoop_targets (l : list nat) (acc : list Sample * list Target) :
  NoDup (dates st) ->
  (forall i, In i l -> In i (candidates (List.length D))) ->
  map Some (snd (fold_left (windowStep st D) l acc))
  = map Some (snd acc)
    ++ map (targetAt st D) (filter (fullyObserved st D) l).
Proof.
  intros Hnd. revert acc. induction l as [|i l IH]; intros acc Hl; simpl.
  - now rewrite app_nil_r.
  - rewrite IH by (intros j Hj; apply Hl; now right).
    rewrite (windowStep_target acc i Hnd) by (apply Hl; now left).
    destruct (fullyObserved st D i); simpl.
    + now rewrite <- app_assoc.
    + now rewrite app_nil_r.
Qed.

(** The targets the loop stores are the targets [createTarget] returns
    at the fully observed candidates, in the order of the dates. *)
Lemma slidingWindows_targets :
  NoDup (dates st) ->
  map Some (snd (slidingWindows st))
  = map (targetAt st D)
      (filter (fullyObserved st D) (candidates (List.length D))).
Proof.
  intro Hnd. unfold slidingWindows. fold D.
  rewrite (windowLoop_targets _ ([], []) Hnd); auto.
Qed.

Lemma windowStep_paired (acc : list Sample * list Target) (i : nat) :
  List.length (fst acc) = List.length (snd acc) ->
  List.length (fst (windowStep st D acc i))
  = List.length (snd (windowStep st D acc i)).
Proof.
  intro H. unfold windowStep.
  destruct (nth_error D i); [|exact H].
  destruct (createSample st _); [|exact H].
  destruct (createTarget st _); [|exact H].
  destruct (Nat.eqb _ _); [|exact H].
  simpl. rewrite !length_app. simpl. lia.
Qed.

Lemma slidingWindows_paired :
  List.length (fst (slidingWindows st)) = List.length (snd (slidingWindows st)).
Proof.
  unfold slidingWindows.
  apply (fold_left_invariant
           (fun acc => List.length (fst acc) = List.length (snd acc))).
  - reflexivity.
  - intros acc i _. apply windowStep_paired.
Qed.

Lemma findEntry_Some_iff (d t : string) :
  (exists e, findEntry st d t = Some e)
  <-> exists e, In e (data st) /\ date e = d /\ track_id e = t.
Proof.
  unfold findEntry. split.
  - intros [e He]. apply find_some in He. destruct He as [Hin Hb].
    apply andb_prop in Hb. destruct Hb as [Hd Ht].
    apply String.eqb_eq in Hd, Ht. now exists e.
  - intros (e & Hin & Hd & Ht).
    destruct (find _ (data st)) as [e'|] eqn:Hf; [now exists e'|].
    eapply find_none in Hf; [|exact Hin]. simpl in Hf.
    rewrite Hd, Ht, !String.eqb_refl in Hf. discriminate.
Qed.

Lemma observedAt_iff (idx : nat) (t : string) :
  observedAt st D idx t = true
  <-> exists d e, nth_error D idx = Some d
                  /\ In e (data st) /\ date e = d /\ track_id e = t.
Proof.
  unfold observedAt. destruct (nth_error D idx) as [d|].
  - destruct (findEntry st d t) as [e|] eqn:Hf.
    + split; [|reflexivity]. intros _.
      destruct (proj1 (findEntry_Some_iff d t)) as (e' & He'); [now exists e|].
      now exists d, e'.
    + split; [discriminate|]. intros (d' & e & Hd & He). injection Hd as <-.
      destruct (proj2 (findEntry_Some_iff d t)) as (e' & He'); [now exists e|].
      congruence.
  - split; [discriminate|]. now intros (d & e & Hd & _).
Qed.

Lemma fullyObserved_iff (i : nat) :
  fullyObserved st D i = true
  <-> forall t, In t (selectedTracks st) ->
      forall k, (k <= 3)%nat ->
      exists d e, nth_error D (i + k) = Some d
                  /\ In e (data st) /\ date e = d /\ track_id e = t.
Proof.
  unfold fullyObserved. rewrite forallb_forall. split.
  - intros H t Hin k Hk. specialize (H t Hin).
    rewrite forallb_forall in H. apply observedAt_iff, H. simpl. lia.
  - intros H t Hin. rewrite forallb_forall. intros k Hk.
    apply observedAt_iff, H; [exact Hin|]. simpl in Hk. lia.
Qed.

End Windows.

Section Removal.

Import DataLoader Spec.

Lemma findEntry_removeObservation (st : Loader) (d t : string) :
  findEntry (removeObservation d t st) d t = None.
Proof.
  unfold findEntry, removeObservation, setData. simpl.
  destruct (find _ (filter _ (data st))) as [e|] eqn:Hf; [|reflexivity].
  apply find_some in Hf. destruct Hf as [Hin Hb].
  apply filter_In in Hin. destruct Hin as [_ Hneg].
  rewrite Hb in Hneg. discriminate.
Qed.

Lemma fullyObserved_removeObservation (st : Loader) (i k : nat) (dk t : string) :
  In t (selectedTracks st) -> (k <= 3)%nat ->
  nth_error (JS.sort (dates st)) (i + k) = Some dk ->
  fullyObserved (removeObservation dk t st) (JS.sort (dates st)) i = false.
Proof.
  intros Hin Hk Hdk. unfold fullyObserved.
  apply not_true_is_false. intro H. rewrite forallb_forall in H.
  specialize (H t Hin). rewrite forallb_forall in H.
  assert (Hk' : In k [0; 1; 2; 3]%nat) by (simpl; lia).
  specialize (H k Hk'). unfold observedAt in H.
  rewrite Hdk, findEntry_removeObservation in H. discriminate.
Qed.

End Removal.

(** ** The window builder: shapes, candidates, labels *)

Section WindowBuilder.

Import DataLoader Spec.

Lemma Forall_firstn_skipn {A : Type} (P : A -> Prop) (n : nat) (l : list A) :
  Forall P l -> Forall P (firstn n l) /\ Forall P (skipn n l).
Proof.
  intro H. rewrite <- (firstn_skipn n l) in H. now apply Forall_app in H.
Qed.

Lemma candidates_seq (len : nat) : candidates len = seq 7 (len - 10).
Proof.
  unfold candidates, windowSize. f_equal. lia.
Qed.

Lemma tensorOf_Some {A : Type} (rows : list A) :
  rows <> [] -> tensorOf rows = Some rows.
Proof. now destruct rows. Qed.

Lemma length_nonempty {A : Type} (l : list A) :
  (0 < List.length l)%nat -> l <> [].
Proof. destruct l; simpl; [lia|discriminate]. Qed.

(** [splitData] throws when there are fewer than two windows, and
    otherwise stores the first [floor (0.8 * n)] windows for training and the
    rest for the test. *)
Lemma splitData_cases (st : Loader) (samples : list Sample)
    (targets : list Target) :
  List.length targets = List.length samples ->
  let k := JS.floor08 (List.length samples) in
  ((List.length samples < 2)%nat /\ splitData st samples targets = None)
  \/ ((2 <= List.length samples)%nat
      /\ (0 < k < List.length samples)%nat
      /\ splitData st samples targets
         = Some (mkLoader (data st) (tracks st) (dates st)
                   (Some (firstn k samples)) (Some (firstn k targets))
                   (Some (skipn k samples)) (Some (skipn k targets))
                   (trackMetadata st) (normalizationParams st)
                   (selectedTracks st))).
Proof.
  intros Hlen k. unfold splitData. fold k.
  destruct (Nat.lt_ge_cases (List.length samples) 2) as [Hlt|Hge].
  - left. split; [exact Hlt|].
    assert (Hk : k = 0%nat).
    { unfold k, JS.floor08.
      destruct (List.length samples) as [|[|m]]; [reflexivity|reflexivity|lia]. }
    rewrite Hk. reflexivity.
  - right. split; [exact Hge|].
    assert (Hk : (0 < k < List.length samples)%nat).
    { unfold k, JS.floor08. split.
      - apply Nat.div_str_pos. lia.
      - apply Nat.Div0.div_lt_upper_bound. lia. }
    split; [exact Hk|].
    rewrite !tensorOf_Some; [reflexivity| | | |]; apply length_nonempty;
      rewrite ?length_firstn, ?length_skipn; lia.
Qed.

(** C1.  Every sample the window builder produces is a
    [windowSize] (7) by 5 x |selectedTracks| matrix, each day being the
    concatenation of five values per selected track in the order of the
    tracks, with five zeros for a (date, track) pair that has no row; every
    target has length 3 x |selectedTracks|, and there are as many targets
    as samples.  This holds of the lists of the loop and of the four tensors
    the builder stores; it stores them exactly when the loop has accepted at
    least two windows, and throws otherwise. *)
Theorem createSlidingWindows_shapes (st : Loader) :
  let n := normalizeFeatures st in
  (forall out samples,
      createSlidingWindows st = Some out ->
      X_train out = Some samples \/ X_test out = Some samples ->
      Forall (sampleShape st) samples)
  /\ (forall out targets,
         createSlidingWindows st = Some out ->
         y_train out = Some targets \/ y_test out = Some targets ->
         Forall (targetShape st) targets)
  /\ (createSlidingWindows st = None
      <-> (List.length (fst (slidingWindows n)) < 2)%nat)
  /\ List.length (snd (slidingWindows n))
     = List.length (fst (slidingWindows n))
  /\ Forall (sampleShape st) (fst (slidingWindows n))
  /\ Forall (targetShape st) (snd (slidingWindows n))
  /\ windowSize = 7%nat
  /\ (forall d,
         dayFeatures n d = flat_map (trackFeatures n d) (selectedTracks st))
  /\ (forall d t, List.length (trackFeatures n d t) = 5%nat)
  /\ (forall d t,
         findEntry n d t = None -> trackFeatures n d t = [0; 0; 0; 0; 0]).
Proof.
  intros n.
  destruct (slidingWindows_shapes n) as [Hs Ht].
  change (selectedTracks n) with (selectedTracks st) in *.
  assert (HS : forall k, Forall (sampleShape st) (firstn k (fst (slidingWindows n)))
                         /\ Forall (sampleShape st) (skipn k (fst (slidingWindows n))))
    by (intro k; now apply Forall_firstn_skipn).
  assert (HT : forall k, Forall (targetShape st) (firstn k (snd (slidingWindows n)))
                         /\ Forall (targetShape st) (skipn k (snd (slidingWindows n))))
    by (intro k; now apply Forall_firstn_skipn).
  pose proof (slidingWindows_paired n) as Hp. symmetry in Hp.
  pose proof (splitData_cases n _ _ Hp) as Hsplit. cbv zeta in Hsplit.
  assert (Hdef : createSlidingWindows st
                 = splitData n (fst (slidingWindows n)) (snd (slidingWindows n)))
    by reflexivity.
  rewrite Hdef. clear Hdef.
  split; [|split; [|split; [|split; [exact Hp|]]]].
  - intros out samples Hout H.
    destruct Hsplit as [(_ & Hnone)|(_ & _ & Hsome)]; [congruence|].
    rewrite Hsome in Hout. injection Hout as <-. cbn [X_train X_test] in H.
    destruct H as [H|H]; injection H as <-; apply HS.
  - intros out targets Hout H.
    destruct Hsplit as [(_ & Hnone)|(_ & _ & Hsome)]; [congruence|].
    rewrite Hsome in Hout. injection Hout as <-. cbn [y_train y_test] in H.
    destruct H as [H|H]; injection H as <-; apply HT.
  - destruct Hsplit as [(Hlt & Hnone)|(Hge & _ & Hsome)].
    + split; [intros _; exact Hlt|intros _; exact Hnone].
    + rewrite Hsome. split; [discriminate|lia].
  - repeat split.
    + exact Hs.
    + exact Ht.
    + intros d t. apply trackFeatures_length.
    + intros d t H. unfold trackFeatures. now rewrite H.
Qed.

(** C2.  Over the sorted distinct dates [D], the loop visits the indices
    from [windowSize] to [|D| - 3 - 1] inclusive; the samples are the windows
    of the visited indices at which every selected track has an observation
    at the candidate date and at each of the three dates after it, in date
    order; with 11 dates the only index visited is 7, which gives one sample
    when it is fully observed and none once an observation of a selected
    track at one of the dates 7..10 is removed; with fewer than 11 dates there
    is no sample. *)
Theorem slidingWindows_candidates (st : Loader) :
  NoDup (dates st) ->
  let D := JS.sort (dates st) in
  (forall i,
      In i (candidates (List.length D))
      <-> (Z.of_nat windowSize <= Z.of_nat i
           /\ Z.of_nat i <= Z.of_nat (List.length D) - 3 - 1)%Z)
  /\ fst (slidingWindows st)
     = map (windowAt st D)
         (filter (fullyObserved st D) (candidates (List.length D)))
  /\ List.length (snd (slidingWindows st))
     = List.length (fst (slidingWindows st))
  /\ (forall i,
         fullyObserved st D i = true
         <-> forall t, In t (selectedTracks st) ->
             forall k, (k <= 3)%nat ->
             exists d e, nth_error D (i + k) = Some d
                         /\ In e (data st) /\ date e = d /\ track_id e = t)
  /\ (List.length D = 11%nat ->
      candidates (List.length D) = [7%nat]
      /\ (fullyObserved st D 7 = true ->
          List.length (fst (slidingWindows st)) = 1%nat)
      /\ (forall t k dk,
             In t (selectedTracks st) -> (k <= 3)%nat ->
             nth_error D (7 + k) = Some dk ->
             List.length (fst (slidingWindows (removeObservation dk t st)))
             = 0%nat))
  /\ ((List.length D <= 10)%nat -> fst (slidingWindows st) = []).
Proof.
  intros Hnd D.
  destruct (slidingWindows_accepted st Hnd) as [Hs Ht]. fold D in Hs.
  split; [|split; [exact Hs|split; [exact Ht|split; [|split]]]].
  - intro i. rewrite candidates_range. lia.
  - intro i. apply fullyObserved_iff.
  - intro Hlen. rewrite Hlen. split; [reflexivity|split].
    + intro Hfo. rewrite Hs, Hlen.
      change (candidates 11) with [7%nat]. cbn [filter]. now rewrite Hfo.
    + intros t k dk Hin Hk Hdk.
      destruct (slidingWindows_accepted (removeObservation dk t st) Hnd)
        as [Hs' _].
      change (dates (removeObservation dk t st)) with (dates st) in Hs'.
      fold D in Hs'. rewrite Hs', Hlen.
      change (candidates 11) with [7%nat]. cbn [filter].
      pose proof (fullyObserved_removeObservation st 7 k dk t Hin Hk Hdk) as Hr.
      fold D in Hr. now rewrite Hr.
  - intro Hlen. rewrite Hs. unfold candidates, windowSize.
    replace (List.length D - 3 - 7)%nat with 0%nat by lia. reflexivity.
Qed.

Lemma Forall2_nth_left {A B : Type} (R : A -> B -> Prop) (l : list A)
    (l' : list B) (j : nat) (x : A) :
  Forall2 R l l' -> nth_error l j = Some x ->
  exists y, nth_error l' j = Some y /\ R x y.
Proof.
  intro HF. revert j. induction HF as [|a b l l' Hab HF IH]; intros j Hj.
  - now destruct j.
  - destruct j as [|j]; simpl in *.
    + injection Hj as <-. now exists b.
    + now apply IH.
Qed.

Lemma label_cases (c f : Q) :
  (label c f = 1 <-> c < f) /\ (label c f = 0 <-> f <= c).
Proof.
  unfold label, JS.gtb. destruct (Qle_bool f c) eqn:H; simpl.
  - apply Qle_bool_iff in H. repeat split; trivial; try discriminate.
    intro Hlt. exfalso. now apply (Qlt_not_le c f).
  - assert (Hlt : c < f).
    { apply Qnot_le_lt. intro Hle. apply Qle_bool_iff in Hle. congruence. }
    repeat split; trivial; try discriminate.
    intro Hle. exfalso. now apply (Qlt_not_le c f).
Qed.

Lemma futureStreams_Some (st : Loader) (D : list string) (idx : Z)
    (t : string) (k : Z) (f : Q) :
  futureStreams st D idx t k = Some f ->
  exists fd fe, JS.get D (idx + k) = Some fd
                /\ findEntry st fd t = Some fe /\ streams fe = f.
Proof.
  unfold futureStreams. destruct (JS.get D (idx + k)) as [fd|]; [|discriminate].
  destruct (findEntry st fd t) as [fe|] eqn:Hfe; [|discriminate].
  simpl. intro H. injection H as <-. now exists fd, fe.
Qed.

Lemma futureStreams_None (st : Loader) (D : list string) (idx : Z)
    (t : string) (k : Z) :
  futureStreams st D idx t k = None
  <-> forall fd, JS.get D (idx + k) = Some fd -> findEntry st fd t = None.
Proof.
  unfold futureStreams. destruct (JS.get D (idx + k)) as [fd|].
  - destruct (findEntry st fd t) as [fe|] eqn:Hfe; simpl.
    + split; [discriminate|]. intro H. specialize (H fd eq_refl). congruence.
    + split; [|reflexivity]. intros _ fd' H. now injection H as <-.
  - split; [|reflexivity]. intros _ fd H. discriminate.
Qed.

Lemma trackBlock_None (st : Loader) (D : list string) (d : string) (idx : Z)
    (t : string) :
  trackBlock st D d idx t = None
  <-> findEntry st d t = None
      \/ exists k, (1 <= k <= 3)%Z
                   /\ forall fd, JS.get D (idx + k) = Some fd ->
                                 findEntry st fd t = None.
Proof.
  unfold trackBlock. destruct (findEntry st d t) as [ce|].
  2:{ split; [now left|reflexivity]. }
  destruct (futureStreams st D idx t 1) as [f1|] eqn:H1.
  2:{ split; [|reflexivity]. intros _. right. exists 1%Z.
      split; [lia|]. now apply futureStreams_None. }
  destruct (futureStreams st D idx t 2) as [f2|] eqn:H2.
  2:{ split; [|reflexivity]. intros _. right. exists 2%Z.
      split; [lia|]. now apply futureStreams_None. }
  destruct (futureStreams st D idx t 3) as [f3|] eqn:H3.
  2:{ split; [|reflexivity]. intros _. right. exists 3%Z.
      split; [lia|]. now apply futureStreams_None. }
  split; [discriminate|]. intros [H|(k & Hk & H)]; [discriminate|].
  apply futureStreams_None in H.
  assert (Hc : (k = 1 \/ k = 2 \/ k = 3)%Z) by lia.
  destruct Hc as [->|[->| ->]]; congruence.
Qed.

(** C4.  In an accepted target the entry at position [3*j + (k-1)], for
    the track of index [j] and the offset [k] in 1..3, is 1 when the streams
    of the track at the date [k] places after the current date strictly
    exceed its streams at the current date, and 0 otherwise, so 0 when they
    are equal; the target is dropped, and the loop then stores nothing for
    the candidate, exactly when some selected track lacks the current
    observation or one of the three future ones.  The targets the window
    builder stores are the targets of the fully observed candidates, one for
    each, in the order of the dates. *)
Theorem createTarget_labels (st : Loader) (d : string) :
  let D := JS.sort (dates st) in
  let idx := JS.indexOf d D in
  (forall target,
      createTarget st d = Some target ->
      List.length target = (3 * List.length (selectedTracks st))%nat
      /\ forall j t,
          nth_error (selectedTracks st) j = Some t ->
          exists ce,
            findEntry st d t = Some ce
            /\ forall k, (1 <= k <= 3)%nat ->
               exists fd fe,
                 JS.get D (idx + Z.of_nat k) = Some fd
                 /\ findEntry st fd t = Some fe
                 /\ nth_error target (3 * j + (k - 1))
                    = Some (label (streams ce) (streams fe)))
  /\ (forall c f, (label c f = 1 <-> c < f) /\ (label c f = 0 <-> f <= c))
  /\ (createTarget st d = None
      <-> exists t,
          In t (selectedTracks st)
          /\ (findEntry st d t = None
              \/ exists k, (1 <= k <= 3)%Z
                           /\ forall fd, JS.get D (idx + k) = Some fd ->
                                         findEntry st fd t = None))
  /\ (createTarget st d = None ->
      forall acc i, nth_error D i = Some d -> windowStep st D acc i = acc)
  /\ (NoDup (dates st) ->
      let accepted :=
        filter (fullyObserved st D) (seq 7 (List.length D - 10)) in
      map Some (snd (slidingWindows st)) = map (targetAt st D) accepted
      /\ forall p target,
          nth_error (snd (slidingWindows st)) p = Some target ->
          exists i currentDate,
            nth_error accepted p = Some i
            /\ nth_error D i = Some currentDate
            /\ createTarget st currentDate = Some target).
Proof.
  intros D idx. split; [|split; [exact label_cases|split; [|split]]].
  - intros target Ht. split; [exact (createTarget_length st d target Ht)|].
    unfold createTarget in Ht. fold D idx in Ht.
    apply trackLoop_Some in Ht. destruct Ht as (blocks & HF & ->).
    cbn [app]. intros j t Hj.
    assert (Hlen : Forall (fun b => List.length b = 3%nat) blocks).
    { clear Hj. induction HF; constructor; trivial.
      eapply trackBlock_length; eauto. }
    destruct (Forall2_nth_left _ _ _ _ _ HF Hj) as (b & Hb & Hblock).
    pose proof Hblock as Hblock'. unfold trackBlock in Hblock'.
    destruct (findEntry st d t) as [ce|]; [|discriminate].
    exists ce. split; [reflexivity|].
    destruct (futureStreams st D idx t 1) as [f1|] eqn:H1; [|discriminate].
    destruct (futureStreams st D idx t 2) as [f2|] eqn:H2; [|discriminate].
    destruct (futureStreams st D idx t 3) as [f3|] eqn:H3; [|discriminate].
    injection Hblock' as <-.
    intros k Hk.
    assert (Hc : (k = 1 \/ k = 2 \/ k = 3)%nat) by lia.
    destruct Hc as [->|[->| ->]].
    + destruct (futureStreams_Some _ _ _ _ _ _ H1) as (fd & fe & Hg & Hf & <-).
      exists fd, fe. repeat split; trivial.
      now rewrite (concat_blocks_nth blocks j (1 - 1) _ Hlen Hb) by lia.
    + destruct (futureStreams_Some _ _ _ _ _ _ H2) as (fd & fe & Hg & Hf & <-).
      exists fd, fe. repeat split; trivial.
      now rewrite (concat_blocks_nth blocks j (2 - 1) _ Hlen Hb) by lia.
    + destruct (futureStreams_Some _ _ _ _ _ _ H3) as (fd & fe & Hg & Hf & <-).
      exists fd, fe. repeat split; trivial.
      now rewrite (concat_blocks_nth blocks j (3 - 1) _ Hlen Hb) by lia.
  - unfold createTarget. fold D idx. rewrite trackLoop_None.
    split; intros (t & Hin & H); exists t; (split; [exact Hin|]);
      now apply trackBlock_None.
  - intros Hnone acc i Hi. unfold windowStep.
    rewrite Hi, createSample_total, Hnone. reflexivity.
  - intros Hnd accepted. pose proof (slidingWindows_targets st Hnd) as Hmap.
    fold D in Hmap. rewrite candidates_seq in Hmap. fold accepted in Hmap.
    split; [exact Hmap|].
    intros p target Hp.
    assert (Hq : nth_error (map Some (snd (slidingWindows st))) p
                 = Some (Some target)) by now rewrite nth_error_map, Hp.
    rewrite Hmap, nth_error_map in Hq.
    destruct (nth_error accepted p) as [i|]; [|discriminate].
    injection Hq as Hq. unfold targetAt in Hq.
    destruct (nth_error D i) as [currentDate|] eqn:Hi; [|discriminate].
    now exists i, currentDate.
Qed.

End WindowBuilder.

(** ** Concrete runs of the window builder *)

Ltac distinct_strings :=
  repeat (constructor; [simpl; intuition discriminate|]); constructor.

Section WindowBuilderRuns.

Import DataLoader Spec Fixtures.

Local Open Scope string_scope.

Lemma loaded11_dates_NoDup : NoDup (dates loaded11).
Proof. vm_compute. distinct_strings. Defined.

Lemma createSlidingWindows_shapes_witness :
  exists out samples,
    createSlidingWindows loaded12 = Some out
    /\ X_test out = Some samples
    /\ List.length samples = 1%nat
    /\ Forall (sampleShape loaded12) samples.
Proof.
  do 2 eexists. split; [vm_compute; reflexivity|].
  split; [reflexivity|]. split; [reflexivity|].
  destruct (createSlidingWindows_shapes loaded12) as (Hx & _).
  eapply Hx; [vm_compute; reflexivity|right; reflexivity].
Defined.

Lemma slidingWindows_candidates_witness :
  NoDup (dates loaded11)
  /\ List.length (fst (slidingWindows loaded11)) = 1%nat
  /\ List.length
       (fst (slidingWindows (removeObservation "2024-01-10" "B" loaded11)))
     = 0%nat.
Proof.
  split; [exact loaded11_dates_NoDup|].
  destruct (slidingWindows_candidates loaded11 loaded11_dates_NoDup)
    as (_ & _ & _ & _ & H11 & _).
  destruct H11 as (_ & Hone & Hzero); [vm_compute; reflexivity|].
  split.
  - apply Hone. vm_compute. reflexivity.
  - apply (Hzero "B" 2%nat "2024-01-10").
    + vm_compute. right. left. reflexivity.
    + lia.
    + vm_compute. reflexivity.
Defined.

(** The whole pipeline on the eleven dates: the loop accepts one window,
    and none when the text lacks the row of track B two dates after the
    candidate date; a single window leaves the training part empty, on which
    the split throws.  On the twelve dates the loop accepts two windows, one
    for the training part and one for the test part. *)
Example createSlidingWindows_eleven_dates :
  List.length (fst (slidingWindows (normalizeFeatures loaded11))) = 1%nat
  /\ snd (slidingWindows (normalizeFeatures loaded11)) = [[1; 1; 1; 0; 0; 1]]
  /\ createSlidingWindows loaded11 = None
  /\ List.length (dates (load csv11gap)) = 11%nat
  /\ slidingWindows (normalizeFeatures (load csv11gap)) = ([], [])
  /\ createSlidingWindows (load csv11gap) = None
  /\ option_map y_train (createSlidingWindows loaded12)
     = Some (Some [[1; 1; 1; 0; 0; 1]])
  /\ option_map y_test (createSlidingWindows loaded12)
     = Some (Some [[0; 0; 1; 0; 1; 1]]).
Proof. repeat split; vm_compute; reflexivity. Qed.

Lemma createTarget_labels_witness :
  createTarget loaded11 "2024-01-08" = Some [1; 1; 1; 0; 0; 1]
  /\ (exists ce,
         findEntry loaded11 "2024-01-08" "B" = Some ce
         /\ forall k, (1 <= k <= 3)%nat ->
            exists fd fe,
              JS.get (JS.sort (dates loaded11))
                (JS.indexOf "2024-01-08" (JS.sort (dates loaded11)) + Z.of_nat k)
              = Some fd
              /\ findEntry loaded11 fd "B" = Some fe
              /\ nth_error [1; 1; 1; 0; 0; 1] (3 * 1 + (k - 1))
                 = Some (label (streams ce) (streams fe)))
  /\ nth_error (snd (slidingWindows loaded11)) 0 = Some [1; 1; 1; 0; 0; 1]
  /\ exists i currentDate,
       nth_error
         (filter (fullyObserved loaded11 (JS.sort (dates loaded11)))
            (seq 7 (List.length (JS.sort (dates loaded11)) - 10))) 0
       = Some i
       /\ nth_error (JS.sort (dates loaded11)) i = Some currentDate
       /\ createTarget loaded11 currentDate = Some [1; 1; 1; 0; 0; 1].
Proof.
  assert (Ht : createTarget loaded11 "2024-01-08" = Some [1; 1; 1; 0; 0; 1])
    by (vm_compute; reflexivity).
  assert (Hw : nth_error (snd (slidingWindows loaded11)) 0
               = Some [1; 1; 1; 0; 0; 1]) by (vm_compute; reflexivity).
  destruct (createTarget_labels loaded11 "2024-01-08")
    as (H & _ & _ & _ & Hstored).
  split; [exact Ht|]. split.
  - destruct (H _ Ht) as (_ & Hj).
    apply (Hj 1%nat "B"). vm_compute. reflexivity.
  - split; [exact Hw|].
    destruct (Hstored loaded11_dates_NoDup) as (_ & Hp).
    exact (Hp 0%nat _ Hw).
Defined.

End WindowBuilderRuns.

(** ** The normalizer *)

Lemma ltb_leb (x y : string) : String.ltb x y = true -> String.leb x y = true.
Proof.
  unfold String.ltb, String.leb. now destruct (String.compare x y).
Qed.

Lemma ltb_neq (x y : string) : String.ltb x y = true -> x <> y.
Proof.
  unfold String.ltb. intros H ->.
  pose proof (String.compare_antisym y y) as Hanti.
  destruct (String.compare y y); discriminate.
Qed.

Lemma insert_app_last (a x : string) (s : list string) :
  String.leb a x = true ->
  JS.insert String.leb a (s ++ [x]) = JS.insert String.leb a s ++ [x].
Proof.
  intro Hax. induction s as [|y s IH]; simpl.
  - now rewrite Hax.
  - destruct (String.leb a y); [reflexivity|]. now rewrite IH.
Qed.

(** A date later than all the others sorts last. *)
Lemma sort_app_last (x : string) (l : list string) :
  Spec.laterThanAll x l -> JS.sort (l ++ [x]) = JS.sort l ++ [x].
Proof.
  unfold Spec.laterThanAll, JS.sort. induction 1 as [|a l Ha _ IH]; simpl.
  - reflexivity.
  - rewrite IH. apply insert_app_last. now apply ltb_leb.
Qed.

Lemma sort_length (l : list string) : List.length (JS.sort l) = List.length l.
Proof. apply sortBy_length. Qed.

Lemma includes_In (x : string) (l : list string) :
  JS.includes x l = true <-> In x l.
Proof.
  unfold JS.includes. rewrite existsb_exists. split.
  - intros (y & Hin & Heq). apply String.eqb_eq in Heq. now subst.
  - intro Hin. exists x. split; [exact Hin|apply String.eqb_refl].
Qed.

Lemma laterThanAll_not_In (x : string) (l : list string) :
  Spec.laterThanAll x l -> ~ In x l.
Proof.
  intros H Hin. unfold Spec.laterThanAll in H. rewrite Forall_forall in H.
  now apply (ltb_neq x x (H x Hin)).
Qed.

Lemma floor08_le (n : nat) : (JS.floor08 n <= n)%nat.
Proof.
  unfold JS.floor08. apply Nat.Div0.div_le_upper_bound. lia.
Qed.

Lemma filter_filter_and {A : Type} (f g : A -> bool) (l : list A) :
  filter (fun x => f x && g x) (filter g l) = filter (fun x => f x && g x) l.
Proof.
  induction l as [|x l IH]; simpl.
  - reflexivity.
  - destruct (g x) eqn:Hg; simpl.
    + rewrite Hg, IH. reflexivity.
    + rewrite andb_false_r. exact IH.
Qed.

Lemma fold_left_ext_in {A B : Type} (f g : A -> B -> A) (l : list B) (a : A) :
  (forall a' b, In b l -> f a' b = g a' b) ->
  fold_left f l a = fold_left g l a.
Proof.
  revert a. induction l as [|b l IH]; intros a H; simpl.
  - reflexivity.
  - rewrite H by now left. apply IH. intros a' b' Hb'. apply H. now right.
Qed.

Section Normalizer.

Import DataLoader Spec.

(** The parameters depend on the loader through the rows of the train
    period, the dates and the selected tracks only. *)
Lemma fitParams_ext (st st' : Loader) :
  selectedTracks st' = selectedTracks st ->
  trainingDatesOf st' = trainingDatesOf st ->
  (forall t, trainingRows (trainingDatesOf st) t (data st')
             = trainingRows (trainingDatesOf st) t (data st)) ->
  fitParams st' = fitParams st.
Proof.
  intros Hsel Htd Hrows. unfold fitParams. rewrite Hsel, Htd.
  apply fold_left_ext_in. intros m t _. unfold fitTrack. now rewrite Hrows.
Qed.

Lemma fitParams_trainRowsOnly (st : Loader) :
  fitParams (trainRowsOnly st) = fitParams st.
Proof.
  apply fitParams_ext; try reflexivity.
  intro t. unfold trainRowsOnly, trainingRows, setData. simpl.
  apply (filter_filter_and
           (fun e => String.eqb (track_id e) t)
           (fun e => JS.includes (date e) (trainingDatesOf st))).
Qed.

Lemma trainingDatesOf_appendRow (st : Loader) (entry : Entry) :
  laterThanAll (date entry) (dates st) ->
  JS.floor08 (S (List.length (dates st))) = JS.floor08 (List.length (dates st)) ->
  trainingDatesOf (appendRow st entry) = trainingDatesOf st.
Proof.
  intros Hlater Hcut. unfold trainingDatesOf, appendRow. cbn [dates].
  unfold JS.setAdd.
  destruct (JS.includes (date entry) (dates st)) eqn:Hin.
  { apply includes_In in Hin. now apply laterThanAll_not_In in Hlater. }
  rewrite (sort_app_last _ _ Hlater), length_app, !sort_length.
  cbn [List.length]. rewrite Nat.add_1_r, Hcut. unfold JS.slice.
  rewrite !skipn_O, !Nat.sub_0_r, firstn_app, sort_length.
  pose proof (floor08_le (List.length (dates st))) as Hle.
  replace (JS.floor08 (List.length (dates st)) - List.length (dates st))%nat
    with 0%nat by lia.
  cbn [firstn]. now rewrite app_nil_r.
Qed.

Lemma trainingDatesOf_subset (st : Loader) (d : string) :
  In d (trainingDatesOf st) -> In d (dates st).
Proof.
  unfold trainingDatesOf, JS.slice. intro H.
  apply (Permutation_in _ (sortBy_perm String.leb (dates st))).
  rewrite skipn_O in H.
  rewrite <- (firstn_skipn (JS.floor08 (List.length (JS.sort (dates st))) - 0)
                (JS.sortBy String.leb (dates st))).
  apply in_or_app. now left.
Qed.

(** One more row of a later date changes no parameter as long as the
    number of dates of the train period stays what it was. *)
Lemma fitParams_appendRow (st : Loader) (entry : Entry) :
  laterThanAll (date entry) (dates st) ->
  JS.floor08 (S (List.length (dates st))) = JS.floor08 (List.length (dates st)) ->
  fitParams (appendRow st entry) = fitParams st.
Proof.
  intros Hlater Hcut.
  apply fitParams_ext.
  - reflexivity.
  - now apply trainingDatesOf_appendRow.
  - intro t. unfold trainingRows, appendRow. simpl.
    rewrite filter_app. simpl.
    destruct (JS.includes (date entry) (trainingDatesOf st)) eqn:Hin.
    + apply includes_In, trainingDatesOf_subset in Hin.
      now apply laterThanAll_not_In in Hlater.
    + rewrite andb_false_r. apply app_nil_r.
Qed.

(** C3, as amended.  The parameters are fitted on the rows whose date is
    among the first [floor (0.8 * n)] of the [n] sorted distinct dates:
    dropping every other row changes no parameter; and after one more row
    whose date is later than every known date the fit gives the same
    parameters whenever the number of dates of the train period is the same
    for [n + 1] dates as for [n]. *)
Theorem normalizeFeatures_train_period (st : Loader) (entry : Entry) :
  trainingDatesOf st
  = firstn (4 * List.length (dates st) / 5) (JS.sort (dates st))
  /\ normalizationParams (normalizeFeatures (trainRowsOnly st))
     = normalizationParams (normalizeFeatures st)
  /\ (laterThanAll (date entry) (dates st) ->
      JS.floor08 (S (List.length (dates st)))
      = JS.floor08 (List.length (dates st)) ->
      normalizationParams (normalizeFeatures (appendRow st entry))
      = normalizationParams (normalizeFeatures st)).
Proof.
  split; [|split].
  - unfold trainingDatesOf, JS.slice, JS.floor08.
    now rewrite skipn_O, Nat.sub_0_r, sort_length.
  - apply fitParams_trainRowsOnly.
  - apply fitParams_appendRow.
Qed.

End Normalizer.

Section NormalizerRuns.

Import DataLoader Spec Fixtures.

Local Open Scope string_scope.

Lemma normalizeFeatures_train_period_witness :
  laterThanAll (date row6) (dates (load csv5))
  /\ JS.floor08 (S (List.length (dates (load csv5))))
     = JS.floor08 (List.length (dates (load csv5)))
  /\ normalizationParams (normalizeFeatures (appendRow (load csv5) row6))
     = normalizationParams (normalizeFeatures (load csv5)).
Proof.
  assert (Hlater : laterThanAll (date row6) (dates (load csv5)))
    by (vm_compute; repeat constructor).
  assert (Hcut : JS.floor08 (S (List.length (dates (load csv5))))
                 = JS.floor08 (List.length (dates (load csv5))))
    by (vm_compute; reflexivity).
  split; [exact Hlater|split; [exact Hcut|]].
  destruct (normalizeFeatures_train_period (load csv5) row6) as (_ & _ & H).
  exact (H Hlater Hcut).
Defined.

(** C3, as stated, fails: with four dates the train period is the first
    three; the appended row of a fifth date makes it the first four, and the
    fourth date, held out before, now sets the maximum of the streams. *)
Lemma normalizeFeatures_append_changes_params :
  csv4plus = lines [csv4; "2024-01-05,A,5,0.5,0.7"]
  /\ laterThanAll "2024-01-05" (dates (load csv4))
  /\ option_map p_streams
       (JS.mapGet "A" (normalizationParams (normalizeFeatures (load csv4))))
     = Some (mkMinMax 1 3)
  /\ option_map p_streams
       (JS.mapGet "A" (normalizationParams (normalizeFeatures (load csv4plus))))
     = Some (mkMinMax 1 100)
  /\ normalizationParams (normalizeFeatures (load csv4plus))
     <> normalizationParams (normalizeFeatures (load csv4)).
Proof.
  split; [reflexivity|]. split; [vm_compute; repeat constructor|].
  split; [vm_compute; reflexivity|]. split; [vm_compute; reflexivity|].
  vm_compute. discriminate.
Qed.

End NormalizerRuns.

(** ** Min-max normalization *)

Lemma gtb_true_iff (x y : Q) : JS.gtb x y = true <-> y < x.
Proof.
  unfold JS.gtb. rewrite negb_true_iff. split.
  - intro H. apply Qnot_le_lt. intro Hle. apply Qle_bool_iff in Hle. congruence.
  - intro H. apply not_true_is_false. intro Hle. apply Qle_bool_iff in Hle.
    now apply (Qlt_not_le y x).
Qed.

Lemma mapGet_mapSet_same {V : Type} (k : string) (v : V) (m : list (string * V)) :
  JS.mapGet k (JS.mapSet k v m) = Some v.
Proof.
  induction m as [|[k' v'] m IH]; simpl.
  - now rewrite String.eqb_refl.
  - destruct (String.eqb k k') eqn:Hk; simpl; now rewrite Hk.
Qed.

Lemma mapGet_mapSet_other {V : Type} (k k0 : string) (v : V)
    (m : list (string * V)) :
  k <> k0 -> JS.mapGet k (JS.mapSet k0 v m) = JS.mapGet k m.
Proof.
  intro Hne. induction m as [|[k' v'] m IH]; simpl.
  - destruct (String.eqb_spec k k0); [contradiction|reflexivity].
  - destruct (String.eqb_spec k0 k') as [->|Hk0]; simpl.
    + destruct (String.eqb_spec k k'); [contradiction|reflexivity].
    + now rewrite IH.
Qed.

(** A map filled by one [set] per key of [l] holds, at a key of [l], the
    value set for it. *)
Lemma mapGet_fold_mapSet {V : Type} (g : string -> V) (l : list string)
    (m : list (string * V)) (k : string) :
  In k l ->
  JS.mapGet k (fold_left (fun m t => JS.mapSet t (g t) m) l m) = Some (g k).
Proof.
  revert m. induction l as [|t l IH]; intros m Hin; [contradiction|].
  simpl. destruct (in_dec string_dec k l) as [Hl|Hl].
  - now apply IH.
  - destruct Hin as [->|Hin]; [|contradiction].
    clear IH. generalize (JS.mapSet k (g k) m), (mapGet_mapSet_same k (g k) m).
    induction l as [|t l IH]; intros m' Hm'; simpl.
    + exact Hm'.
    + apply IH.
      * intro H. apply Hl. now right.
      * rewrite mapGet_mapSet_other; [exact Hm'|].
        intros ->. apply Hl. now left.
Qed.

Section MinMax.

Import DataLoader Spec.

Lemma fitParams_selected (st : Loader) (t : string) :
  In t (selectedTracks st) ->
  JS.mapGet t (normalizationParams (normalizeFeatures st))
  = Some (fitTrack st (trainingDatesOf st) t).
Proof.
  intro Hin. simpl. unfold fitParams.
  now apply (mapGet_fold_mapSet (fitTrack st (trainingDatesOf st))).
Qed.

Lemma paramOf_fitTrack (st : Loader) (td : list string) (t : string)
    (f : Feature) :
  paramOf f (fitTrack st td t) = fitFeature (trainingRows td t (data st)) f.
Proof. now destruct f. Qed.

(** C7.  With [max > min] the minimum normalizes to 0 and the maximum
    to 1; with [max = min] every value normalizes to 1/2; a selected track
    without a defined value of a feature in the train period gets the
    parameters {min: 0, max: 1} for that feature; a row whose track has no
    parameters gets 1/2 in each of its five normalized features. *)
Theorem minMaxNormalize_cases (p : MinMax) (v : Q) (st : Loader)
    (t : string) (f : Feature) (np : list (string * Params)) (e : Entry) :
  (min p < max p ->
   minMaxNormalize (min p) (Some p) == 0
   /\ minMaxNormalize (max p) (Some p) == 1)
  /\ (max p == min p -> minMaxNormalize v (Some p) = 1 # 2)
  /\ (In t (selectedTracks st) ->
      definedValues f (trainingRows (trainingDatesOf st) t (data st)) = [] ->
      exists params,
        JS.mapGet t (normalizationParams (normalizeFeatures st)) = Some params
        /\ paramOf f params = mkMinMax 0 1)
  /\ (JS.mapGet (track_id e) np = None ->
      let e' := normalizeEntry np e in
      streams_normalized e' = Some (1 # 2)
      /\ danceability_normalized e' = Some (1 # 2)
      /\ energy_normalized e' = Some (1 # 2)
      /\ streams_momentum_normalized e' = Some (1 # 2)
      /\ streams_ma3_normalized e' = Some (1 # 2)).
Proof.
  split; [|split; [|split]].
  - intro Hlt. unfold minMaxNormalize.
    rewrite (proj2 (gtb_true_iff (max p) (min p)) Hlt).
    assert (Hnz : ~ max p - min p == 0).
    { intro H. apply (Qlt_irrefl (min p)).
      setoid_replace (min p) with (max p) at 2; [exact Hlt|].
      setoid_replace (max p) with (max p - min p + min p) by ring.
      rewrite H. ring. }
    split; [unfold Qdiv; ring|now field].
  - intro Heq. unfold minMaxNormalize.
    destruct (JS.gtb (max p) (min p)) eqn:Hgt; [|reflexivity].
    apply gtb_true_iff in Hgt. rewrite Heq in Hgt.
    now apply Qlt_irrefl in Hgt.
  - intros Hin Hnone. eexists. split; [now apply fitParams_selected|].
    rewrite paramOf_fitTrack. unfold fitFeature. now rewrite Hnone.
  - intros Hnone e'. subst e'. unfold normalizeEntry. rewrite Hnone.
    simpl. repeat split.
Qed.

End MinMax.

Section MinMaxRuns.

Import DataLoader Spec Fixtures.

Local Open Scope string_scope.

Lemma minMaxNormalize_cases_witness :
  (minMaxNormalize 100 (Some (mkMinMax 100 170)) == 0
   /\ minMaxNormalize 170 (Some (mkMinMax 100 170)) == 1)
  /\ minMaxNormalize 42 (Some (mkMinMax (1 # 2) (2 # 4))) = 1 # 2
  /\ (exists params,
         JS.mapGet "B" (normalizationParams (normalizeFeatures (load csvLate)))
         = Some params
         /\ paramOf F_streams params = mkMinMax 0 1)
  /\ streams_normalized (normalizeEntry (fitParams (load csvLate)) strayRow)
     = Some (1 # 2).
Proof.
  destruct (minMaxNormalize_cases (mkMinMax 100 170) 0 (load csvLate) "B"
              F_streams (fitParams (load csvLate)) strayRow)
    as (Hrange & _ & Hfallback & Hstray).
  destruct (minMaxNormalize_cases (mkMinMax (1 # 2) (2 # 4)) 42 (load csvLate)
              "B" F_streams (fitParams (load csvLate)) strayRow)
    as (_ & Hflat & _ & _).
  split; [|split; [|split]].
  - apply Hrange. reflexivity.
  - apply Hflat. reflexivity.
  - apply Hfallback.
    + vm_compute. left. reflexivity.
    + vm_compute. reflexivity.
  - apply Hstray. vm_compute. reflexivity.
Defined.

End MinMaxRuns.

(** ** Track selection *)

Lemma StronglySorted_weaken {A : Type} (R R' : A -> A -> Prop) (l : list A) :
  (forall a b, R a b -> R' a b) -> StronglySorted R l -> StronglySorted R' l.
Proof.
  intro Himp. induction 1 as [|x l Hl IH Hx]; constructor; trivial.
  eapply Forall_impl; [|exact Hx]. intros y. apply Himp.
Qed.

Section StableSort.

Context {A : Type}.
Variable le : A -> A -> bool.
Hypothesis le_total : forall x y, le x y = false -> le y x = true.
Hypothesis le_trans :
  forall x y z, le x y = true -> le y z = true -> le x z = true.

Local Abbreviation R := (fun x y : A => le x y = true).

Lemma insert_sorted (x : A) (l : list A) :
  StronglySorted R l -> StronglySorted R (JS.insert le x l).
Proof.
  induction 1 as [|y l Hl IH Hy]; simpl.
  - repeat constructor.
  - destruct (le x y) eqn:Hxy.
    + constructor; [now constructor|]. constructor; [exact Hxy|].
      eapply Forall_impl; [|exact Hy]. intros z Hz. now apply (le_trans x y z).
    + constructor; [exact IH|].
      eapply Permutation_Forall; [symmetry; apply insert_perm|].
      constructor; [now apply le_total|exact Hy].
Qed.

Lemma sortBy_sorted (l : list A) : StronglySorted R (JS.sortBy le l).
Proof.
  induction l as [|x l IH]; simpl; [constructor|now apply insert_sorted].
Qed.

(** Stability: an element is moved only past elements that the order
    puts strictly before it, so the elements [p] selects keep their order
    when [p] does not tell apart what the order does not. *)
Variable p : A -> bool.
Hypothesis p_strict : forall x y, le x y = false -> p x = true -> p y = false.

Lemma insert_stable (x : A) (l : list A) :
  filter p (JS.insert le x l) = filter p (x :: l).
Proof.
  induction l as [|y l IH]; simpl in *.
  - reflexivity.
  - destruct (le x y) eqn:Hxy; simpl.
    + reflexivity.
    + rewrite IH. destruct (p x) eqn:Hpx; [|reflexivity].
      now rewrite (p_strict x y Hxy Hpx).
Qed.

Lemma sortBy_stable (l : list A) : filter p (JS.sortBy le l) = filter p l.
Proof.
  induction l as [|x l IH]; simpl.
  - reflexivity.
  - rewrite insert_stable. simpl. now rewrite IH.
Qed.

End StableSort.

Lemma mapKeys_mapSet {V : Type} (k : string) (v : V) (m : list (string * V)) :
  JS.mapKeys (JS.mapSet k v m) = JS.setAdd k (JS.mapKeys m).
Proof.
  unfold JS.mapKeys, JS.setAdd, JS.includes.
  induction m as [|[k' v'] m IH]; simpl.
  - reflexivity.
  - destruct (String.eqb k k'); simpl; [reflexivity|].
    rewrite IH. now destruct (existsb (String.eqb k) (map fst m)).
Qed.

Lemma orElse_zero (v : Q) : JS.orElse (Some v) 0 == v.
Proof.
  simpl. destruct (Qeq_bool v 0) eqn:H; [|reflexivity].
  apply Qeq_bool_iff in H. now rewrite H.
Qed.

Section Selection.

Import DataLoader Spec.

Lemma tally_keys (d : list Entry) (m : list (string * Q)) :
  JS.mapKeys (fold_left tally d m)
  = fold_left (fun s x => JS.setAdd x s) (map track_id d) (JS.mapKeys m).
Proof.
  revert m. induction d as [|e d IH]; intro m; simpl.
  - reflexivity.
  - rewrite IH. unfold tally. now rewrite mapKeys_mapSet.
Qed.

Lemma tally_total (t : string) (d : list Entry) (m : list (string * Q)) :
  JS.orElse (JS.mapGet t (fold_left tally d m)) 0
  == JS.orElse (JS.mapGet t m) 0 + totalOf t d.
Proof.
  revert m. induction d as [|e d IH]; intro m.
  - unfold totalOf. simpl. ring.
  - cbn [fold_left]. rewrite IH. unfold totalOf. cbn [filter].
    unfold tally at 1.
    destruct (String.eqb_spec (track_id e) t) as [<-|Hne].
    + rewrite mapGet_mapSet_same, orElse_zero.
      cbn [map fold_right]. ring.
    + rewrite mapGet_mapSet_other by congruence. reflexivity.
Qed.

Lemma Qle_bool_false (x y : Q) : Qle_bool x y = false <-> y < x.
Proof.
  split; intro H.
  - apply Qnot_le_lt. intro Hle. apply Qle_bool_iff in Hle. congruence.
  - apply not_true_is_false. intro Hle. apply Qle_bool_iff in Hle. lra.
Qed.

Lemma descending_total (a b : string * Q) :
  Qle_bool (snd b - snd a) 0 = false -> Qle_bool (snd a - snd b) 0 = true.
Proof.
  rewrite Qle_bool_false, Qle_bool_iff. lra.
Qed.

Lemma descending_iff (a b : string * Q) :
  Qle_bool (snd b - snd a) 0 = true <-> snd b <= snd a.
Proof.
  rewrite Qle_bool_iff. split; lra.
Qed.

Lemma descending_trans (a b c : string * Q) :
  Qle_bool (snd b - snd a) 0 = true -> Qle_bool (snd c - snd b) 0 = true ->
  Qle_bool (snd c - snd a) 0 = true.
Proof.
  rewrite !descending_iff. lra.
Qed.

Lemma descending_strict (v : Q) (a b : string * Q) :
  Qle_bool (snd b - snd a) 0 = false ->
  Qeq_bool (snd a) v = true -> Qeq_bool (snd b) v = false.
Proof.
  intros Hlt Ha. apply not_true_is_false. intro Hb.
  apply Qeq_bool_iff in Ha, Hb.
  assert (Hle : Qle_bool (snd b - snd a) 0 = true).
  { apply descending_iff. lra. }
  congruence.
Qed.

(** C8.  The totals map lists the tracks in the order of their first
    row, each with the sum of the streams of its rows; the ranking is a
    permutation of it, in descending order of the totals, in which tracks of
    equal total keep their first-encountered order; the selected tracks are
    the first [n] of the ranking; with the totals A: 100, B: 50, C: 200 and
    [n = 2] they are C, A in that order. *)
Theorem selectTopTracks_ranking (n : nat) (st : Loader) :
  let totals := trackStreamsOf (data st) in
  let ranked := JS.sortWith (fun a b => snd b - snd a) totals in
  JS.mapKeys totals = firstSeen (map track_id (data st))
  /\ (forall t v, JS.mapGet t totals = Some v -> v == totalOf t (data st))
  /\ Permutation ranked totals
  /\ StronglySorted (fun a b => snd b <= snd a) ranked
  /\ (forall v, withTotal v ranked = withTotal v totals)
  /\ selectedTracks (selectTopTracks n st) = firstn n (map fst ranked)
  /\ map (fun t => (t, totalOf t Fixtures.abcRows))
       (firstSeen (map track_id Fixtures.abcRows))
     = [("A"%string, 100); ("B"%string, 50); ("C"%string, 200)]
  /\ selectedTracks (selectTopTracks 2 (setData constructor Fixtures.abcRows))
     = ["C"%string; "A"%string].
Proof.
  intros totals ranked.
  split; [|split; [|split; [|split; [|split; [|split; [|split]]]]]].
  - unfold totals, trackStreamsOf. now rewrite tally_keys.
  - intros t v Hv. pose proof (tally_total t (data st) []) as H.
    fold (trackStreamsOf (data st)) in H. fold totals in H.
    rewrite Hv, orElse_zero in H. simpl in H. lra.
  - apply sortBy_perm.
  - unfold ranked, JS.sortWith.
    eapply StronglySorted_weaken; [|apply sortBy_sorted].
    + intros a b H. cbv beta in H. now apply descending_iff.
    + intros a b. apply descending_total.
    + intros a b c. apply descending_trans.
  - intro v. unfold withTotal, ranked, JS.sortWith.
    apply sortBy_stable. intros a b. apply descending_strict.
  - unfold selectTopTracks, sortedTracksOf, JS.slice. cbn [selectedTracks].
    now rewrite skipn_O, Nat.sub_0_r, firstn_map.
  - reflexivity.
  - reflexivity.
Qed.

(** Tracks of equal total keep their first-encountered order: A and B
    tie at 100 behind C. *)
Example selectTopTracks_tie :
  selectedTracks (selectTopTracks 3 (setData constructor Fixtures.tieRows))
  = ["C"%string; "A"%string; "B"%string].
Proof. reflexivity. Qed.

Lemma selectTopTracks_ranking_witness :
  exists v,
    JS.mapGet "A"%string (trackStreamsOf Fixtures.abcRows) = Some v
    /\ v == totalOf "A"%string Fixtures.abcRows.
Proof.
  eexists. split; [reflexivity|].
  destruct (selectTopTracks_ranking 2 (setData constructor Fixtures.abcRows))
    as (_ & H & _).
  apply (H "A"%string). reflexivity.
Defined.

End Selection.

(** ** Consistent accuracy *)

Section ConsistentAccuracy.

Import Spec.

Lemma ofBool_eq (a b : bool) :
  Qeq_bool (TF.ofBool a) (TF.ofBool b) = Bool.eqb a b.
Proof. now destruct a, b. Qed.

Lemma inject_S (n : nat) :
  inject_Z (Z.of_nat (S n)) == 1 + inject_Z (Z.of_nat n).
Proof.
  rewrite Nat2Z.inj_succ. unfold Z.succ. rewrite inject_Z_plus. simpl. ring.
Qed.

(** The sum of the element-wise equality of the two thresholded tensors
    counts the entries at which they agree. *)
Lemma sum_equal_greater (c : Q) (vp vy : list Q) :
  fold_right Qplus 0
    (map (fun vw => TF.ofBool (Qeq_bool (fst vw) (snd vw)))
       (combine (map (fun v => TF.ofBool (JS.gtb v c)) vp)
          (map (fun v => TF.ofBool (JS.gtb v c)) vy)))
  == inject_Z
       (Z.of_nat
          (List.length
             (filter (fun vw => Bool.eqb (JS.gtb (fst vw) c) (JS.gtb (snd vw) c))
                (combine vp vy)))).
Proof.
  revert vy. induction vp as [|v vp IH]; intros [|w vy]; try reflexivity.
  cbn [map combine fold_right filter fst snd]. rewrite IH, ofBool_eq.
  destruct (Bool.eqb (JS.gtb v c) (JS.gtb w c)).
  - cbn [List.length]. rewrite inject_S. reflexivity.
  - simpl TF.ofBool. ring.
Qed.

(** C5.  The accuracy is the number of entries at which prediction and
    ground truth agree once both are thresholded at 1/2, divided by the
    product of the two dimensions of the shape of the ground truth, times
    100; the predictions [[0.6, 0.4], [0.3, 0.7]] against [[1, 0], [0, 1]]
    agree at 4 entries of 2 x 2 and give 100. *)
Theorem computeConsistentAccuracy_formula (predictions y_true : TF.Tensor) :
  let rows := nth 0 (TF.shape y_true) 0%nat in
  let cols := nth 1 (TF.shape y_true) 0%nat in
  ((rows * cols)%nat <> 0%nat ->
   exists accuracy,
     GRUModel.computeConsistentAccuracy predictions y_true = Some accuracy
     /\ accuracy
        == inject_Z (Z.of_nat (matches predictions y_true))
           / inject_Z (Z.of_nat (rows * cols)) * 100)
  /\ (exists accuracy,
         GRUModel.computeConsistentAccuracy Fixtures.predictions22
           Fixtures.truth22 = Some accuracy
         /\ matches Fixtures.predictions22 Fixtures.truth22 = 4%nat
         /\ TF.shape Fixtures.truth22 = [2%nat; 2%nat]
         /\ accuracy == 100).
Proof.
  intros rows cols. split.
  - intro Hnz. unfold GRUModel.computeConsistentAccuracy. fold rows cols.
    destruct (Nat.eqb_spec (rows * cols) 0) as [|_]; [contradiction|].
    eexists. split; [reflexivity|].
    unfold TF.sum, TF.equal, TF.greater, matches. cbn [TF.values].
    now rewrite sum_equal_greater.
  - eexists. split; [reflexivity|]. repeat split.
Qed.

Lemma computeConsistentAccuracy_formula_witness :
  exists accuracy,
    GRUModel.computeConsistentAccuracy Fixtures.predictions22 Fixtures.truth22
    = Some accuracy
    /\ accuracy
       == inject_Z
            (Z.of_nat (matches Fixtures.predictions22 Fixtures.truth22))
          / inject_Z (Z.of_nat (2 * 2)) * 100.
Proof.
  destruct (computeConsistentAccuracy_formula Fixtures.predictions22
              Fixtures.truth22) as (H & _).
  apply H. discriminate.
Defined.

End ConsistentAccuracy.

(** ** Breakout detection *)

Section Breakout.

Import Spec MusicPopularityApp.

Lemma gt_Some (x c : Q) : gt (Some x) c = true <-> c < x.
Proof. apply gtb_true_iff. Qed.

Lemma gt_Some_false (x c : Q) : gt (Some x) c = false <-> x <= c.
Proof.
  simpl. unfold JS.gtb. rewrite negb_false_iff. apply Qle_bool_iff.
Qed.

(** The sum of a quantity that is [v] up to equality at every sample. *)
Lemma sumOver_const (f : list Q -> num) (v : Q) (predData : list (list Q))
    (a : Q) :
  Forall (fun row => exists x, f row = Some x /\ x == v) predData ->
  exists s,
    fold_left (fun acc row => lift2 Qplus acc (f row)) predData (Some a)
    = Some s
    /\ s == a + inject_Z (Z.of_nat (List.length predData)) * v.
Proof.
  intro H. revert a. induction H as [|row rows (x & Hx & Hxv) _ IH]; intro a.
  - exists a. split; [reflexivity|]. simpl. ring.
  - cbn [fold_left]. rewrite Hx. cbn [lift2].
    destruct (IH (a + x)) as (s & Hs & Hsv). exists s. split; [exact Hs|].
    rewrite Hsv, Hxv. cbn [List.length]. rewrite inject_S. ring.
Qed.

Lemma average_const (sum : Q) (n : nat) (v : Q) :
  n <> 0%nat -> sum == 0 + inject_Z (Z.of_nat n) * v ->
  exists a, average (Some sum) n = Some a /\ a == v.
Proof.
  intros Hn Hsum. unfold average.
  destruct (Nat.eqb_spec n 0) as [|_]; [contradiction|].
  eexists. split; [reflexivity|]. rewrite Hsum.
  assert (Hnz : ~ inject_Z (Z.of_nat n) == 0).
  { change 0 with (inject_Z 0). rewrite inject_Z_injective. lia. }
  now field.
Qed.

(** C6, as amended.  For a track whose day probabilities are
    (0.2, 0.5, 0.8) at every sample, the trend strength of each sample is
    (0.8 - 0.2) * 2 + (0.5 - 0.2) = 1.5 and its confidence
    (0.2 + 0.5 + 0.8) / 3 = 0.5; the detector reports the score 150, the
    confidence 50, the trend rising and, the confidence not exceeding 0.6,
    the risk level high. *)
Theorem detectBreakoutTracks_rising (predData : list (list Q))
    (track : DataLoader.Metadata) (trackIndex : nat) :
  predData <> [] ->
  Forall (fun row => dayProbs row trackIndex (2 # 10) (5 # 10) (8 # 10))
    predData ->
  Forall (fun row =>
            (exists s, trendStrength row trackIndex = Some s
                       /\ s == ((8 # 10) - (2 # 10)) * 2 + ((5 # 10) - (2 # 10))
                       /\ s == (15 # 10))
            /\ exists c, overallConfidence row trackIndex = Some c
                         /\ c == ((2 # 10) + (5 # 10) + (8 # 10)) / 3
                         /\ c == (5 # 10))
    predData
  /\ (exists s, breakoutScore (breakoutOf predData (track, trackIndex)) = Some s
                /\ s == 150)
  /\ (exists c, confidence (breakoutOf predData (track, trackIndex)) = Some c
                /\ c == 50)
  /\ trend (breakoutOf predData (track, trackIndex)) = "rising"%string
  /\ riskLevel (breakoutOf predData (track, trackIndex)) = "high"%string.
Proof.
  intros Hne Hrows.
  assert (Htrend : Forall (fun row => exists x,
                      trendStrength row trackIndex = Some x /\ x == (15 # 10))
                     predData).
  { eapply Forall_impl; [|exact Hrows]. intros row (H1 & H2 & H3).
    unfold trendStrength. rewrite H1, H2, H3. eexists. split; [reflexivity|].
    reflexivity. }
  assert (Hconf : Forall (fun row => exists x,
                     overallConfidence row trackIndex = Some x /\ x == (5 # 10))
                    predData).
  { eapply Forall_impl; [|exact Hrows]. intros row (H1 & H2 & H3).
    unfold overallConfidence. rewrite H1, H2, H3. eexists.
    split; [reflexivity|]. reflexivity. }
  assert (Hlen : List.length predData <> 0%nat) by now destruct predData.
  destruct (sumOver_const _ _ _ 0 Htrend) as (ss & Hss & Hssv).
  destruct (sumOver_const _ _ _ 0 Hconf) as (sc & Hsc & Hscv).
  destruct (average_const ss _ _ Hlen Hssv) as (a & Ha & Hav).
  destruct (average_const sc _ _ Hlen Hscv) as (c & Hc & Hcv).
  unfold breakoutOf. cbn [fst snd]. unfold sumOver.
  rewrite Hss, Hsc, Ha, Hc. cbn [breakoutScore confidence trend riskLevel lift2].
  split; [|split; [|split; [|split]]].
  - eapply Forall_impl; [|exact Hrows]. intros row (H1 & H2 & H3).
    unfold trendStrength, overallConfidence. rewrite H1, H2, H3. split.
    + eexists. split; [reflexivity|]. split; reflexivity.
    + eexists. split; [reflexivity|]. split; reflexivity.
  - eexists. split; [reflexivity|]. rewrite Hav. reflexivity.
  - eexists. split; [reflexivity|]. rewrite Hcv. reflexivity.
  - rewrite (proj2 (gt_Some a 0)); [reflexivity|]. rewrite Hav. reflexivity.
  - unfold calculateRiskLevel.
    rewrite (proj2 (gt_Some a (1 # 10))) by (rewrite Hav; reflexivity).
    rewrite (proj2 (gt_Some_false c (7 # 10))) by (rewrite Hcv; discriminate).
    rewrite (proj2 (gt_Some a (5 # 100))) by (rewrite Hav; reflexivity).
    rewrite (proj2 (gt_Some_false c (6 # 10))) by (rewrite Hcv; discriminate).
    rewrite (proj2 (gt_Some a 0)) by (rewrite Hav; reflexivity).
    reflexivity.
Qed.

End Breakout.

Section BreakoutRuns.

Import Spec MusicPopularityApp Fixtures.

Local Open Scope string_scope.

Lemma detectBreakoutTracks_rising_witness :
  TF.arraySync predictions13 <> []
  /\ Forall (fun row => dayProbs row 0 (2 # 10) (5 # 10) (8 # 10))
       (TF.arraySync predictions13)
  /\ riskLevel
       (breakoutOf (TF.arraySync predictions13)
          (DataLoader.mkMetadata "A" "A" (Some 100), 0%nat))
     = "high".
Proof.
  assert (Hne : TF.arraySync predictions13 <> []) by discriminate.
  assert (Hrows : Forall (fun row => dayProbs row 0 (2 # 10) (5 # 10) (8 # 10))
                    (TF.arraySync predictions13))
    by (repeat constructor).
  split; [exact Hne|split; [exact Hrows|]].
  destruct (detectBreakoutTracks_rising (TF.arraySync predictions13)
              (DataLoader.mkMetadata "A" "A" (Some 100)) 0 Hne Hrows)
    as (_ & _ & _ & _ & H).
  exact H.
Defined.

(** C6, as stated, fails: for the day probabilities (0.2, 0.5, 0.8) the
    detector gives the risk level high, not low, because the level low asks
    for a confidence above 0.7 and the confidence is 0.5. *)
Lemma detectBreakoutTracks_not_low :
  map riskLevel (detectBreakoutTracks predictions13 metadataA) = ["high"]
  /\ map riskLevel (detectBreakoutTracks predictions13 metadataA) <> ["low"]
  /\ calculateRiskLevel (Some (15 # 10)) (Some (5 # 10)) <> "low".
Proof.
  split; [reflexivity|]. split; vm_compute; discriminate.
Qed.

End BreakoutRuns.

(** ** The record store *)

Lemma setAdd_NoDup (x : string) (s : list string) :
  NoDup s -> NoDup (JS.setAdd x s).
Proof.
  intro H. unfold JS.setAdd. destruct (JS.includes x s) eqn:Hin; [exact H|].
  apply NoDup_app; [exact H|repeat constructor; intros []|].
  intros y Hy [<-|[]]. apply includes_In in Hy. congruence.
Qed.

Section RecordStore.

Import DataLoader Spec.

Variable parseFloat : string -> option Q.
Variable localeCompare : string -> string -> Q.

Lemma rowEntry_Some (c : Columns) (values : list string) (e : Entry) :
  rowEntry parseFloat c values = Some e ->
  (Z.of_nat (List.length values) >= maxIdx c)%Z
  /\ JS.get values (dateIdx c) = Some (date e)
  /\ JS.get values (trackIdx c) = Some (track_id e)
  /\ date e <> EmptyString /\ track_id e <> EmptyString.
Proof.
  unfold rowEntry.
  destruct (Z.geb_spec (Z.of_nat (List.length values)) (maxIdx c)) as [Hge|];
    [|discriminate].
  destruct (JS.get values (dateIdx c)) as [d|]; [|discriminate].
  destruct (JS.get values (trackIdx c)) as [t|]; [|discriminate].
  destruct t as [|ch t]; [discriminate|].
  destruct d as [|ch' d]; [discriminate|].
  simpl. intro H. injection H as <-. simpl.
  repeat split; try discriminate. lia.
Qed.

(** A row is stored only with a non-empty date and a non-empty track
    identifier. *)
Lemma ingest_retained_nonempty (st st' : Loader) (csvText : string) :
  ingest parseFloat st csvText = Some st' ->
  Forall (fun e => date e <> EmptyString /\ track_id e <> EmptyString)
    (data st').
Proof.
  unfold ingest.
  destruct (filter nonEmptyLine (JS.split JS.newline csvText))
    as [|header rows]; [discriminate|].
  intro H. injection H as <-.
  apply (fold_left_invariant
           (fun s => Forall (fun e => date e <> EmptyString
                                      /\ track_id e <> EmptyString) (data s))).
  - constructor.
  - intros s line _ Hs. unfold ingestLine.
    destruct (rowEntry parseFloat _ (parseCSVLine line)) as [e|] eqn:He;
      [|exact Hs].
    cbn [data]. apply Forall_app. split; [exact Hs|].
    constructor; [|constructor].
    now apply rowEntry_Some in He.
Qed.

(** The dates of the loader stay a set through [parseCSV]. *)
Lemma ingest_dates_NoDup (st st' : Loader) (csvText : string) :
  NoDup (dates st) -> ingest parseFloat st csvText = Some st' ->
  NoDup (dates st').
Proof.
  intro Hnd. unfold ingest.
  destruct (filter nonEmptyLine (JS.split JS.newline csvText))
    as [|header rows]; [discriminate|].
  intro H. injection H as <-.
  apply (fold_left_invariant (fun s => NoDup (dates s))).
  - exact Hnd.
  - intros s line _ Hs. unfold ingestLine.
    destruct (rowEntry parseFloat _ (parseCSVLine line)) as [e|]; [|exact Hs].
    cbn [dates]. now apply setAdd_NoDup.
Qed.

Lemma parseCSV_dates_NoDup (st st' : Loader) (csvText : string) :
  NoDup (dates st) -> parseCSV parseFloat localeCompare st csvText = Some st' ->
  NoDup (dates st').
Proof.
  intros Hnd. unfold parseCSV.
  destruct (ingest parseFloat st csvText) as [st1|] eqn:H1; [|discriminate].
  apply (ingest_dates_NoDup _ _ _ Hnd) in H1.
  unfold engineerFeatures.
  destruct (engineerLoop _ _) as [d|]; [|discriminate].
  intro H. injection H as <-. exact H1.
Qed.

Local Open Scope string_scope.

(** C9 at the failing input.  The header locates the five columns 0..4;
    the row with four values has no value at the energy column and is stored
    all the same, with the energy 0; only the row with three values is
    skipped. *)
Theorem parseCSV_short_row_retained :
  locateColumns (map cleanField (JS.split JS.comma Fixtures.headerRow))
  = mkColumns 0 1 2 3 4 (-1) (-1)
  /\ parseCSVLine Fixtures.shortRow = ["2024-01-01"; "A"; "100"; "0.5"]
  /\ JS.get (parseCSVLine Fixtures.shortRow) 4 = None
  /\ option_map
       (fun st => map (fun e => (date e, track_id e, energy e)) (data st))
       (ingest parseFloat constructor Fixtures.csvShort)
     = Some [("2024-01-01", "A", 0)].
Proof. repeat split. Qed.

End RecordStore.

(** ** The order of the track metadata *)

Section Metadata.

Import DataLoader Spec.

Lemma firstSeen_NoDup (l : list string) : NoDup (firstSeen l).
Proof.
  unfold firstSeen. apply (fold_left_invariant (@NoDup string)).
  - constructor.
  - intros s x _. apply setAdd_NoDup.
Qed.

Lemma setAdd_In (x y : string) (s : list string) :
  In y (JS.setAdd x s) -> y = x \/ In y s.
Proof.
  unfold JS.setAdd. destruct (JS.includes x s); [now right|].
  intro H. apply in_app_or in H. destruct H as [H|[<-|[]]]; auto.
Qed.

Lemma firstSeen_In (l : list string) (y : string) :
  In y (firstSeen l) -> In y l.
Proof.
  unfold firstSeen.
  assert (H : forall acc, In y (fold_left (fun s x => JS.setAdd x s) l acc) ->
                          In y acc \/ In y l).
  { induction l as [|x l IH]; intros acc Hy; simpl in *; [now left|].
    apply IH in Hy. destruct Hy as [Hy|Hy]; [|now right; right].
    apply setAdd_In in Hy. destruct Hy as [->|Hy]; auto. }
  intro Hy. apply H in Hy. now destruct Hy.
Qed.

Lemma setAdd_fresh (l acc : list string) :
  NoDup (acc ++ l) -> fold_left (fun s x => JS.setAdd x s) l acc = acc ++ l.
Proof.
  revert acc. induction l as [|x l IH]; intros acc H; simpl.
  - now rewrite app_nil_r.
  - assert (Hx : JS.includes x acc = false).
    { apply not_true_is_false. intro Hin. apply includes_In in Hin.
      apply NoDup_remove_2 in H. apply H. apply in_or_app. now left. }
    unfold JS.setAdd at 2. rewrite Hx.
    rewrite IH; rewrite <- app_assoc; [reflexivity|exact H].
Qed.

Lemma mapKeys_fold_mapSet {V : Type} (g : string -> V) (l : list string)
    (m : list (string * V)) :
  JS.mapKeys (fold_left (fun md t => JS.mapSet t (g t) md) l m)
  = fold_left (fun s x => JS.setAdd x s) l (JS.mapKeys m).
Proof.
  revert m. induction l as [|t l IH]; intro m; simpl.
  - reflexivity.
  - now rewrite IH, mapKeys_mapSet.
Qed.

Lemma NoDup_firstn {A : Type} (n : nat) (l : list A) :
  NoDup l -> NoDup (firstn n l).
Proof.
  intro H. rewrite <- (firstn_skipn n l) in H.
  now apply NoDup_app_remove_r in H.
Qed.

Lemma In_firstn_in {A : Type} (n : nat) (l : list A) (x : A) :
  In x (firstn n l) -> In x l.
Proof.
  intro H. rewrite <- (firstn_skipn n l). apply in_or_app. now left.
Qed.

Lemma selected_NoDup (n : nat) (d : list Entry) :
  NoDup (sortedTracksOf n (trackStreamsOf d)).
Proof.
  unfold sortedTracksOf, JS.slice. rewrite skipn_O, Nat.sub_0_r, <- firstn_map.
  apply NoDup_firstn.
  eapply Permutation_NoDup.
  - symmetry. apply Permutation_map. apply sortBy_perm.
  - change (NoDup (JS.mapKeys (trackStreamsOf d))).
    unfold trackStreamsOf. rewrite tally_keys. apply firstSeen_NoDup.
Qed.

Lemma selected_has_row (n : nat) (d : list Entry) (t : string) :
  In t (sortedTracksOf n (trackStreamsOf d)) ->
  exists e, In e d /\ track_id e = t.
Proof.
  unfold sortedTracksOf, JS.slice. rewrite skipn_O, Nat.sub_0_r, <- firstn_map.
  intro H. apply In_firstn_in in H.
  apply (Permutation_in _ (Permutation_map fst (sortBy_perm _ _))) in H.
  change (In t (JS.mapKeys (trackStreamsOf d))) in H.
  unfold trackStreamsOf in H. rewrite tally_keys in H.
  apply firstSeen_In in H. apply in_map_iff in H.
  destruct H as (e & He & Hin). now exists e.
Qed.

(** On a loader without metadata, so at the first load, the metadata
    map iterates in the order of the selected tracks. *)
Lemma selectTopTracks_fresh_metadata (n : nat) (st : Loader) :
  trackMetadata st = [] ->
  JS.mapKeys (trackMetadata (selectTopTracks n st))
  = selectedTracks (selectTopTracks n st).
Proof.
  intro Hfresh. unfold selectTopTracks. cbn [trackMetadata selectedTracks].
  rewrite Hfresh.
  set (sel := sortedTracksOf n (trackStreamsOf (data st))).
  rewrite (fold_left_ext_in _
             (fun md t =>
                JS.mapSet t
                  (mkMetadata t t (JS.mapGet t (trackStreamsOf (data st)))) md)).
  - rewrite (mapKeys_fold_mapSet
               (fun t => mkMetadata t t (JS.mapGet t (trackStreamsOf (data st))))).
    apply (setAdd_fresh sel []). apply selected_NoDup.
  - intros md t Hin.
    destruct (selected_has_row n (data st) t Hin) as (e & He & Ht).
    destruct (find _ (filter _ (data st))) as [e'|] eqn:Hf; [reflexivity|].
    eapply find_none in Hf.
    + cbv beta in Hf. rewrite Ht, String.eqb_refl in Hf. discriminate.
    + apply filter_In. split; [exact He|].
      apply includes_In. now rewrite Ht.
Qed.

Local Open Scope string_scope.

(** C10 at the failing input.  After a second file is loaded into the
    same loader the metadata map still starts with the tracks of the first
    file, in their old places: the selected tracks are C, B and the metadata
    iterates B, A, C, so that the index the analysis derives from the
    metadata for C is 2 while the block of C in every target is the block of
    index 0; on predictions that are right on the block of C and wrong on the
    block of B, the analysis reports 100 for B, whose own block scores 0, and
    a figure for the unselected track A. *)
Theorem reload_metadata_order :
  selectedTracks (Fixtures.load Fixtures.csvFirst) = ["B"; "A"]
  /\ JS.mapKeys (trackMetadata (Fixtures.load Fixtures.csvFirst)) = ["B"; "A"]
  /\ selectedTracks Fixtures.loadedTwice = ["C"; "B"]
  /\ JS.mapKeys (trackMetadata Fixtures.loadedTwice) = ["B"; "A"; "C"]
  /\ JS.indexOf "C" (selectedTracks Fixtures.loadedTwice) = 0%Z
  /\ JS.indexOf "C" (JS.mapKeys (trackMetadata Fixtures.loadedTwice)) = 2%Z
  /\ Fixtures.reportedAccuracies Fixtures.predictionsCB Fixtures.truthCB
       (trackMetadata Fixtures.loadedTwice)
     = Some [("B", 100); ("A", 0); ("C", 100)]
  /\ JS.indexOf "B" (selectedTracks Fixtures.loadedTwice) = 1%Z
  /\ Qred
       (GRUModel.accuracy
          (GRUModel.trackAccuracyOf (TF.arraySync Fixtures.predictionsCB)
             (TF.arraySync Fixtures.truthCB)
             (trackMetadata Fixtures.loadedTwice) "B" 1))
     = 0.
Proof. repeat split. Qed.

End Metadata.

(** * Further properties *)

(** ** Track selection: rows kept, metadata written *)

Lemma firstSeen_complete (l : list string) (x : string) :
  In x l -> In x (Spec.firstSeen l).
Proof.
  unfold Spec.firstSeen.
  assert (H : forall acc, In x acc \/ In x l ->
                          In x (fold_left (fun s y => JS.setAdd y s) l acc)).
  { induction l as [|y l IH]; intros acc [Hacc|Hl]; simpl in *;
      try contradiction; trivial.
    - apply IH. left. unfold JS.setAdd.
      destruct (JS.includes y acc); [exact Hacc|].
      apply in_or_app. now left.
    - apply IH. destruct Hl as [->|Hl]; [left|now right].
      unfold JS.setAdd. destruct (JS.includes x acc) eqn:Hin.
      + now apply includes_In.
      + apply in_or_app. right. now left. }
  intro Hx. apply H. now right.
Qed.

Lemma mapGet_In_keys {V : Type} (k : string) (m : list (string * V)) :
  In k (JS.mapKeys m) -> exists v, JS.mapGet k m = Some v.
Proof.
  induction m as [|[k' v'] m IH]; simpl; [contradiction|].
  intros [<-|Hin].
  - rewrite String.eqb_refl. now exists v'.
  - destruct (String.eqb k k'); [now exists v'|now apply IH].
Qed.

Lemma mapGet_fold_mapSet_other {V : Type} (g : string -> V) (l : list string)
    (m : list (string * V)) (k : string) :
  ~ In k l ->
  JS.mapGet k (fold_left (fun m t => JS.mapSet t (g t) m) l m) = JS.mapGet k m.
Proof.
  revert m. induction l as [|t l IH]; intros m Hk; simpl; [reflexivity|].
  rewrite IH by (intro H; apply Hk; now right).
  apply mapGet_mapSet_other. intros ->. apply Hk. now left.
Qed.

Lemma filter_all {A : Type} (p : A -> bool) (l : list A) :
  (forall x, In x l -> p x = true) -> filter p l = l.
Proof.
  induction l as [|x l IH]; intro H; simpl; [reflexivity|].
  rewrite (H x) by now left. f_equal. apply IH. intros y Hy. apply H. now right.
Qed.

Section SelectionMore.

Import DataLoader Spec.

Lemma selected_keys (n : nat) (d : list Entry) (t : string) :
  In t (sortedTracksOf n (trackStreamsOf d)) ->
  In t (JS.mapKeys (trackStreamsOf d)).
Proof.
  unfold sortedTracksOf, JS.slice. rewrite skipn_O, Nat.sub_0_r, <- firstn_map.
  intro H. apply In_firstn_in in H.
  now apply (Permutation_in _ (Permutation_map fst (sortBy_perm _ _))) in H.
Qed.

(** The metadata loop of [selectTopTracks] sets every selected track. *)
Lemma metadata_fold (n : nat) (st : Loader) :
  trackMetadata (selectTopTracks n st)
  = fold_left
      (fun md t =>
         JS.mapSet t (mkMetadata t t (JS.mapGet t (trackStreamsOf (data st)))) md)
      (selectedTracks (selectTopTracks n st)) (trackMetadata st).
Proof.
  unfold selectTopTracks. cbn [trackMetadata selectedTracks].
  apply fold_left_ext_in. intros md t Hin.
  destruct (selected_has_row n (data st) t Hin) as (e & He & Ht).
  destruct (find _ (filter _ (data st))) as [e'|] eqn:Hf; [reflexivity|].
  eapply find_none in Hf.
  - cbv beta in Hf. rewrite Ht, String.eqb_refl in Hf. discriminate.
  - apply filter_In. split; [exact He|]. apply includes_In. now rewrite Ht.
Qed.

(** X1.  After [selectTopTracks n] at most [n] tracks are selected, all
    distinct; the record table holds exactly the rows of the selected tracks,
    in their order, so every selected track has a row; and when the table has
    no more than [n] distinct tracks no row is dropped. *)
Theorem selectTopTracks_rows (n : nat) (st : Loader) :
  let st' := selectTopTracks n st in
  (List.length (selectedTracks st') <= n)%nat
  /\ NoDup (selectedTracks st')
  /\ data st'
     = filter (fun e => JS.includes (track_id e) (selectedTracks st')) (data st)
  /\ (forall e, In e (data st')
                <-> In e (data st) /\ In (track_id e) (selectedTracks st'))
  /\ (forall t, In t (selectedTracks st') ->
                exists e, In e (data st') /\ track_id e = t)
  /\ ((List.length (firstSeen (map track_id (data st))) <= n)%nat ->
      data st' = data st).
Proof.
  intro st'. unfold st', selectTopTracks. cbn [selectedTracks data].
  split; [|split; [|split; [|split; [|split]]]].
  - unfold sortedTracksOf, JS.slice.
    rewrite length_map, length_firstn. lia.
  - apply selected_NoDup.
  - reflexivity.
  - intro e. rewrite filter_In, includes_In. reflexivity.
  - intros t Hin. destruct (selected_has_row n (data st) t Hin) as (e & He & Ht).
    exists e. split; [|exact Ht].
    apply filter_In. split; [exact He|]. apply includes_In. now rewrite Ht.
  - intro Hlen. apply filter_all. intros e He. apply includes_In.
    unfold sortedTracksOf, JS.slice. rewrite skipn_O, Nat.sub_0_r.
    rewrite firstn_all2.
    + apply (Permutation_in _ (Permutation_sym
                                 (Permutation_map fst (sortBy_perm _ _)))).
      change (In (track_id e) (JS.mapKeys (trackStreamsOf (data st)))).
      unfold trackStreamsOf. rewrite tally_keys.
      apply firstSeen_complete. now apply in_map.
    + unfold JS.sortWith. rewrite sortBy_length.
      rewrite <- (length_map fst).
      change (List.length (JS.mapKeys (trackStreamsOf (data st))) <= n)%nat.
      unfold trackStreamsOf. now rewrite tally_keys.
Qed.

(** X2.  [selectTopTracks] writes, for every selected track, the metadata with
    the identifier as name and the sum of the streams of its rows as total,
    whatever the map held for it; every other key of the map keeps its entry,
    so entries of tracks that are not selected are never removed. *)
Theorem selectTopTracks_metadata (n : nat) (st : Loader) (t : string) :
  let st' := selectTopTracks n st in
  (In t (selectedTracks st') ->
   exists v,
     JS.mapGet t (trackMetadata st') = Some (mkMetadata t t (Some v))
     /\ v == totalOf t (data st))
  /\ (~ In t (selectedTracks st') ->
      JS.mapGet t (trackMetadata st') = JS.mapGet t (trackMetadata st)).
Proof.
  intro st'. unfold st'. rewrite metadata_fold. split.
  - intro Hin.
    rewrite (mapGet_fold_mapSet
               (fun t => mkMetadata t t (JS.mapGet t (trackStreamsOf (data st))))
               _ _ t Hin).
    destruct (mapGet_In_keys t (trackStreamsOf (data st))) as [v Hv].
    { eapply selected_keys. exact Hin. }
    exists v. rewrite Hv. split; [reflexivity|].
    pose proof (tally_total t (data st) []) as H.
    fold (trackStreamsOf (data st)) in H. rewrite Hv, orElse_zero in H.
    simpl in H. lra.
  - intro Hnot.
    apply (mapGet_fold_mapSet_other
             (fun t => mkMetadata t t (JS.mapGet t (trackStreamsOf (data st))))).
    exact Hnot.
Qed.

End SelectionMore.

Section SelectionMoreRuns.

Import DataLoader Spec Fixtures.

Local Open Scope string_scope.

Lemma selectTopTracks_rows_witness :
  data (selectTopTracks 3 (setData constructor abcRows)) = abcRows.
Proof.
  destruct (selectTopTracks_rows 3 (setData constructor abcRows))
    as (_ & _ & _ & _ & _ & H).
  apply H. vm_compute. lia.
Defined.

Lemma selectTopTracks_metadata_witness :
  (exists v,
      JS.mapGet "A" (trackMetadata (selectTopTracks 2 (load csvFirst)))
      = Some (mkMetadata "A" "A" (Some v))
      /\ v == totalOf "A" (data (load csvFirst)))
  /\ JS.mapGet "Z" (trackMetadata (selectTopTracks 2 (load csvFirst)))
     = JS.mapGet "Z" (trackMetadata (load csvFirst)).
Proof.
  destruct (selectTopTracks_metadata 2 (load csvFirst) "A") as (H & _).
  destruct (selectTopTracks_metadata 2 (load csvFirst) "Z") as (_ & H').
  split.
  - apply H. vm_compute. right. left. reflexivity.
  - apply H'. vm_compute. intros [Hc|[Hc|[]]]; discriminate.
Defined.

End SelectionMoreRuns.

(** ** The normalizer: ranges, inverse, repeated runs *)

Lemma minOf_le_init (x : Q) (l : list Q) : JS.minOf x l <= x.
Proof.
  unfold JS.minOf. revert x. induction l as [|y l IH]; intro x; simpl.
  - apply Qle_refl.
  - eapply Qle_trans; [apply IH|]. apply Q.le_min_l.
Qed.

Lemma minOf_le (x : Q) (l : list Q) (v : Q) :
  In v (x :: l) -> JS.minOf x l <= v.
Proof.
  revert x. induction l as [|y l IH]; intros x Hin.
  - destruct Hin as [->|[]]. apply Qle_refl.
  - change (JS.minOf x (y :: l)) with (JS.minOf (Qmin x y) l).
    destruct Hin as [->|[->|Hin]].
    + eapply Qle_trans; [apply minOf_le_init|]. apply Q.le_min_l.
    + eapply Qle_trans; [apply minOf_le_init|]. apply Q.le_min_r.
    + apply IH. now right.
Qed.

Lemma maxOf_ge_init (x : Q) (l : list Q) : x <= JS.maxOf x l.
Proof.
  unfold JS.maxOf. revert x. induction l as [|y l IH]; intro x; simpl.
  - apply Qle_refl.
  - eapply Qle_trans; [|apply IH]. apply Q.le_max_l.
Qed.

Lemma maxOf_ge (x : Q) (l : list Q) (v : Q) :
  In v (x :: l) -> v <= JS.maxOf x l.
Proof.
  revert x. induction l as [|y l IH]; intros x Hin.
  - destruct Hin as [->|[]]. apply Qle_refl.
  - change (JS.maxOf x (y :: l)) with (JS.maxOf (Qmax x y) l).
    destruct Hin as [->|[->|Hin]].
    + eapply Qle_trans; [|apply maxOf_ge_init]. apply Q.le_max_l.
    + eapply Qle_trans; [|apply maxOf_ge_init]. apply Q.le_max_r.
    + apply IH. now right.
Qed.

Section NormalizerMore.

Import DataLoader Spec.

Lemma definedValues_In (f : Feature) (trackData : list Entry) (e : Entry) (v : Q) :
  In e trackData -> featureValue f e = Some v ->
  In v (definedValues f trackData).
Proof.
  intros Hin Hv. induction trackData as [|d rest IH]; [contradiction|].
  simpl. destruct Hin as [->|Hin].
  - rewrite Hv. now left.
  - destruct (featureValue f d); [right|]; now apply IH.
Qed.

Lemma fitFeature_range (trackData : list Entry) (f : Feature) (v : Q) :
  In v (definedValues f trackData) ->
  min (fitFeature trackData f) <= v /\ v <= max (fitFeature trackData f).
Proof.
  unfold fitFeature. destruct (definedValues f trackData) as [|x l];
    [contradiction|].
  intro Hin. simpl. split; [now apply minOf_le|now apply maxOf_ge].
Qed.

(** X5.  Every fitted pair has [min <= max], encloses every value it was
    fitted on, and is the fallback [{min: 0, max: 1}] when it was fitted on no
    value. *)
Theorem fitFeature_bounds (trackData : list Entry) (f : Feature) :
  min (fitFeature trackData f) <= max (fitFeature trackData f)
  /\ (forall e v, In e trackData -> featureValue f e = Some v ->
                  min (fitFeature trackData f) <= v
                  /\ v <= max (fitFeature trackData f))
  /\ (definedValues f trackData = [] -> fitFeature trackData f = mkMinMax 0 1).
Proof.
  split; [|split].
  - unfold fitFeature. destruct (definedValues f trackData) as [|x l]; simpl.
    + discriminate.
    + eapply Qle_trans; [apply minOf_le_init|apply maxOf_ge_init].
  - intros e v Hin Hv. apply fitFeature_range. eapply definedValues_In; eauto.
  - intro H. unfold fitFeature. now rewrite H.
Qed.

Lemma minMaxNormalize_unit (p : MinMax) (v : Q) :
  min p <= v -> v <= max p ->
  0 <= minMaxNormalize v (Some p) /\ minMaxNormalize v (Some p) <= 1.
Proof.
  intros Hlo Hhi. unfold minMaxNormalize.
  destruct (JS.gtb (max p) (min p)) eqn:Hgt.
  - apply gtb_true_iff in Hgt.
    assert (Hd : 0 < max p - min p) by lra.
    split.
    + apply Qle_shift_div_l; [exact Hd|]. lra.
    + apply Qle_shift_div_r; [exact Hd|]. lra.
  - split; discriminate.
Qed.

(** X6.  With [max > min] the normalization is increasing and is undone by
    [v = min + normalized * (max - min)]; a value between [min] and [max]
    normalizes into [0, 1], whatever the parameters. *)
Theorem minMaxNormalize_affine (p : MinMax) (v w : Q) :
  (min p < max p ->
   (v <= w -> minMaxNormalize v (Some p) <= minMaxNormalize w (Some p))
   /\ (minMaxNormalize v (Some p) == minMaxNormalize w (Some p) -> v == w)
   /\ min p + minMaxNormalize v (Some p) * (max p - min p) == v)
  /\ (min p <= v -> v <= max p ->
      0 <= minMaxNormalize v (Some p) /\ minMaxNormalize v (Some p) <= 1).
Proof.
  split; [|apply minMaxNormalize_unit].
  intro Hlt. unfold minMaxNormalize.
  rewrite (proj2 (gtb_true_iff (max p) (min p)) Hlt).
  assert (Hd : 0 < max p - min p) by lra.
  assert (Hnz : ~ max p - min p == 0) by lra.
  assert (Hinv : forall x, min p + (x - min p) / (max p - min p) * (max p - min p)
                           == x) by (intro x; now field).
  split; [|split].
  - intro Hvw. apply Qle_shift_div_l; [exact Hd|].
    setoid_replace ((v - min p) / (max p - min p) * (max p - min p))
      with (v - min p) by now field.
    lra.
  - intro Heq. rewrite <- (Hinv v), <- (Hinv w), Heq. reflexivity.
  - apply Hinv.
Qed.

Lemma normalizeEntry_raw (np : list (string * Params)) (e : Entry) :
  date (normalizeEntry np e) = date e
  /\ track_id (normalizeEntry np e) = track_id e
  /\ streams (normalizeEntry np e) = streams e
  /\ (forall f, featureValue f (normalizeEntry np e) = featureValue f e).
Proof.
  unfold normalizeEntry. destruct (JS.mapGet (track_id e) np); simpl;
    repeat split; intros []; reflexivity.
Qed.

(** X7.  A row of a selected track whose date is in the train period has its
    streams, danceability and energy normalized into [0, 1]. *)
Theorem normalizeFeatures_train_rows_unit (st : Loader) (e : Entry) :
  In e (data st) ->
  In (track_id e) (selectedTracks st) ->
  JS.includes (date e) (trainingDatesOf st) = true ->
  let e' := normalizeEntry (normalizationParams (normalizeFeatures st)) e in
  exists s d g,
    streams_normalized e' = Some s /\ 0 <= s /\ s <= 1
    /\ danceability_normalized e' = Some d /\ 0 <= d /\ d <= 1
    /\ energy_normalized e' = Some g /\ 0 <= g /\ g <= 1.
Proof.
  intros Hin Hsel Htrain e'. subst e'.
  unfold normalizeEntry. rewrite (fitParams_selected st _ Hsel).
  assert (Hrow : In e (trainingRows (trainingDatesOf st) (track_id e) (data st))).
  { apply filter_In. split; [exact Hin|].
    now rewrite String.eqb_refl, Htrain. }
  pose proof (fitFeature_range _ F_streams (streams e)
                (definedValues_In F_streams _ e _ Hrow eq_refl)) as [Hs1 Hs2].
  pose proof (fitFeature_range _ F_danceability (danceability e)
                (definedValues_In F_danceability _ e _ Hrow eq_refl)) as [Hd1 Hd2].
  pose proof (fitFeature_range _ F_energy (energy e)
                (definedValues_In F_energy _ e _ Hrow eq_refl)) as [He1 He2].
  destruct (minMaxNormalize_unit _ _ Hs1 Hs2) as [Hs3 Hs4].
  destruct (minMaxNormalize_unit _ _ Hd1 Hd2) as [Hd3 Hd4].
  destruct (minMaxNormalize_unit _ _ He1 He2) as [He3 He4].
  do 3 eexists. cbn [streams_normalized danceability_normalized
                       energy_normalized setNormalized fitTrack p_streams
                       p_danceability p_energy].
  repeat split; eassumption.
Qed.

Lemma map_normalizeEntry_twice (np np' : list (string * Params)) (d : list Entry) :
  map (normalizeEntry np') (map (normalizeEntry np) d) = map (normalizeEntry np') d.
Proof.
  rewrite map_map. apply map_ext. intro e. unfold normalizeEntry.
  destruct (JS.mapGet (track_id e) np);
    cbn [track_id setNormalized streams danceability energy streams_momentum
           streams_ma3 date valence acousticness];
    destruct (JS.mapGet (track_id e) np'); reflexivity.
Qed.

Lemma definedValues_normalized (np : list (string * Params)) (f : Feature)
    (d : list Entry) :
  definedValues f (map (normalizeEntry np) d) = definedValues f d.
Proof.
  induction d as [|e d IH]; simpl; [reflexivity|].
  destruct (normalizeEntry_raw np e) as (_ & _ & _ & Hf).
  rewrite Hf, IH. reflexivity.
Qed.

Lemma trainingRows_normalized (np : list (string * Params)) (td : list string)
    (t : string) (d : list Entry) :
  trainingRows td t (map (normalizeEntry np) d)
  = map (normalizeEntry np) (trainingRows td t d).
Proof.
  unfold trainingRows. induction d as [|e d IH]; simpl; [reflexivity|].
  destruct (normalizeEntry_raw np e) as (Hd & Ht & _).
  rewrite Hd, Ht.
  destruct (String.eqb (track_id e) t && JS.includes (date e) td); simpl;
    now rewrite IH.
Qed.

Lemma fitParams_normalized (st : Loader) :
  fitParams (normalizeFeatures st) = fitParams st.
Proof.
  unfold fitParams. cbn [selectedTracks normalizeFeatures].
  change (trainingDatesOf (normalizeFeatures st)) with (trainingDatesOf st).
  apply fold_left_ext_in. intros m t _. f_equal.
  unfold fitTrack, fitFeature. cbn [data normalizeFeatures].
  rewrite trainingRows_normalized, !definedValues_normalized. reflexivity.
Qed.

Lemma fitParams_core (st st' : Loader) :
  data st = data st' -> dates st = dates st' ->
  selectedTracks st = selectedTracks st' -> fitParams st = fitParams st'.
Proof.
  destruct st, st'. simpl. intros -> -> ->. reflexivity.
Qed.

(** The target reads the loaders through the streams of the rows it
    finds, the dates and the selected tracks. *)
Lemma offsetLoop_streams (st st' : Loader) (D : list string) (idx : Z)
    (t : string) (cs : Q) (offs : list Z) (target : Target) :
  (forall d, option_map streams (findEntry st d t)
             = option_map streams (findEntry st' d t)) ->
  offsetLoop st D idx t cs offs target = offsetLoop st' D idx t cs offs target.
Proof.
  intro H. revert target. induction offs as [|o offs IH]; intro target; simpl.
  - reflexivity.
  - destruct (JS.get D (idx + o)) as [fd|]; [|reflexivity].
    specialize (H fd).
    destruct (findEntry st fd t) as [fe|], (findEntry st' fd t) as [fe'|];
      simpl in H; try discriminate; [|reflexivity].
    injection H as ->. apply IH.
Qed.

Lemma trackLoop_streams (st st' : Loader) (D : list string) (d : string)
    (idx : Z) (ts : list string) (target : Target) :
  (forall d t, option_map streams (findEntry st d t)
               = option_map streams (findEntry st' d t)) ->
  trackLoop st D d idx ts target = trackLoop st' D d idx ts target.
Proof.
  intro H. revert target. induction ts as [|t ts IH]; intro target.
  - reflexivity.
  - cbn [trackLoop]. pose proof (H d t) as Hd.
    destruct (findEntry st d t) as [ce|], (findEntry st' d t) as [ce'|];
      simpl in Hd; try discriminate; [|reflexivity].
    injection Hd as ->.
    rewrite (offsetLoop_streams st st' D idx t (streams ce') _ target (fun d => H d t)).
    destruct (offsetLoop st' D idx t (streams ce') [1; 2; 3]%Z target);
      [apply IH|reflexivity].
Qed.

Lemma createTarget_streams (st st' : Loader) (d : string) :
  dates st = dates st' -> selectedTracks st = selectedTracks st' ->
  (forall d t, option_map streams (findEntry st d t)
               = option_map streams (findEntry st' d t)) ->
  createTarget st d = createTarget st' d.
Proof.
  intros Hd Hs H. unfold createTarget. rewrite Hd, Hs.
  now apply trackLoop_streams.
Qed.

Lemma findEntry_core (st st' : Loader) (d t : string) :
  data st = data st' -> findEntry st d t = findEntry st' d t.
Proof. unfold findEntry. now intros ->. Qed.

Lemma slidingWindows_core (st st' : Loader) :
  data st = data st' -> dates st = dates st' ->
  selectedTracks st = selectedTracks st' ->
  slidingWindows st = slidingWindows st'.
Proof.
  intros Hdata Hdates Hsel. unfold slidingWindows. rewrite Hdates.
  apply fold_left_ext_in. intros acc i _. unfold windowStep.
  destruct (nth_error (JS.sort (dates st')) i) as [currentDate|]; [|reflexivity].
  assert (Hsample : forall w, createSample st w = createSample st' w).
  { intro w. unfold createSample. f_equal.
    replace (map (dayFeatures st) w) with (map (dayFeatures st') w); [reflexivity|].
    apply map_ext. intro d0. unfold dayFeatures. rewrite Hsel.
    apply flat_map_ext. intro t. unfold trackFeatures.
    now rewrite (findEntry_core st st' d0 t Hdata). }
  rewrite Hsample, Hsel.
  rewrite (createTarget_streams st st' currentDate Hdates Hsel).
  - reflexivity.
  - intros d0 t. now rewrite (findEntry_core st st' d0 t Hdata).
Qed.

Lemma normalizeFeatures_twice (st : Loader) :
  normalizeFeatures (normalizeFeatures st) = normalizeFeatures st.
Proof.
  unfold normalizeFeatures at 1. rewrite fitParams_normalized.
  cbn [data tracks dates X_train y_train X_test y_test trackMetadata
         selectedTracks normalizeFeatures].
  now rewrite map_normalizeEntry_twice.
Qed.

Lemma loader_eq (a b : Loader) :
  data a = data b -> tracks a = tracks b -> dates a = dates b ->
  X_train a = X_train b -> y_train a = y_train b ->
  X_test a = X_test b -> y_test a = y_test b ->
  trackMetadata a = trackMetadata b ->
  normalizationParams a = normalizationParams b ->
  selectedTracks a = selectedTracks b -> a = b.
Proof.
  destruct a, b. simpl. intros. subst. reflexivity.
Qed.

(** X8.  Normalizing again changes nothing: the parameters are fitted on the
    raw features, which normalization leaves as they are.  So when building
    the windows has returned, building them a second time returns the same
    loader; and when it has thrown, which leaves the loader normalized, it
    throws again. *)
Theorem createSlidingWindows_idempotent (st : Loader) :
  normalizeFeatures (normalizeFeatures st) = normalizeFeatures st
  /\ (forall out,
         createSlidingWindows st = Some out ->
         createSlidingWindows out = Some out)
  /\ (createSlidingWindows st = None ->
      createSlidingWindows (normalizeFeatures st) = None).
Proof.
  split; [apply normalizeFeatures_twice|].
  pose proof (slidingWindows_paired (normalizeFeatures st)) as Hpair.
  symmetry in Hpair. split.
  - intros out Hout. unfold createSlidingWindows in Hout. cbv zeta in Hout.
    destruct (splitData_cases (normalizeFeatures st) _ _ Hpair)
      as [(_ & Hnone)|(Hge & _ & Hsome)]; [congruence|].
    rewrite Hsome in Hout. injection Hout as Hout.
    assert (Hp : fitParams out = fitParams st).
    { rewrite <- (fitParams_normalized st).
      apply fitParams_core; rewrite <- Hout; reflexivity. }
    assert (Hd : data (normalizeFeatures out) = data (normalizeFeatures st)).
    { unfold normalizeFeatures at 1. cbn [data]. rewrite Hp, <- Hout.
      cbn [data normalizeFeatures]. apply map_normalizeEntry_twice. }
    assert (Hw : slidingWindows (normalizeFeatures out)
                 = slidingWindows (normalizeFeatures st)).
    { apply slidingWindows_core; [exact Hd| |]; rewrite <- Hout; reflexivity. }
    unfold createSlidingWindows. cbv zeta. rewrite Hw.
    destruct (splitData_cases (normalizeFeatures out) _ _ Hpair)
      as [(Hlt & _)|(_ & _ & Hsome')]; [lia|].
    rewrite Hsome'. f_equal.
    apply loader_eq; cbn [data tracks dates X_train y_train X_test y_test
                            trackMetadata normalizationParams selectedTracks];
      try (rewrite <- Hout; reflexivity).
    + rewrite Hd, <- Hout. reflexivity.
    + change (fitParams out = normalizationParams out).
      rewrite Hp, <- Hout. reflexivity.
  - intro Hnone. unfold createSlidingWindows in *. cbv zeta in *.
    now rewrite normalizeFeatures_twice.
Qed.

End NormalizerMore.

Section NormalizerMoreRuns.

Import DataLoader Spec Fixtures.

Lemma fitFeature_bounds_witness :
  In (row "2024-01-01" "A" 60) abcRows
  /\ featureValue F_streams (row "2024-01-01" "A" 60) = Some 60
  /\ min (fitFeature abcRows F_streams) <= 60
  /\ 60 <= max (fitFeature abcRows F_streams).
Proof.
  destruct (fitFeature_bounds abcRows F_streams) as (_ & H & _).
  split; [left; reflexivity|]. split; [reflexivity|].
  apply (H (row "2024-01-01" "A" 60) 60); [left; reflexivity|reflexivity].
Defined.

Lemma minMaxNormalize_affine_witness :
  min (mkMinMax 1 3) < max (mkMinMax 1 3)
  /\ minMaxNormalize 2 (Some (mkMinMax 1 3))
     <= minMaxNormalize 3 (Some (mkMinMax 1 3))
  /\ 1 + minMaxNormalize 2 (Some (mkMinMax 1 3)) * (3 - 1) == 2
  /\ 0 <= minMaxNormalize 2 (Some (mkMinMax 1 3))
  /\ minMaxNormalize 2 (Some (mkMinMax 1 3)) <= 1.
Proof.
  destruct (minMaxNormalize_affine (mkMinMax 1 3) 2 3) as [H1 H2].
  assert (Hlt : min (mkMinMax 1 3) < max (mkMinMax 1 3)) by reflexivity.
  destruct (H1 Hlt) as (Hm & _ & Hinv).
  destruct H2 as [H0 H1']; [discriminate|discriminate|].
  split; [exact Hlt|]. split; [apply Hm; discriminate|].
  split; [exact Hinv|]. split; [exact H0|exact H1'].
Defined.

Lemma normalizeFeatures_train_rows_unit_witness :
  let e := nth 0 (data loaded11) strayRow in
  In e (data loaded11)
  /\ In (track_id e) (selectedTracks loaded11)
  /\ JS.includes (date e) (trainingDatesOf loaded11) = true
  /\ exists s d g,
       streams_normalized
         (normalizeEntry (normalizationParams (normalizeFeatures loaded11)) e)
       = Some s /\ 0 <= s /\ s <= 1
       /\ danceability_normalized
            (normalizeEntry (normalizationParams (normalizeFeatures loaded11)) e)
          = Some d /\ 0 <= d /\ d <= 1
       /\ energy_normalized
            (normalizeEntry (normalizationParams (normalizeFeatures loaded11)) e)
          = Some g /\ 0 <= g /\ g <= 1.
Proof.
  intro e.
  assert (H1 : In e (data loaded11)) by (vm_compute; left; reflexivity).
  assert (H2 : In (track_id e) (selectedTracks loaded11))
    by (vm_compute; left; reflexivity).
  assert (H3 : JS.includes (date e) (trainingDatesOf loaded11) = true)
    by (vm_compute; reflexivity).
  split; [exact H1|]. split; [exact H2|]. split; [exact H3|].
  exact (normalizeFeatures_train_rows_unit loaded11 e H1 H2 H3).
Defined.

Lemma createSlidingWindows_idempotent_witness :
  exists out,
    createSlidingWindows loaded12 = Some out
    /\ createSlidingWindows out = Some out.
Proof.
  eexists. split; [vm_compute; reflexivity|].
  destruct (createSlidingWindows_idempotent loaded12) as (_ & H & _).
  apply H. vm_compute. reflexivity.
Defined.

End NormalizerMoreRuns.

(** ** Targets and the train/test split *)

Lemma find_map {A B : Type} (p : B -> bool) (f : A -> B) (l : list A) :
  find p (map f l) = option_map f (find (fun x => p (f x)) l).
Proof.
  induction l as [|x l IH]; simpl; [reflexivity|].
  destruct (p (f x)); [reflexivity|exact IH].
Qed.

Lemma find_extensional {A : Type} (p q : A -> bool) (l : list A) :
  (forall x, p x = q x) -> find p l = find q l.
Proof.
  intro H. induction l as [|x l IH]; simpl; [reflexivity|].
  rewrite H, IH. reflexivity.
Qed.

Section TargetsMore.

Import DataLoader Spec.

Lemma findEntry_normalized (st : Loader) (d t : string) :
  findEntry (normalizeFeatures st) d t
  = option_map (normalizeEntry (fitParams st)) (findEntry st d t).
Proof.
  unfold findEntry. cbn [data normalizeFeatures]. rewrite find_map.
  f_equal. apply find_extensional. intro e.
  destruct (normalizeEntry_raw (fitParams st) e) as (Hd & Ht & _).
  now rewrite Hd, Ht.
Qed.

(** X9.  The labels are computed from the raw streams: normalizing the
    features changes no target. *)
Theorem createTarget_ignores_normalization (st : Loader) (d : string) :
  createTarget (normalizeFeatures st) d = createTarget st d.
Proof.
  apply createTarget_streams; try reflexivity.
  intros d0 t. rewrite findEntry_normalized.
  destruct (findEntry st d0 t) as [e|]; simpl; [|reflexivity].
  destruct (normalizeEntry_raw (fitParams st) e) as (_ & _ & Hs & _).
  now rewrite Hs.
Qed.

Lemma trackBlock_binary (st : Loader) (D : list string) (d : string) (idx : Z)
    (t : string) (b : list Q) :
  trackBlock st D d idx t = Some b -> Forall (fun v => v = 0 \/ v = 1) b.
Proof.
  unfold trackBlock. destruct (findEntry st d t) as [ce|]; [|discriminate].
  destruct (futureStreams st D idx t 1); [|discriminate].
  destruct (futureStreams st D idx t 2); [|discriminate].
  destruct (futureStreams st D idx t 3); [|discriminate].
  intro H. injection H as <-.
  unfold label.
  repeat (constructor;
          [match goal with
           | |- context [JS.gtb ?a ?b] => destruct (JS.gtb a b); auto
           end|]).
  constructor.
Qed.

(** X10.  Every entry of a target is 0 or 1. *)
Theorem createTarget_binary (st : Loader) (d : string) (target : Target) :
  createTarget st d = Some target -> Forall (fun v => v = 0 \/ v = 1) target.
Proof.
  unfold createTarget. intro H. apply trackLoop_Some in H.
  destruct H as (blocks & HF & ->). cbn [app].
  induction HF as [|t b ts blocks Hb _ IH]; simpl; [constructor|].
  apply Forall_app. split; [|exact IH]. eapply trackBlock_binary; eauto.
Qed.

(** X11.  The builder throws when its loop has accepted fewer than two
    windows.  Otherwise it stores as training part the first
    [floor (0.8 * n)] of the [n] accepted windows and as test part the rest,
    for the samples and for the targets alike, so that sample and target stay
    paired and neither part is empty.  The accepted windows are those of the
    fully observed candidates, from the index 7 on in ascending order, each
    with the target that [createTarget] returns at its date. *)
Theorem createSlidingWindows_split (st : Loader) :
  let n := normalizeFeatures st in
  let D := JS.sort (dates st) in
  let accepted := filter (fullyObserved n D) (seq 7 (List.length D - 10)) in
  let w := slidingWindows n in
  (NoDup (dates st) ->
   fst w = map (windowAt n D) accepted
   /\ map Some (snd w) = map (targetAt n D) accepted)
  /\ (createSlidingWindows st = None <-> (List.length (fst w) < 2)%nat)
  /\ (forall out,
         createSlidingWindows st = Some out ->
         exists xtrain ytrain xtest ytest,
           X_train out = Some xtrain /\ y_train out = Some ytrain
           /\ X_test out = Some xtest /\ y_test out = Some ytest
           /\ xtrain ++ xtest = fst w /\ ytrain ++ ytest = snd w
           /\ List.length xtrain = (4 * List.length (fst w) / 5)%nat
           /\ List.length ytrain = List.length xtrain
           /\ List.length ytest = List.length xtest
           /\ xtrain <> [] /\ xtest <> []).
Proof.
  intros n D accepted w.
  pose proof (slidingWindows_paired n) as Hp. symmetry in Hp. fold w in Hp.
  pose proof (splitData_cases n _ _ Hp) as Hsplit. cbv zeta in Hsplit.
  assert (Hdef : createSlidingWindows st = splitData n (fst w) (snd w))
    by reflexivity.
  rewrite Hdef. clear Hdef.
  split; [|split].
  - intro Hnd.
    destruct (slidingWindows_accepted n Hnd) as [Hs _].
    pose proof (slidingWindows_targets n Hnd) as Ht.
    change (dates n) with (dates st) in Hs, Ht. fold D in Hs, Ht.
    rewrite candidates_seq in Hs, Ht. now split.
  - destruct Hsplit as [(Hlt & Hnone)|(Hge & _ & Hsome)].
    + split; [intros _; exact Hlt|intros _; exact Hnone].
    + rewrite Hsome. split; [discriminate|lia].
  - intros out Hout.
    destruct Hsplit as [(_ & Hnone)|(Hge & Hk & Hsome)]; [congruence|].
    rewrite Hsome in Hout. injection Hout as <-.
    cbn [X_train y_train X_test y_test]. do 4 eexists.
    split; [reflexivity|]. split; [reflexivity|].
    split; [reflexivity|]. split; [reflexivity|].
    split; [apply firstn_skipn|]. split; [apply firstn_skipn|].
    unfold JS.floor08 in *.
    split; [rewrite length_firstn; lia|].
    split; [rewrite !length_firstn; lia|].
    split; [rewrite !length_skipn; lia|].
    split; apply length_nonempty;
      rewrite ?length_firstn, ?length_skipn; lia.
Qed.

End TargetsMore.

Section TargetsMoreRuns.

Import DataLoader Spec Fixtures.

Lemma createTarget_binary_witness :
  exists target,
    createTarget loaded11 "2024-01-08" = Some target
    /\ Forall (fun v => v = 0 \/ v = 1) target.
Proof.
  eexists. split; [vm_compute; reflexivity|].
  apply (createTarget_binary loaded11 "2024-01-08"). vm_compute. reflexivity.
Defined.

Lemma createSlidingWindows_split_witness :
  NoDup (dates loaded12)
  /\ List.length (fst (slidingWindows (normalizeFeatures loaded12))) = 2%nat
  /\ exists out xtrain xtest,
       createSlidingWindows loaded12 = Some out
       /\ X_train out = Some xtrain /\ X_test out = Some xtest
       /\ xtrain ++ xtest = fst (slidingWindows (normalizeFeatures loaded12))
       /\ xtrain <> [] /\ xtest <> [].
Proof.
  split; [vm_compute; distinct_strings|].
  split; [vm_compute; reflexivity|].
  destruct (createSlidingWindows_split loaded12) as (_ & _ & H).
  assert (Hout : exists out, createSlidingWindows loaded12 = Some out)
    by (eexists; vm_compute; reflexivity).
  destruct Hout as [out Hout].
  destruct (H out Hout)
    as (xtrain & ytrain & xtest & ytest & H1 & _ & H3 & _ & H5 & _ & _ & _
        & _ & H10 & H11).
  exists out, xtrain, xtest. repeat split; assumption.
Defined.

End TargetsMoreRuns.

(** ** The record store: fields of a row, missing columns, repeated loads *)

Lemma removeQuotes_length (s : string) :
  (String.length (JS.removeQuotes s) <= String.length s)%nat.
Proof.
  induction s as [|ch s IH]; simpl; [lia|].
  destruct (Ascii.eqb ch JS.quote); simpl; lia.
Qed.

Lemma removeQuotes_idempotent (s : string) :
  JS.removeQuotes (JS.removeQuotes s) = JS.removeQuotes s.
Proof.
  induction s as [|ch s IH]; simpl; [reflexivity|].
  destruct (Ascii.eqb ch JS.quote) eqn:H; [exact IH|].
  simpl. now rewrite H, IH.
Qed.

(** A string that [removeQuotes] leaves as it is starts with no quote. *)
Lemma removeQuotes_fixed_cons (ch : ascii) (s : string) :
  JS.removeQuotes (String ch s) = String ch s ->
  Ascii.eqb ch JS.quote = false /\ JS.removeQuotes s = s.
Proof.
  simpl. destruct (Ascii.eqb ch JS.quote).
  - intro H. pose proof (removeQuotes_length s) as Hlen.
    rewrite H in Hlen. simpl in Hlen. lia.
  - intro H. injection H as H. now split.
Qed.

Section RowFields.

Import DataLoader.

Lemma scanLine_clean (line : string) (result : list string) (current : string)
    (inQuotes : bool) :
  Forall (fun f => JS.removeQuotes f = f) result ->
  Forall (fun f => JS.removeQuotes f = f)
    (scanLine line result current inQuotes).
Proof.
  revert result current inQuotes.
  induction line as [|ch line IH]; intros result current inQuotes Hres; simpl.
  - apply Forall_app. split; [exact Hres|].
    constructor; [apply removeQuotes_idempotent|constructor].
  - destruct (Ascii.eqb ch JS.quote); [now apply IH|].
    destruct (Ascii.eqb ch JS.comma && negb inQuotes); apply IH; trivial.
    apply Forall_app. split; [exact Hres|].
    constructor; [apply removeQuotes_idempotent|constructor].
Qed.

Lemma scanLine_unquoted (line : string) (result : list string)
    (current : string) :
  JS.removeQuotes line = line ->
  scanLine line result current false
  = result ++ map cleanField (JS.splitFrom JS.comma line current).
Proof.
  revert result current.
  induction line as [|ch line IH]; intros result current Hq.
  - reflexivity.
  - apply removeQuotes_fixed_cons in Hq. destruct Hq as [Hch Hq].
    cbn [scanLine JS.splitFrom]. rewrite Hch.
    destruct (Ascii.eqb ch JS.comma); cbn [andb negb].
    + rewrite (IH _ _ Hq). cbn [map]. now rewrite <- app_assoc.
    + apply (IH _ _ Hq).
Qed.

Lemma scanLine_nonempty (line : string) (result : list string)
    (current : string) (inQuotes : bool) :
  scanLine line result current inQuotes <> [].
Proof.
  revert result current inQuotes.
  induction line as [|ch line IH]; intros result current inQuotes; simpl.
  - now destruct result.
  - destruct (Ascii.eqb ch JS.quote); [apply IH|].
    destruct (Ascii.eqb ch JS.comma && negb inQuotes); apply IH.
Qed.

(** X12.  [parseCSVLine] gives at least one field, no field holds a double
    quote, and on a line without double quotes the fields are those of the
    plain split at the commas, cleaned as the header row is. *)
Theorem parseCSVLine_fields (line : string) :
  parseCSVLine line <> []
  /\ Forall (fun f => JS.removeQuotes f = f) (parseCSVLine line)
  /\ (JS.removeQuotes line = line ->
      parseCSVLine line = map cleanField (JS.split JS.comma line)).
Proof.
  unfold parseCSVLine. split; [apply scanLine_nonempty|]. split.
  - apply scanLine_clean. constructor.
  - intro Hq. now rewrite scanLine_unquoted.
Qed.

End RowFields.

Lemma parseCSVLine_fields_witness :
  JS.removeQuotes Fixtures.shortRow = Fixtures.shortRow
  /\ DataLoader.parseCSVLine Fixtures.shortRow
     = map DataLoader.cleanField (JS.split JS.comma Fixtures.shortRow).
Proof.
  destruct (parseCSVLine_fields Fixtures.shortRow) as (_ & _ & H).
  split; [reflexivity|]. apply H. reflexivity.
Defined.

Lemma findIndexFrom_none {A : Type} (p : A -> bool) (l : list A) (i : Z) :
  (forall x, In x l -> p x = false) -> JS.findIndexFrom p l i = (-1)%Z.
Proof.
  revert i. induction l as [|x l IH]; intros i H; simpl; [reflexivity|].
  rewrite (H x) by now left. apply IH. intros y Hy. apply H. now right.
Qed.

Lemma setAdd_extends (x : string) (s : list string) :
  exists more, JS.setAdd x s = s ++ more.
Proof.
  unfold JS.setAdd. destruct (JS.includes x s).
  - exists []. now rewrite app_nil_r.
  - now exists [x].
Qed.

Lemma fold_setAdd_extends (l s : list string) :
  exists more, fold_left (fun s x => JS.setAdd x s) l s = s ++ more.
Proof.
  revert s. induction l as [|x l IH]; intro s; simpl.
  - exists []. now rewrite app_nil_r.
  - destruct (setAdd_extends x s) as [m1 ->].
    destruct (IH (s ++ m1)) as [m2 ->].
    exists (m1 ++ m2). now rewrite app_assoc.
Qed.

Section LoadsMore.

Import DataLoader Spec.

Variable parseFloat : string -> option Q.

Lemma ingestLine_extends (c : Columns) (st : Loader) (line : string) :
  (exists more, dates (ingestLine parseFloat c st line) = dates st ++ more)
  /\ trackMetadata (ingestLine parseFloat c st line) = trackMetadata st.
Proof.
  unfold ingestLine. destruct (rowEntry parseFloat c (parseCSVLine line)).
  - cbn [dates trackMetadata]. split; [apply setAdd_extends|reflexivity].
  - split; [|reflexivity]. exists []. now rewrite app_nil_r.
Qed.

Lemma ingest_extends (st st' : Loader) (csvText : string) :
  ingest parseFloat st csvText = Some st' ->
  (exists more, dates st' = dates st ++ more)
  /\ trackMetadata st' = trackMetadata st
  /\ Forall (fun e => In (date e) (dates st')) (data st').
Proof.
  unfold ingest.
  destruct (filter nonEmptyLine (JS.split JS.newline csvText))
    as [|header rows]; [discriminate|].
  intro H. injection H as <-.
  set (c := locateColumns (map cleanField (JS.split JS.comma header))).
  apply (fold_left_invariant
           (fun s => (exists more, dates s = dates st ++ more)
                     /\ trackMetadata s = trackMetadata st
                     /\ Forall (fun e => In (date e) (dates s)) (data s))).
  - split; [|split]; [exists []; now rewrite app_nil_r|reflexivity|constructor].
  - intros s line _ ((m & Hm) & Hmd & Hin).
    destruct (ingestLine_extends c s line) as ((m' & Hm') & Hmd').
    split; [|split].
    + exists (m ++ m'). now rewrite Hm', Hm, app_assoc.
    + now rewrite Hmd'.
    + unfold ingestLine in *.
      destruct (rowEntry parseFloat c (parseCSVLine line)) as [e|];
        [|exact Hin].
      cbn [dates data] in *. apply Forall_app. split.
      * eapply Forall_impl; [|exact Hin]. intros e0 He0.
        rewrite Hm'. apply in_or_app. now left.
      * constructor; [|constructor]. unfold JS.setAdd.
        destruct (JS.includes (date e) (dates s)) eqn:Hi.
        -- now apply includes_In.
        -- apply in_or_app. right. now left.
Qed.

End LoadsMore.

(** ** Feature engineering *)

Section EngineerLoops.

Import DataLoader SpecDerived.

Lemma momentumFrom_zipSet (prev : Q) (td : list (nat * Entry)) :
  momentumFrom prev td = zipSet setMomentum td (diffs prev (streamsOf td)).
Proof.
  revert prev. induction td as [|[i e] td IH]; intro prev; simpl.
  - reflexivity.
  - now rewrite IH.
Qed.

Lemma ma3From_zipSet (prev2 prev1 : Q) (td : list (nat * Entry)) :
  ma3From prev2 prev1 td = zipSet setMa3 td (means3 prev2 prev1 (streamsOf td)).
Proof.
  revert prev2 prev1. induction td as [|[i e] td IH]; intros prev2 prev1; simpl.
  - reflexivity.
  - now rewrite IH.
Qed.

Lemma streamsOf_zipSet_momentum (td : list (nat * Entry)) (vs : list Q) :
  streamsOf (zipSet setMomentum td vs) = streamsOf td.
Proof.
  revert vs. induction td as [|[i e] td IH]; intros [|v vs]; simpl; trivial.
  now rewrite IH.
Qed.

(** The three passes over the rows of one track compute the derived
    features of the specification. *)
Lemma engineered_derived (td : list (nat * Entry)) :
  td <> [] -> fillInitial (ma3Loop (momentumLoop td)) = Some (derived td).
Proof.
  intro Hne. unfold derived.
  destruct td as [|[i0 e0] [|[i1 e1] rest]]; [contradiction| |].
  - reflexivity.
  - cbn [momentumLoop momentumFrom ma3Loop fillInitial streamsOf map snd
           momentumOf diffs ma3Of zipSet].
    rewrite ma3From_zipSet, momentumFrom_zipSet.
    fold (streamsOf rest). rewrite streamsOf_zipSet_momentum.
    reflexivity.
Qed.

Lemma zipSet_fst (set : Q -> Entry -> Entry) (td : list (nat * Entry))
    (vs : list Q) :
  map fst (zipSet set td vs) = map fst td.
Proof.
  revert vs. induction td as [|[i e] td IH]; intros [|v vs]; simpl; trivial.
  now rewrite IH.
Qed.

Lemma zipSet_clear (set : Q -> Entry -> Entry) (td : list (nat * Entry))
    (vs : list Q) :
  (forall v e, clearDerived (set v e) = clearDerived e) ->
  map (fun ie => clearDerived (snd ie)) (zipSet set td vs)
  = map (fun ie => clearDerived (snd ie)) td.
Proof.
  intro Hset. revert vs.
  induction td as [|[i e] td IH]; intros [|v vs]; simpl; trivial.
  now rewrite IH, Hset.
Qed.

Lemma diffs_length (prev : Q) (ss : list Q) :
  List.length (diffs prev ss) = List.length ss.
Proof. revert prev. induction ss; intro prev; simpl; auto. Qed.

Lemma means3_length (p2 p1 : Q) (ss : list Q) :
  List.length (means3 p2 p1 ss) = List.length ss.
Proof. revert p2 p1. induction ss; intros p2 p1; simpl; auto. Qed.

Lemma momentumOf_length (ss : list Q) :
  List.length (momentumOf ss) = List.length ss.
Proof. destruct ss; simpl; [reflexivity|]. now rewrite diffs_length. Qed.

Lemma ma3Of_length (ss : list Q) : List.length (ma3Of ss) = List.length ss.
Proof.
  destruct ss as [|s0 [|s1 ss]]; simpl; trivial. now rewrite means3_length.
Qed.

Lemma zipSet_momentum_values (td : list (nat * Entry)) (vs : list Q) :
  List.length vs = List.length td ->
  map (fun ie => streams_momentum (snd ie)) (zipSet setMomentum td vs)
  = map Some vs.
Proof.
  revert vs. induction td as [|[i e] td IH]; intros [|v vs] H; simpl in *;
    try discriminate; trivial.
  f_equal. apply IH. lia.
Qed.

Lemma zipSet_ma3_values (td : list (nat * Entry)) (vs : list Q) :
  List.length vs = List.length td ->
  map (fun ie => streams_ma3 (snd ie)) (zipSet setMa3 td vs) = map Some vs.
Proof.
  revert vs. induction td as [|[i e] td IH]; intros [|v vs] H; simpl in *;
    try discriminate; trivial.
  f_equal. apply IH. lia.
Qed.

Lemma zipSet_ma3_keeps_momentum (td : list (nat * Entry)) (vs : list Q) :
  map (fun ie => streams_momentum (snd ie)) (zipSet setMa3 td vs)
  = map (fun ie => streams_momentum (snd ie)) td.
Proof.
  revert vs. induction td as [|[i e] td IH]; intros [|v vs]; simpl; trivial.
  now rewrite IH.
Qed.

Lemma streamsOf_length (td : list (nat * Entry)) :
  List.length (streamsOf td) = List.length td.
Proof. apply length_map. Qed.

Lemma zipSet_length (set : Q -> Entry -> Entry) (td : list (nat * Entry))
    (vs : list Q) :
  List.length (zipSet set td vs) = List.length td.
Proof. rewrite <- (length_map fst), zipSet_fst. apply length_map. Qed.

(** What [derived] keeps and what it sets. *)
Lemma derived_facts (td : list (nat * Entry)) :
  map fst (derived td) = map fst td
  /\ map (fun ie => clearDerived (snd ie)) (derived td)
     = map (fun ie => clearDerived (snd ie)) td
  /\ map (fun ie => streams_momentum (snd ie)) (derived td)
     = map Some (momentumOf (streamsOf td))
  /\ map (fun ie => streams_ma3 (snd ie)) (derived td)
     = map Some (ma3Of (streamsOf td)).
Proof.
  unfold derived. split; [|split; [|split]].
  - now rewrite !zipSet_fst.
  - rewrite !zipSet_clear; trivial.
  - rewrite zipSet_ma3_keeps_momentum. apply zipSet_momentum_values.
    now rewrite momentumOf_length, streamsOf_length.
  - apply zipSet_ma3_values.
    now rewrite ma3Of_length, zipSet_length, streamsOf_length.
Qed.

End EngineerLoops.

(** *** Positions in the table *)

Section Indexed.

Context {A : Type}.

Lemma combine_seq_nth (d : list A) (start i : nat) (e : A) :
  In (i, e) (combine (seq start (List.length d)) d)
  <-> (start <= i)%nat /\ nth_error d (i - start) = Some e.
Proof.
  revert start. induction d as [|x d IH]; intro start; simpl.
  - split; [contradiction|]. intros [_ H]. now destruct (i - start)%nat.
  - rewrite IH. split.
    + intros [H|[Hle H]].
      * injection H as <- <-. split; [lia|]. now rewrite Nat.sub_diag.
      * split; [lia|]. replace (i - start)%nat with (S (i - S start)) by lia.
        exact H.
    + intros [Hle H]. destruct (Nat.eq_dec i start) as [->|Hne].
      * rewrite Nat.sub_diag in H. left. simpl in H. now injection H as ->.
      * right. split; [lia|].
        replace (i - start)%nat with (S (i - S start)) in H by lia. exact H.
Qed.

Lemma combine_seq_fst (d : list A) (start : nat) :
  map fst (combine (seq start (List.length d)) d) = seq start (List.length d).
Proof.
  revert start. induction d as [|x d IH]; intro start; simpl; [reflexivity|].
  now rewrite IH.
Qed.

Lemma combine_seq_snd (d : list A) (start : nat) :
  map snd (combine (seq start (List.length d)) d) = d.
Proof.
  revert start. induction d as [|x d IH]; intro start; simpl; [reflexivity|].
  now rewrite IH.
Qed.

Lemma combine_seq_map {B : Type} (g : nat * A -> B) (d : list A) (start : nat) :
  combine (seq start (List.length d))
    (map g (combine (seq start (List.length d)) d))
  = map (fun ie => (fst ie, g ie)) (combine (seq start (List.length d)) d).
Proof.
  revert start. induction d as [|x d IH]; intro start; simpl; [reflexivity|].
  now rewrite IH.
Qed.

End Indexed.

Lemma filter_map_comm {A B : Type} (p : B -> bool) (g : A -> B) (l : list A) :
  filter p (map g l) = map g (filter (fun x => p (g x)) l).
Proof.
  induction l as [|x l IH]; simpl; [reflexivity|].
  destruct (p (g x)); simpl; now rewrite IH.
Qed.

Lemma filter_ext_on {A : Type} (p q : A -> bool) (l : list A) :
  (forall x, In x l -> p x = q x) -> filter p l = filter q l.
Proof.
  induction l as [|x l IH]; intro H; simpl; [reflexivity|].
  rewrite (H x) by now left.
  rewrite IH by (intros y Hy; apply H; now right). reflexivity.
Qed.

Lemma insert_map_on {A B : Type} (le : A -> A -> bool) (le' : B -> B -> bool)
    (g : A -> B) (x : A) (l : list A) :
  (forall y, In y l -> le' (g x) (g y) = le x y) ->
  JS.insert le' (g x) (map g l) = map g (JS.insert le x l).
Proof.
  induction l as [|y l IH]; intro H; simpl; [reflexivity|].
  rewrite (H y) by now left. destruct (le x y); [reflexivity|].
  simpl. f_equal. apply IH. intros z Hz. apply H. now right.
Qed.

(** Sorting commutes with a map that keeps the order of the elements. *)
Lemma sortBy_map_on {A B : Type} (le : A -> A -> bool) (le' : B -> B -> bool)
    (g : A -> B) (l : list A) :
  (forall x y, In x l -> In y l -> le' (g x) (g y) = le x y) ->
  JS.sortBy le' (map g l) = map g (JS.sortBy le l).
Proof.
  induction l as [|x l IH]; intro H; simpl; [reflexivity|].
  rewrite IH by (intros a b Ha Hb; apply H; now right).
  apply insert_map_on. intros y Hy. apply H; [now left|right].
  now apply (Permutation_in _ (sortBy_perm le l)).
Qed.

(** Dropping elements keeps the images distinct. *)
Lemma filter_keeps_distinct {K V : Type} (keep : V -> bool) (key : V -> K)
    (rows : list V) (Hdistinct : NoDup (map key rows)) :
  NoDup (map key (filter keep rows)).
Proof.
  induction rows as [|r rows IH]; simpl in *; [constructor|].
  apply NoDup_cons_iff in Hdistinct. destruct Hdistinct as [Hfresh Hrest].
  destruct (keep r); simpl; [|now apply IH].
  apply NoDup_cons; [|now apply IH].
  rewrite in_map_iff. intros (r' & Hkey & Hin).
  apply filter_In in Hin. apply Hfresh.
  rewrite in_map_iff. exists r'. tauto.
Qed.

Lemma find_by_index {A : Type} (l : list (nat * A)) (b : nat * A) :
  NoDup (map fst l) -> In b l ->
  find (fun je => Nat.eqb (fst je) (fst b)) l = Some b.
Proof.
  induction l as [|x l IH]; intros Hnd Hin; [contradiction|].
  inversion Hnd as [|? ? Hnot Hnd']; subst. simpl.
  destruct Hin as [->|Hin].
  - now rewrite Nat.eqb_refl.
  - destruct (Nat.eqb_spec (fst x) (fst b)) as [Heq|_]; [|now apply IH].
    exfalso. apply Hnot. rewrite Heq. now apply in_map.
Qed.

Lemma find_by_index_none {A : Type} (l : list (nat * A)) (i : nat) :
  ~ In i (map fst l) -> find (fun je => Nat.eqb (fst je) i) l = None.
Proof.
  induction l as [|x l IH]; intro H; simpl; [reflexivity|].
  destruct (Nat.eqb_spec (fst x) i) as [Heq|_].
  - exfalso. apply H. left. exact Heq.
  - apply IH. intro Hin. apply H. now right.
Qed.

Lemma Forall2_refine {A B : Type} (R S : A -> B -> Prop) (l : list A)
    (l' : list B) :
  Forall2 R l l' ->
  (forall a b, In a l -> In b l' -> R a b -> S a b) -> Forall2 S l l'.
Proof.
  induction 1 as [|a b l l' Hab HF IH]; intro H; constructor.
  - apply H; [now left|now left|exact Hab].
  - apply IH. intros a' b' Ha' Hb'. apply H; now right.
Qed.

Lemma Forall2_map_eq {A B C : Type} (f : A -> C) (g : B -> C) (l : list A)
    (l' : list B) :
  Forall2 (fun a b => f a = g b) l l' <-> map f l = map g l'.
Proof.
  split.
  - induction 1; simpl; congruence.
  - revert l'. induction l as [|a l IH]; intros [|b l'] H; simpl in H;
      try discriminate; constructor.
    + now injection H.
    + apply IH. now injection H.
Qed.

Section EngineerTrack.

Import DataLoader SpecDerived.

Variable localeCompare : string -> string -> Q.
Variable t : string.
Variable d : list Entry.

Local Abbreviation isT :=
  (fun ie : nat * Entry => String.eqb (track_id (snd ie)) t).
Local Abbreviation leP :=
  (fun a b : nat * Entry =>
     Qle_bool (localeCompare (date (snd a)) (date (snd b))) 0).
Local Abbreviation td0 := (JS.sortBy leP (filter isT (indexed d))).
Local Abbreviation back :=
  (fun ie : nat * Entry =>
     match find (fun je => Nat.eqb (fst je) (fst ie)) (derived td0) with
     | Some je => snd je
     | None => snd ie
     end).

Lemma indexed_In (i : nat) (e : Entry) :
  In (i, e) (indexed d) <-> nth_error d i = Some e.
Proof.
  unfold indexed. rewrite combine_seq_nth, Nat.sub_0_r. split; [tauto|].
  intro H. split; [lia|exact H].
Qed.

Lemma td0_In (ie : nat * Entry) :
  In ie td0 <-> In ie (indexed d) /\ isT ie = true.
Proof.
  rewrite <- filter_In. split; apply Permutation_in;
    [|symmetry]; apply sortBy_perm.
Qed.

Lemma td0_NoDup : NoDup (map fst td0).
Proof.
  eapply Permutation_NoDup.
  - symmetry. apply Permutation_map. apply sortBy_perm.
  - apply filter_keeps_distinct. unfold indexed. rewrite combine_seq_fst.
    apply seq_NoDup.
Qed.

Lemma td0_rows : map snd td0 = trackRows localeCompare t d.
Proof.
  unfold trackRows, JS.sortWith.
  replace (filter (fun e => String.eqb (track_id e) t) d)
    with (map snd (filter isT (indexed d))).
  - symmetry. apply sortBy_map_on. reflexivity.
  - rewrite <- (filter_map_comm (fun e => String.eqb (track_id e) t) snd).
    unfold indexed. now rewrite combine_seq_snd.
Qed.

(** The rows of the track and their derived versions, pairwise. *)
Lemma derived_paired :
  Forall2 (fun a b => fst a = fst b
                      /\ clearDerived (snd a) = clearDerived (snd b))
    td0 (derived td0).
Proof.
  destruct (derived_facts td0) as (Hfst & Hclear & _).
  apply Forall2_map_eq in Hfst, Hclear.
  revert Hfst Hclear. generalize (derived td0).
  induction td0 as [|a l IH]; intros l' Hf Hc;
    inversion Hf; subst; inversion Hc; subst; constructor; auto.
Qed.

Lemma back_row (ie : nat * Entry) :
  In ie (indexed d) ->
  (isT ie = false -> back ie = snd ie)
  /\ clearDerived (back ie) = clearDerived (snd ie).
Proof.
  intro Hin. destruct (isT ie) eqn:HT.
  - split; [discriminate|].
    assert (Ha : In ie td0) by (apply td0_In; now split).
    pose proof derived_paired as HF.
    assert (Hb : exists b, In b (derived td0) /\ fst ie = fst b
                           /\ clearDerived (snd ie) = clearDerived (snd b)).
    { clear -Ha HF. induction HF as [|a b l l' Hab _ IH]; [contradiction|].
      destruct Ha as [->|Ha].
      - exists b. split; [now left|exact Hab].
      - destruct (IH Ha) as (b' & Hb' & H). exists b'. split; [now right|exact H]. }
    destruct Hb as (b & Hb & Hfst & Hclear).
    rewrite Hfst, (find_by_index (derived td0) b); [now symmetry|
      destruct (derived_facts td0) as (-> & _); apply td0_NoDup|exact Hb].
  - assert (Hnone : find (fun je => Nat.eqb (fst je) (fst ie)) (derived td0) = None).
    { apply find_by_index_none.
      destruct (derived_facts td0) as (-> & _).
      intro Hi. apply in_map_iff in Hi. destruct Hi as (a & Hfst & Ha).
      apply td0_In in Ha. destruct Ha as [Ha HTa].
      destruct a as [i e0], ie as [i' e]. simpl in Hfst. subst i'.
      apply indexed_In in Ha, Hin. rewrite Ha in Hin. injection Hin as ->.
      simpl in *. congruence. }
    rewrite Hnone. split; reflexivity.
Qed.

Lemma back_positions : map back td0 = map snd (derived td0).
Proof.
  apply Forall2_map_eq.
  eapply Forall2_refine; [apply derived_paired|].
  intros a b Ha Hb [Hfst _]. cbv beta.
  rewrite Hfst, (find_by_index (derived td0) b); [reflexivity| |exact Hb].
  destruct (derived_facts td0) as (-> & _). apply td0_NoDup.
Qed.

Lemma clearDerived_track (a b : Entry) :
  clearDerived a = clearDerived b ->
  track_id a = track_id b /\ date a = date b /\ streams a = streams b.
Proof.
  intro H.
  change (track_id (clearDerived a) = track_id (clearDerived b)
          /\ date (clearDerived a) = date (clearDerived b)
          /\ streams (clearDerived a) = streams (clearDerived b)).
  now rewrite H.
Qed.

Lemma writeBack_clear :
  map clearDerived (writeBack (derived td0) d) = map clearDerived d.
Proof.
  unfold writeBack. rewrite map_map.
  rewrite <- (combine_seq_snd d 0) at 2. fold (indexed d). rewrite map_map.
  apply map_ext_in. intros ie Hin. now apply back_row.
Qed.

Lemma writeBack_other (t2 : string) :
  t2 <> t ->
  filter (fun e => String.eqb (track_id e) t2) (writeBack (derived td0) d)
  = filter (fun e => String.eqb (track_id e) t2) d.
Proof.
  intro Hne. unfold writeBack. rewrite filter_map_comm.
  pose proof back_row as Hback. revert Hback.
  generalize (derived td0). intros td' Hback.
  rewrite (filter_ext_on _ (fun ie => String.eqb (track_id (snd ie)) t2)).
  - rewrite (map_ext_in _ snd).
    + rewrite <- (filter_map_comm (fun e => String.eqb (track_id e) t2) snd).
      unfold indexed. now rewrite combine_seq_snd.
    + intros ie Hin. apply filter_In in Hin. destruct Hin as [Hin Ht2].
      apply Hback; [exact Hin|].
      apply String.eqb_eq in Ht2. apply String.eqb_neq. congruence.
  - intros ie Hin. destruct (Hback ie Hin) as [_ Hc].
    apply clearDerived_track in Hc. destruct Hc as (-> & _). reflexivity.
Qed.

Lemma writeBack_rows :
  trackRows localeCompare t (writeBack (derived td0) d) = map snd (derived td0).
Proof.
  unfold trackRows, JS.sortWith, writeBack. rewrite filter_map_comm.
  rewrite <- back_positions.
  pose proof back_row as Hback. revert Hback.
  generalize (derived td0). intros td' Hback.
  rewrite (filter_ext_on
             (fun ie => String.eqb
                          (track_id
                             match find (fun je => Nat.eqb (fst je) (fst ie)) td' with
                             | Some je => snd je
                             | None => snd ie
                             end) t) isT).
  - apply (sortBy_map_on leP).
    intros x y Hx Hy. apply filter_In in Hx, Hy.
    destruct (Hback x (proj1 Hx)) as [_ Hcx].
    destruct (Hback y (proj1 Hy)) as [_ Hcy].
    apply clearDerived_track in Hcx, Hcy.
    destruct Hcx as (_ & -> & _), Hcy as (_ & -> & _). reflexivity.
  - intros ie Hin. destruct (Hback ie Hin) as [_ Hc].
    apply clearDerived_track in Hc. destruct Hc as (-> & _). reflexivity.
Qed.

Lemma engineerTrack_cases :
  (td0 = [] /\ engineerTrack localeCompare t d = None
   /\ forall e, In e d -> track_id e <> t)
  \/ (td0 <> [] /\ engineerTrack localeCompare t d = Some (writeBack (derived td0) d)
      /\ exists e, In e d /\ track_id e = t).
Proof.
  unfold engineerTrack, JS.sortWith. destruct td0 as [|a l] eqn:Htd.
  - left. split; [reflexivity|]. split; [reflexivity|].
    intros e He Ht. apply In_nth_error in He. destruct He as [i Hi].
    assert (Hin : In (i, e) td0).
    { apply td0_In. split; [now apply indexed_In|].
      simpl. rewrite Ht. apply String.eqb_refl. }
    rewrite Htd in Hin. contradiction.
  - right. split; [discriminate|].
    rewrite <- Htd, engineered_derived by (rewrite Htd; discriminate).
    split; [reflexivity|].
    assert (Hin : In a td0) by (rewrite Htd; now left).
    apply td0_In in Hin. destruct Hin as [Hin HT]. destruct a as [i e].
    exists e. split.
    + apply indexed_In in Hin. eapply nth_error_In; eauto.
    + now apply String.eqb_eq in HT.
Qed.

End EngineerTrack.

Section EngineerFeatures.

Variable localeCompare : string -> string -> Q.

Import DataLoader SpecDerived.

Lemma clear_tracks (d d' : list Entry) :
  map clearDerived d' = map clearDerived d -> map track_id d' = map track_id d.
Proof.
  intro H.
  change (map track_id d') with (map (fun e => track_id (clearDerived e)) d').
  change (map track_id d) with (map (fun e => track_id (clearDerived e)) d).
  rewrite <- (map_map clearDerived track_id d').
  rewrite <- (map_map clearDerived track_id d). now rewrite H.
Qed.

Lemma no_row_iff (t : string) (d : list Entry) :
  (forall e, In e d -> track_id e <> t) <-> ~ In t (map track_id d).
Proof.
  rewrite in_map_iff. split.
  - intros H (e & He & Hin). now apply (H e Hin).
  - intros H e Hin Ht. apply H. now exists e.
Qed.

Lemma engineerTrack_Some (t : string) (d d' : list Entry) :
  engineerTrack localeCompare t d = Some d' ->
  map clearDerived d' = map clearDerived d
  /\ (forall t2, t2 <> t ->
                 filter (fun e => String.eqb (track_id e) t2) d'
                 = filter (fun e => String.eqb (track_id e) t2) d)
  /\ map streams_momentum (trackRows localeCompare t d')
     = map Some (momentumOf (map streams (trackRows localeCompare t d')))
  /\ map streams_ma3 (trackRows localeCompare t d')
     = map Some (ma3Of (map streams (trackRows localeCompare t d')))
  /\ map clearDerived (trackRows localeCompare t d') = map clearDerived (trackRows localeCompare t d).
Proof.
  intro H.
  destruct (engineerTrack_cases localeCompare t d) as [(_ & Hn & _)|(_ & Hs & _)];
    [congruence|].
  rewrite Hs in H. injection H as <-.
  pose proof (writeBack_clear localeCompare t d) as Hwc.
  pose proof (writeBack_other localeCompare t d) as Hwo.
  pose proof (writeBack_rows localeCompare t d) as Hwr.
  pose proof (td0_rows localeCompare t d) as Hrows.
  revert Hwc Hwo Hwr Hrows.
  generalize (JS.sortBy (fun a b =>
                   Qle_bool (localeCompare (date (snd a)) (date (snd b))) 0)
                (filter (fun ie => String.eqb (track_id (snd ie)) t)
                   (indexed d))).
  intros td Hwc Hwo Hwr Hrows.
  destruct (derived_facts td) as (_ & Hc & Hm & Ha).
  assert (Hvia : forall l : list (nat * Entry),
             map streams (map snd l)
             = map streams (map (fun ie => clearDerived (snd ie)) l))
    by (intro l; rewrite !map_map; reflexivity).
  assert (Hstreams : map streams (map snd (derived td)) = streamsOf td).
  { rewrite Hvia, Hc, <- Hvia, map_map. reflexivity. }
  split; [exact Hwc|]. split; [exact Hwo|].
  rewrite Hwr, Hstreams, !map_map. split; [exact Hm|]. split; [exact Ha|].
  rewrite <- Hrows, map_map. exact Hc.
Qed.

Lemma engineerLoop_clear (ts : list string) (d d' : list Entry) :
  engineerLoop localeCompare ts d = Some d' -> map clearDerived d' = map clearDerived d.
Proof.
  revert d. induction ts as [|t ts IH]; intros d H; simpl in H.
  - now injection H as <-.
  - destruct (engineerTrack localeCompare t d) as [d1|] eqn:H1; [|discriminate].
    apply engineerTrack_Some in H1. destruct H1 as (Hc & _).
    now rewrite (IH _ H), Hc.
Qed.

Lemma engineerLoop_None (ts : list string) (d : list Entry) :
  engineerLoop localeCompare ts d = None
  <-> exists t, In t ts /\ forall e, In e d -> track_id e <> t.
Proof.
  revert d. induction ts as [|t ts IH]; intro d; simpl.
  - split; [discriminate|]. now intros (t & [] & _).
  - destruct (engineerTrack_cases localeCompare t d) as [(_ & Hn & Hno)|(_ & Hs & Hrow)].
    + rewrite Hn. split; [|reflexivity]. intros _. exists t. split; [now left|exact Hno].
    + rewrite Hs. rewrite IH.
      assert (Htr : map track_id (writeBack (SpecDerived.derived
                (JS.sortBy (fun a b =>
                   Qle_bool (localeCompare (date (snd a)) (date (snd b))) 0)
                   (filter (fun ie => String.eqb (track_id (snd ie)) t)
                      (indexed d)))) d) = map track_id d)
        by (apply clear_tracks, writeBack_clear).
      split.
      * intros (t' & Hin & Hno). exists t'. split; [now right|].
        apply no_row_iff. rewrite <- Htr. now apply no_row_iff.
      * intros (t' & [<-|Hin] & Hno).
        -- destruct Hrow as (e & He & Ht). now apply Hno in He.
        -- exists t'. split; [exact Hin|].
           apply no_row_iff. rewrite Htr. now apply no_row_iff.
Qed.

Lemma engineerLoop_frame (ts : list string) (d d' : list Entry) (t : string) :
  engineerLoop localeCompare ts d = Some d' -> ~ In t ts ->
  filter (fun e => String.eqb (track_id e) t) d'
  = filter (fun e => String.eqb (track_id e) t) d.
Proof.
  revert d. induction ts as [|t1 ts IH]; intros d H Hnot; simpl in H.
  - now injection H as <-.
  - destruct (engineerTrack localeCompare t1 d) as [d1|] eqn:H1; [|discriminate].
    apply engineerTrack_Some in H1. destruct H1 as (_ & Hother & _).
    rewrite (IH _ H) by (intro Hin; apply Hnot; now right).
    apply Hother. intros ->. apply Hnot. now left.
Qed.

Lemma engineerLoop_values (ts : list string) (d d' : list Entry) (t : string) :
  engineerLoop localeCompare ts d = Some d' -> In t ts ->
  map streams_momentum (trackRows localeCompare t d')
  = map Some (momentumOf (map streams (trackRows localeCompare t d')))
  /\ map streams_ma3 (trackRows localeCompare t d')
     = map Some (ma3Of (map streams (trackRows localeCompare t d'))).
Proof.
  revert d. induction ts as [|t1 ts IH]; intros d H Hin; [contradiction|].
  simpl in H. destruct (engineerTrack localeCompare t1 d) as [d1|] eqn:H1; [|discriminate].
  destruct (in_dec string_dec t ts) as [Hts|Hts]; [now apply (IH d1)|].
  destruct Hin as [->|Hin]; [|contradiction].
  apply engineerTrack_Some in H1. destruct H1 as (_ & _ & Hm & Ha & _).
  unfold trackRows, JS.sortWith in *. rewrite (engineerLoop_frame ts d1 d' t H Hts).
  now split.
Qed.

(** X3.  [engineerFeatures] throws exactly when a selected track has no row;
    otherwise it changes nothing but the two derived features of the rows:
    the table keeps its rows, in their order, with all their other fields. *)
Theorem engineerFeatures_throws (st : Loader) :
  (engineerFeatures localeCompare st = None
   <-> exists t, In t (selectedTracks st)
                 /\ forall e, In e (data st) -> track_id e <> t)
  /\ (forall st', engineerFeatures localeCompare st = Some st' ->
        map clearDerived (data st') = map clearDerived (data st)
        /\ st' = setData st (data st')).
Proof.
  unfold engineerFeatures. split.
  - rewrite <- engineerLoop_None.
    destruct (engineerLoop localeCompare (selectedTracks st) (data st));
      split; congruence.
  - intros st' H.
    destruct (engineerLoop localeCompare (selectedTracks st) (data st)) as [d|] eqn:Hd;
      [|discriminate].
    injection H as <-. split; [|reflexivity].
    now apply engineerLoop_clear in Hd.
Qed.

Lemma engineerLoop_defined (ts : list string) (d d' : list Entry) (e : Entry) :
  engineerLoop localeCompare ts d = Some d' -> In e d' -> In (track_id e) ts ->
  streams_momentum e <> None /\ streams_ma3 e <> None.
Proof.
  intros H He Ht.
  destruct (engineerLoop_values _ _ _ (track_id e) H Ht) as [Hm Ha].
  assert (Hrow : In e (trackRows localeCompare (track_id e) d')).
  { unfold trackRows, JS.sortWith.
    apply (Permutation_in _ (Permutation_sym (sortBy_perm _ _))).
    apply filter_In. split; [exact He|]. apply String.eqb_refl. }
  split.
  - apply (in_map streams_momentum) in Hrow. rewrite Hm in Hrow.
    apply in_map_iff in Hrow. destruct Hrow as (v & <- & _). discriminate.
  - apply (in_map streams_ma3) in Hrow. rewrite Ha in Hrow.
    apply in_map_iff in Hrow. destruct Hrow as (v & <- & _). discriminate.
Qed.

(** X4.  After [engineerFeatures] the rows of a selected track, taken in the
    order in which [localeCompare] puts their dates, carry as momentum 0 and
    then the differences of consecutive streams, and as moving average the
    streams of the first, the mean of the first two, and then the means of
    three consecutive streams; so no row of a selected track is left without
    its derived features.  This holds whatever the collation of the host. *)
Theorem engineerFeatures_values (st st' : Loader) (t : string) :
  engineerFeatures localeCompare st = Some st' -> In t (selectedTracks st) ->
  let rows := trackRows localeCompare t (data st') in
  map streams_momentum rows = map Some (momentumOf (map streams rows))
  /\ map streams_ma3 rows = map Some (ma3Of (map streams rows))
  /\ map streams rows = map streams (trackRows localeCompare t (data st))
  /\ (forall e, In e (data st') -> track_id e = t ->
                streams_momentum e <> None /\ streams_ma3 e <> None).
Proof.
  intros H Hin rows. unfold engineerFeatures in H.
  destruct (engineerLoop localeCompare (selectedTracks st) (data st)) as [d|] eqn:Hd;
    [|discriminate].
  injection H as <-. cbn [data setData] in rows.
  destruct (engineerLoop_values _ _ _ t Hd Hin) as [Hm Ha]. fold rows in Hm, Ha.
  split; [exact Hm|]. split; [exact Ha|]. split.
  - apply engineerLoop_clear in Hd. unfold rows, trackRows.
    assert (Hgen : forall d1 d2 : list Entry,
               map clearDerived d1 = map clearDerived d2 ->
               map streams
                 (JS.sortBy (fun a b => Qle_bool (localeCompare (date a) (date b)) 0)
                    (filter (fun e => String.eqb (track_id e) t) d1))
               = map streams
                   (JS.sortBy (fun a b => Qle_bool (localeCompare (date a) (date b)) 0)
                      (filter (fun e => String.eqb (track_id e) t) d2))).
    { intros d1 d2 Hc.
      assert (Hs : forall l : list Entry,
                 map streams
                   (JS.sortBy (fun a b => Qle_bool (localeCompare (date a) (date b)) 0)
                      (filter (fun e => String.eqb (track_id e) t) l))
                 = map streams
                     (JS.sortBy (fun a b => Qle_bool (localeCompare (date a) (date b)) 0)
                        (filter (fun e => String.eqb (track_id e) t)
                           (map clearDerived l)))).
      { intro l. rewrite filter_map_comm.
        rewrite (sortBy_map_on (fun a b => Qle_bool (localeCompare (date a) (date b)) 0))
          by reflexivity.
        rewrite map_map. reflexivity. }
      now rewrite (Hs d1), (Hs d2), Hc. }
    now apply Hgen.
  - intros e He Ht. apply (engineerLoop_defined _ _ _ e Hd He).
    now rewrite Ht.
Qed.

End EngineerFeatures.

Section EngineerFeaturesRuns.

Import DataLoader Spec SpecDerived Fixtures.

Local Open Scope string_scope.
Local Open Scope list_scope.

Lemma engineerFeatures_throws_witness :
  engineerFeatures compareDates
    (mkLoader [row "2024-01-01" "A" 1] [] [] None None None None [] [] ["B"])
  = None
  /\ exists st',
       engineerFeatures compareDates
         (selectTopTracks 10 (setData constructor abcRows))
       = Some st'
       /\ map clearDerived (data st') = map clearDerived abcRows.
Proof.
  split.
  - apply (engineerFeatures_throws compareDates
             (mkLoader [row "2024-01-01" "A" 1] [] [] None None None None []
                [] ["B"])).
    exists "B". split; [left; reflexivity|].
    intros e [<-|[]]. discriminate.
  - eexists. split; [vm_compute; reflexivity|].
    destruct (engineerFeatures_throws compareDates
                (selectTopTracks 10 (setData constructor abcRows)))
      as [_ H].
    apply H. vm_compute. reflexivity.
Defined.

(** Two rows of one track whose dates a collation orders against their
    code units: the row of [a] comes first and has momentum 0, the row of [B]
    has momentum 30 - 10. *)
Lemma engineerFeatures_values_witness :
  let st := mkLoader [row "B" "A" 30; row "a" "A" 10] [] [] None None None
              None [] [] ["A"] in
  exists st',
    engineerFeatures compareFolded st = Some st'
    /\ In "A" (selectedTracks st)
    /\ map date (trackRows compareFolded "A" (data st')) = ["a"; "B"]
    /\ map streams_momentum (trackRows compareFolded "A" (data st'))
       = map Some
           (momentumOf (map streams (trackRows compareFolded "A" (data st'))))
    /\ momentumOf (map streams (trackRows compareFolded "A" (data st')))
       = [0; 20].
Proof.
  intro st. eexists. split; [vm_compute; reflexivity|].
  split; [left; reflexivity|]. split; [vm_compute; reflexivity|].
  split; [|vm_compute; reflexivity].
  eapply (engineerFeatures_values compareFolded st _ "A").
  - vm_compute. reflexivity.
  - left. reflexivity.
Defined.

End EngineerFeaturesRuns.

(** ** Loading: what a load keeps, when it throws, headers without a column *)

Lemma clear_dates (d d' : list DataLoader.Entry) :
  map SpecDerived.clearDerived d' = map SpecDerived.clearDerived d ->
  map DataLoader.date d' = map DataLoader.date d.
Proof.
  intro H.
  change (map DataLoader.date d')
    with (map (fun e => DataLoader.date (SpecDerived.clearDerived e)) d').
  change (map DataLoader.date d)
    with (map (fun e => DataLoader.date (SpecDerived.clearDerived e)) d).
  rewrite <- (map_map SpecDerived.clearDerived DataLoader.date d').
  rewrite <- (map_map SpecDerived.clearDerived DataLoader.date d).
  now rewrite H.
Qed.

Lemma filter_nil_iff {A : Type} (p : A -> bool) (l : list A) :
  filter p l = [] <-> forall x, In x l -> p x = false.
Proof.
  induction l as [|x l IH]; simpl.
  - split; [now intros _ y []|reflexivity].
  - destruct (p x) eqn:Hx.
    + split; [discriminate|]. intro H. rewrite (H x) in Hx by now left.
      discriminate.
    + rewrite IH. split.
      * intros H y [<-|Hy]; [exact Hx|now apply H].
      * intros H y Hy. apply H. now right.
Qed.

Lemma nonEmptyLine_false (line : string) :
  DataLoader.nonEmptyLine line = false <-> JS.trim line = EmptyString.
Proof.
  unfold DataLoader.nonEmptyLine, JS.truthy.
  destruct (JS.trim line); split; congruence.
Qed.

Section LoadsThrough.

Import DataLoader Spec SpecDerived.

Variable parseFloat : string -> option Q.
Variable localeCompare : string -> string -> Q.

Lemma engineer_selected (n : nat) (st : Loader) :
  engineerFeatures localeCompare (selectTopTracks n st) <> None.
Proof.
  unfold engineerFeatures.
  destruct (engineerLoop _ _) as [d|] eqn:Hd; [discriminate|].
  apply engineerLoop_None in Hd. destruct Hd as (t & Hin & Hno).
  cbn [selectedTracks data selectTopTracks] in Hin, Hno.
  destruct (selected_has_row _ _ _ Hin) as (e & He & Ht).
  exfalso. apply (Hno e); [|exact Ht].
  apply filter_In. split; [exact He|].
  rewrite Ht. unfold JS.includes. apply existsb_exists.
  exists t. split; [exact Hin|apply String.eqb_refl].
Qed.

(** X13.  Loading a text into a loader never forgets: the dates known before
    stay, in their places, at the head of the dates, and the keys of the
    metadata map stay at the head of its keys; the dates remain without
    duplicates, and the date of every stored row is one of them. *)
Theorem parseCSV_accumulates (st st' : Loader) (csvText : string) :
  parseCSV parseFloat localeCompare st csvText = Some st' ->
  (exists more, dates st' = dates st ++ more)
  /\ (exists more,
         JS.mapKeys (trackMetadata st') = JS.mapKeys (trackMetadata st) ++ more)
  /\ (NoDup (dates st) -> NoDup (dates st'))
  /\ Forall (fun e => In (date e) (dates st')) (data st').
Proof.
  intro H. pose proof H as Hnd. unfold parseCSV in H.
  destruct (ingest parseFloat st csvText) as [st1|] eqn:H1; [|discriminate].
  apply ingest_extends in H1. destruct H1 as (Hdates & Hmd & Hrows).
  unfold engineerFeatures in H.
  destruct (engineerLoop _ _) as [d|] eqn:Hd; [|discriminate].
  injection H as <-. cbn [dates trackMetadata data setData].
  split; [exact Hdates|]. split; [|split].
  - rewrite metadata_fold, mapKeys_fold_mapSet, Hmd. apply fold_setAdd_extends.
  - intro Hn. apply (parseCSV_dates_NoDup parseFloat localeCompare _ _ _ Hn) in Hnd.
    exact Hnd.
  - apply engineerLoop_clear, clear_dates in Hd.
    cbn [data selectTopTracks] in Hd.
    apply Forall_forall. intros e He.
    apply (in_map date) in He. rewrite Hd in He.
    apply in_map_iff in He. destruct He as (e0 & <- & He0).
    apply filter_In in He0. destruct He0 as [He0 _].
    rewrite Forall_forall in Hrows. now apply Hrows.
Qed.

(** X14.  After a load at most ten tracks are selected, every stored row is a
    row of a selected track, and every stored row has its two derived
    features. *)
Theorem parseCSV_rows (st st' : Loader) (csvText : string) :
  parseCSV parseFloat localeCompare st csvText = Some st' ->
  (List.length (selectedTracks st') <= 10)%nat
  /\ NoDup (selectedTracks st')
  /\ Forall
       (fun e => In (track_id e) (selectedTracks st')
                 /\ streams_momentum e <> None /\ streams_ma3 e <> None)
       (data st').
Proof.
  unfold parseCSV.
  destruct (ingest parseFloat st csvText) as [st1|]; [|discriminate].
  unfold engineerFeatures.
  destruct (engineerLoop _ _) as [d|] eqn:Hd; [|discriminate].
  intro H. injection H as <-. cbn [selectedTracks data setData selectTopTracks].
  cbn [selectedTracks data selectTopTracks] in Hd.
  split; [|split].
  - unfold sortedTracksOf, JS.slice.
    rewrite length_map, length_firstn. lia.
  - apply selected_NoDup.
  - apply Forall_forall. intros e He.
    assert (Ht : In (track_id e)
                   (sortedTracksOf 10 (trackStreamsOf (data st1)))).
    { pose proof (clear_tracks _ _ (engineerLoop_clear _ _ _ _ Hd)) as Htr.
      apply (in_map track_id) in He. rewrite Htr in He.
      apply in_map_iff in He. destruct He as (e0 & <- & He0).
      apply filter_In in He0. destruct He0 as [_ Hin].
      now apply includes_In in Hin. }
    split; [exact Ht|].
    now apply (engineerLoop_defined _ _ _ _ e Hd).
Qed.

(** X15.  [parseCSV] throws exactly on a text all of whose lines are blank; on
    every other text it returns, so the feature engineering that closes the
    load never meets a selected track without a row. *)
Theorem parseCSV_throws (st : Loader) (csvText : string) :
  parseCSV parseFloat localeCompare st csvText = None
  <-> forall line, In line (JS.split JS.newline csvText) ->
                   JS.trim line = EmptyString.
Proof.
  unfold parseCSV, ingest.
  destruct (filter nonEmptyLine (JS.split JS.newline csvText))
    as [|header rows] eqn:Hf.
  - split; [|reflexivity]. intros _ line Hin.
    apply nonEmptyLine_false. revert line Hin. now apply filter_nil_iff.
  - split.
    + intro H. now apply engineer_selected in H.
    + intro H. exfalso.
      assert (Hnil : filter nonEmptyLine (JS.split JS.newline csvText) = []).
      { apply filter_nil_iff. intros line Hin.
        apply nonEmptyLine_false. now apply H. }
      congruence.
Qed.

Lemma rowEntry_unlocated (c : Columns) (values : list string) :
  dateIdx c = (-1)%Z \/ trackIdx c = (-1)%Z ->
  rowEntry parseFloat c values = None.
Proof.
  unfold rowEntry. intros [H|H]; rewrite H;
    destruct (Z.of_nat (List.length values) >=? maxIdx c)%Z; trivial;
    destruct (JS.get values (dateIdx c)); reflexivity.
Qed.

(** X16.  A header row in which no name contains [date], or none contains
    [track], makes the load keep no row at all: it returns without an
    exception, with an empty table and no selected track, and leaves every
    other part of the loader as it was. *)
Theorem parseCSV_unlocated (st : Loader) (csvText header : string)
    (rows : list string) (key : string) :
  filter nonEmptyLine (JS.split JS.newline csvText) = header :: rows ->
  key = "date"%string \/ key = "track"%string ->
  (forall h, In h (map cleanField (JS.split JS.comma header)) ->
             JS.strIncludes key (JS.toLowerCase h) = false) ->
  parseCSV parseFloat localeCompare st csvText
  = Some (mkLoader [] (tracks st) (dates st) (X_train st) (y_train st)
            (X_test st) (y_test st) (trackMetadata st)
            (normalizationParams st) []).
Proof.
  intros Hf Hkey Hno. unfold parseCSV, ingest. rewrite Hf.
  set (c := locateColumns (map cleanField (JS.split JS.comma header))).
  assert (Hc : dateIdx c = (-1)%Z \/ trackIdx c = (-1)%Z).
  { destruct Hkey as [-> | ->]; [left|right]; unfold c; cbn [dateIdx trackIdx locateColumns];
      unfold locate, JS.findIndex; now apply findIndexFrom_none. }
  assert (Hfold : forall s, fold_left (ingestLine parseFloat c) rows s = s).
  { intro s. induction rows as [|r rs IH] in s |- *; [reflexivity|].
    simpl. unfold ingestLine at 2.
    rewrite (rowEntry_unlocated c _ Hc). apply IH. }
  rewrite Hfold. reflexivity.
Qed.

End LoadsThrough.

Section LoadsThroughRuns.

Import DataLoader Spec Fixtures.

Local Open Scope string_scope.
Local Open Scope list_scope.

Lemma parseCSV_accumulates_witness :
  parseCSV parseDecimal compareDates (load csvFirst) csvSecond = Some loadedTwice
  /\ NoDup (dates (load csvFirst))
  /\ (exists more, dates loadedTwice = dates (load csvFirst) ++ more)
  /\ NoDup (dates loadedTwice)
  /\ Forall (fun e => In (date e) (dates loadedTwice)) (data loadedTwice).
Proof.
  assert (H : parseCSV parseDecimal compareDates (load csvFirst) csvSecond = Some loadedTwice)
    by (vm_compute; reflexivity).
  assert (Hn : NoDup (dates (load csvFirst))).
  { vm_compute. constructor; [intros []|constructor]. }
  destruct (parseCSV_accumulates parseDecimal compareDates _ _ _ H) as (Hd & _ & Hnd & Hr).
  split; [exact H|]. split; [exact Hn|]. split; [exact Hd|].
  split; [exact (Hnd Hn)|exact Hr].
Defined.

Lemma parseCSV_rows_witness :
  parseCSV parseDecimal compareDates constructor csv11 = Some loaded11
  /\ (List.length (selectedTracks loaded11) <= 10)%nat
  /\ Forall
       (fun e => In (track_id e) (selectedTracks loaded11)
                 /\ streams_momentum e <> None /\ streams_ma3 e <> None)
       (data loaded11).
Proof.
  assert (H : parseCSV parseDecimal compareDates constructor csv11 = Some loaded11)
    by (vm_compute; reflexivity).
  destruct (parseCSV_rows parseDecimal compareDates _ _ _ H) as (Hlen & _ & Hall).
  split; [exact H|]. split; [exact Hlen|exact Hall].
Defined.

Lemma parseCSV_throws_witness :
  parseCSV parseDecimal compareDates constructor (lines ["  "; ""]) = None.
Proof.
  apply (parseCSV_throws parseDecimal compareDates constructor (lines ["  "; ""])).
  vm_compute. intros line [<-|[<-|[]]]; reflexivity.
Defined.

Lemma parseCSV_unlocated_witness :
  parseCSV parseDecimal compareDates (load csvFirst)
    (lines ["day,track_id,streams"; "2024-01-01,A,10"])
  = Some (mkLoader [] (tracks (load csvFirst)) (dates (load csvFirst))
            (X_train (load csvFirst)) (y_train (load csvFirst))
            (X_test (load csvFirst)) (y_test (load csvFirst))
            (trackMetadata (load csvFirst))
            (normalizationParams (load csvFirst)) []).
Proof.
  apply (parseCSV_unlocated parseDecimal compareDates (load csvFirst)
           (lines ["day,track_id,streams"; "2024-01-01,A,10"])
           "day,track_id,streams" ["2024-01-01,A,10"] "date").
  - vm_compute. reflexivity.
  - left. reflexivity.
  - vm_compute. intros h [<-|[<-|[<-|[]]]]; reflexivity.
Defined.

End LoadsThroughRuns.

(** ** The analysis: accuracy per track *)

Lemma mapSet_fresh {V : Type} (k : string) (v : V) (m : list (string * V)) :
  ~ In k (JS.mapKeys m) -> JS.mapSet k v m = m ++ [(k, v)].
Proof.
  induction m as [|[k' v'] m IH]; simpl; intro H; [reflexivity|].
  destruct (String.eqb_spec k k') as [->|_].
  - exfalso. apply H. now left.
  - rewrite IH; [reflexivity|]. intro Hin. apply H. now right.
Qed.

(** Setting keys that are all new and all different appends them. *)
Lemma fold_mapSet_fresh {B V : Type} (key : B -> string) (val : B -> V)
    (l : list B) (m : list (string * V)) :
  NoDup (JS.mapKeys m ++ map key l) ->
  fold_left (fun m b => JS.mapSet (key b) (val b) m) l m
  = m ++ map (fun b => (key b, val b)) l.
Proof.
  revert m. induction l as [|b l IH]; intros m H; simpl.
  - now rewrite app_nil_r.
  - assert (Hb : ~ In (key b) (JS.mapKeys m)).
    { simpl in H. apply NoDup_remove_2 in H. intro Hin. apply H.
      apply in_or_app. now left. }
    rewrite (mapSet_fresh _ _ _ Hb), IH.
    + now rewrite <- app_assoc.
    + unfold JS.mapKeys in *. rewrite map_app. simpl.
      now rewrite <- app_assoc.
Qed.

Lemma mapGet_NoDup_In {V : Type} (k : string) (v : V) (m : list (string * V)) :
  NoDup (JS.mapKeys m) -> In (k, v) m -> JS.mapGet k m = Some v.
Proof.
  induction m as [|[k' v'] m IH]; simpl; intros Hnd Hin; [contradiction|].
  inversion Hnd as [|? ? Hk Hm]; subst.
  destruct Hin as [Heq|Hin].
  - injection Heq as -> ->. now rewrite String.eqb_refl.
  - destruct (String.eqb_spec k k') as [->|_]; [|now apply IH].
    exfalso. apply Hk. change (In (fst (k', v)) (map fst m)). now apply in_map.
Qed.

Lemma withIndex_fst {A : Type} (l : list A) (s : nat) :
  map fst (combine l (seq s (List.length l))) = l.
Proof.
  revert s. induction l as [|x l IH]; intro s; simpl; [reflexivity|].
  now rewrite IH.
Qed.

Lemma withIndex_nth {A : Type} (l : list A) (s i : nat) (x : A) :
  nth_error l i = Some x -> In (x, (s + i)%nat) (combine l (seq s (List.length l))).
Proof.
  revert s i. induction l as [|y l IH]; intros s [|i] H; simpl in *;
    try discriminate.
  - injection H as ->. left. now rewrite Nat.add_0_r.
  - right. rewrite <- Nat.add_succ_comm. now apply IH.
Qed.

Lemma chunk_length (rows cols : nat) (vs : list Q) :
  List.length (TF.chunk rows cols vs) = rows.
Proof.
  revert vs. induction rows as [|rows IH]; intro vs; simpl; [reflexivity|].
  now rewrite IH.
Qed.

Lemma chunk_width (rows cols : nat) (vs : list Q) (row : list Q) :
  In row (TF.chunk rows cols vs) -> (List.length row <= cols)%nat.
Proof.
  revert vs. induction rows as [|rows IH]; intros vs H; simpl in H;
    [contradiction|].
  destruct H as [<-|H]; [apply firstn_le_length|now apply IH in H].
Qed.

Lemma inject_nat_nonneg (n : nat) : 0 <= inject_Z (Z.of_nat n).
Proof. change 0 with (inject_Z 0). rewrite <- Zle_Qle. lia. Qed.

Lemma inject_nat_pos (n : nat) : (0 < n)%nat -> 0 < inject_Z (Z.of_nat n).
Proof. intro H. change 0 with (inject_Z 0). rewrite <- Zlt_Qlt. lia. Qed.

Lemma inject_nat_le (a b : nat) :
  (a <= b)%nat -> inject_Z (Z.of_nat a) <= inject_Z (Z.of_nat b).
Proof. intro H. rewrite <- Zle_Qle. lia. Qed.

Lemma inject_nat_plus (a b : nat) :
  inject_Z (Z.of_nat (a + b)) == inject_Z (Z.of_nat a) + inject_Z (Z.of_nat b).
Proof. now rewrite Nat2Z.inj_add, inject_Z_plus. Qed.

Lemma inject_nat_mult (a b : nat) :
  inject_Z (Z.of_nat (a * b)) == inject_Z (Z.of_nat a) * inject_Z (Z.of_nat b).
Proof. now rewrite Nat2Z.inj_mul, inject_Z_mult. Qed.

Section TrackAccuracy.

Import GRUModel.

Lemma percent_bounds (c n : nat) :
  (c <= n)%nat -> 0 <= percent c n /\ percent c n <= 100.
Proof.
  intro H. unfold percent. destruct (Nat.ltb_spec 0 n) as [Hn|_]; [|lra].
  pose proof (inject_nat_pos n Hn) as Hpos.
  pose proof (inject_nat_nonneg c) as Hc.
  pose proof (inject_nat_le c n H) as Hle.
  set (qc := inject_Z (Z.of_nat c)) in *.
  set (qn := inject_Z (Z.of_nat n)) in *.
  assert (H0 : 0 <= qc / qn) by (apply Qle_shift_div_l; lra).
  assert (H1 : qc / qn <= 1) by (apply Qle_shift_div_r; lra).
  lra.
Qed.

Lemma percent_full (n : nat) : (0 < n)%nat -> percent n n == 100.
Proof.
  intro Hn. unfold percent. destruct (Nat.ltb_spec 0 n) as [_|]; [|lia].
  pose proof (inject_nat_pos n Hn). field. lra.
Qed.

Lemma percent_full_iff (c n : nat) :
  (c <= n)%nat -> (percent c n == 100 <-> c = n /\ (0 < n)%nat).
Proof.
  intro Hle. unfold percent. destruct (Nat.ltb_spec 0 n) as [Hn|Hn]; cbv iota.
  - pose proof (inject_nat_pos n Hn) as Hpos. split.
    + intro H. split; [|exact Hn].
      assert (Hq : inject_Z (Z.of_nat c) == inject_Z (Z.of_nat n)).
      { set (qc := inject_Z (Z.of_nat c)) in *.
        set (qn := inject_Z (Z.of_nat n)) in *. clearbody qc qn.
        assert (H1 : qc / qn == 1) by lra.
        rewrite <- (Qmult_div_r qc qn) by lra. rewrite H1. ring. }
      rewrite inject_Z_injective in Hq. lia.
    + intros [Heq _]. subst c. field.
      apply Qnot_eq_sym, Qlt_not_eq. exact Hpos.
  - split; [intro H; lra|intros [_ H]; lia].
Qed.

Lemma percent_zero_iff (c n : nat) :
  percent c n == 0 <-> (c = 0 \/ n = 0)%nat.
Proof.
  unfold percent. destruct (Nat.ltb_spec 0 n) as [Hn|Hn]; cbv iota.
  - pose proof (inject_nat_pos n Hn) as Hpos. split.
    + intro H. left.
      assert (Hq : inject_Z (Z.of_nat c) == inject_Z (Z.of_nat 0)).
      { change (inject_Z (Z.of_nat 0)) with 0.
        set (qc := inject_Z (Z.of_nat c)) in *.
        set (qn := inject_Z (Z.of_nat n)) in *. clearbody qc qn.
        assert (H1 : qc / qn == 0) by lra.
        rewrite <- (Qmult_div_r qc qn) by lra. rewrite H1. ring. }
      rewrite inject_Z_injective in Hq. lia.
    + intros [->|H]; [|lia]. simpl. unfold Qdiv. ring.
  - split; [intros _; right; lia|reflexivity].
Qed.

Lemma dayHits_le (predData trueData : list (list Q)) (i k : nat) :
  (dayHits predData trueData i k <= List.length predData)%nat.
Proof.
  unfold dayHits.
  etransitivity; [apply filter_length_le|].
  rewrite length_combine. lia.
Qed.

(** Columns that no row has compare as equal: both sides read
    [undefined], and [undefined > 0.5] is false on both. *)
Lemma dayHits_beyond (predData trueData : list (list Q)) (i k : nat) :
  (List.length predData <= List.length trueData)%nat ->
  (forall row, In row predData -> (List.length row <= 3 * i)%nat) ->
  (forall row, In row trueData -> (List.length row <= 3 * i)%nat) ->
  dayHits predData trueData i k = List.length predData.
Proof.
  intros Hlen Hp Ht. unfold dayHits.
  rewrite (filter_all (hit (i * 3 + k)) (combine predData trueData)).
  - rewrite length_combine. lia.
  - intros [p t] Hin. unfold hit, binarize. cbn [fst snd].
    pose proof (Hp p (in_combine_l _ _ _ _ Hin)) as Hpl.
    pose proof (Ht t (in_combine_r _ _ _ _ Hin)) as Htl.
    assert (Hn1 : nth_error p (i * 3 + k) = None)
      by (apply nth_error_None; lia).
    assert (Hn2 : nth_error t (i * 3 + k) = None)
      by (apply nth_error_None; lia).
    now rewrite Hn1, Hn2.
Qed.

Lemma trackAccuracies_entries (predData trueData : list (list Q))
    (md : list (string * DataLoader.Metadata)) :
  NoDup (JS.mapKeys md) ->
  fold_left
    (fun m ti =>
       JS.mapSet (fst ti)
         (trackAccuracyOf predData trueData md (fst ti) (snd ti)) m)
    (withIndex (JS.mapKeys md)) []
  = map (fun ti => (fst ti,
                    trackAccuracyOf predData trueData md (fst ti) (snd ti)))
      (withIndex (JS.mapKeys md)).
Proof.
  intro Hnd.
  rewrite (fold_mapSet_fresh fst
             (fun ti => trackAccuracyOf predData trueData md (fst ti) (snd ti))).
  - reflexivity.
  - simpl. unfold withIndex. now rewrite withIndex_fst.
Qed.

(** X18.  When [y_true] has a row for every row of the predictions, the report
    has one entry for every key of the metadata map, in the order of the map;
    every accuracy of it lies between 0 and 100, and the accuracy of a track
    is 100 exactly when its three day accuracies are, and 0 exactly when they
    are. *)
Theorem computeTrackSpecificAccuracy_report (predictions y_true : TF.Tensor)
    (md : list (string * DataLoader.Metadata)) :
  NoDup (JS.mapKeys md) ->
  (List.length (TF.arraySync predictions)
   <= List.length (TF.arraySync y_true))%nat ->
  exists accs days,
    computeTrackSpecificAccuracy predictions y_true md = Some (accs, days)
    /\ JS.mapKeys accs = JS.mapKeys md
    /\ Forall
         (fun ta =>
            let a := snd ta in
            let d := dayAccuracies a in
            (0 <= accuracy a /\ accuracy a <= 100)
            /\ (0 <= day1 d /\ day1 d <= 100)
            /\ (0 <= day2 d /\ day2 d <= 100)
            /\ (0 <= day3 d /\ day3 d <= 100)
            /\ (accuracy a == 100
                <-> day1 d == 100 /\ day2 d == 100 /\ day3 d == 100)
            /\ (accuracy a == 0
                <-> day1 d == 0 /\ day2 d == 0 /\ day3 d == 0))
         accs.
Proof.
  intros Hnd Hlen. unfold computeTrackSpecificAccuracy.
  destruct (Nat.leb_spec (List.length (TF.arraySync predictions))
              (List.length (TF.arraySync y_true))) as [_|]; [|lia].
  cbn [orb]. do 2 eexists. split; [reflexivity|].
  rewrite (trackAccuracies_entries _ _ _ Hnd). split.
  - unfold JS.mapKeys at 1. rewrite map_map. cbn [fst].
    unfold withIndex. apply withIndex_fst.
  - apply Forall_forall. intros ta Hin. apply in_map_iff in Hin.
    destruct Hin as ([t i] & <- & _). cbn [fst snd].
    unfold trackAccuracyOf. cbn [accuracy dayAccuracies day1 day2 day3].
    set (pd := TF.arraySync predictions). set (td := TF.arraySync y_true).
    pose proof (dayHits_le pd td i 0) as H0.
    pose proof (dayHits_le pd td i 1) as H1.
    pose proof (dayHits_le pd td i 2) as H2.
    split; [apply percent_bounds; lia|].
    split; [now apply percent_bounds|].
    split; [now apply percent_bounds|].
    split; [now apply percent_bounds|].
    split.
    + rewrite !percent_full_iff by lia. lia.
    + rewrite !percent_zero_iff. lia.
Qed.

(** X19.  The report does not leave out a track whose three columns lie beyond
    the columns of both tensors: the undefined prediction and the undefined
    truth both count as 0, so such a track is reported with accuracy 100 on
    every day. *)
Theorem computeTrackSpecificAccuracy_beyond_columns
    (predictions y_true : TF.Tensor)
    (md : list (string * DataLoader.Metadata)) (i : nat) (t : string) :
  NoDup (JS.mapKeys md) ->
  nth_error (JS.mapKeys md) i = Some t ->
  (0 < nth 0 (TF.shape predictions) 0)%nat ->
  (nth 0 (TF.shape predictions) 0 <= nth 0 (TF.shape y_true) 0)%nat ->
  (nth 1 (TF.shape predictions) 0 <= 3 * i)%nat ->
  (nth 1 (TF.shape y_true) 0 <= 3 * i)%nat ->
  exists accs days a,
    computeTrackSpecificAccuracy predictions y_true md = Some (accs, days)
    /\ JS.mapGet t accs = Some a
    /\ accuracy a == 100
    /\ day1 (dayAccuracies a) == 100
    /\ day2 (dayAccuracies a) == 100
    /\ day3 (dayAccuracies a) == 100.
Proof.
  intros Hnd Ht Hpos Hrows Hcp Hcy. unfold computeTrackSpecificAccuracy.
  set (pd := TF.arraySync predictions). set (td := TF.arraySync y_true).
  assert (Hlp : List.length pd = nth 0 (TF.shape predictions) 0%nat)
    by apply chunk_length.
  assert (Hlt : List.length td = nth 0 (TF.shape y_true) 0%nat)
    by apply chunk_length.
  destruct (Nat.leb_spec (List.length pd) (List.length td)) as [Hle|]; [|lia].
  cbn [orb]. do 3 eexists. split; [reflexivity|].
  rewrite (trackAccuracies_entries _ _ _ Hnd).
  assert (Hget :
            JS.mapGet t
              (map (fun ti => (fst ti,
                               trackAccuracyOf pd td md (fst ti) (snd ti)))
                 (withIndex (JS.mapKeys md)))
            = Some (trackAccuracyOf pd td md t i)).
  { apply mapGet_NoDup_In.
    - unfold JS.mapKeys at 1. rewrite map_map. cbn [fst].
      unfold withIndex. now rewrite withIndex_fst.
    - apply in_map_iff. exists (t, i). split; [reflexivity|].
      apply (withIndex_nth _ 0 i t Ht). }
  split; [exact Hget|].
  unfold trackAccuracyOf. cbn [accuracy dayAccuracies day1 day2 day3].
  assert (Hh : forall k, dayHits pd td i k = List.length pd).
  { intro k. apply dayHits_beyond; [exact Hle| |].
    - intros row Hin. apply chunk_width in Hin. lia.
    - intros row Hin. apply chunk_width in Hin. lia. }
  rewrite !Hh.
  replace (List.length pd + List.length pd + List.length pd)%nat
    with (3 * List.length pd)%nat by lia.
  split; [apply percent_full; lia|].
  split; [|split]; apply percent_full; lia.
Qed.

Lemma filter_length_full {A : Type} (p : A -> bool) (l : list A) :
  List.length (filter p l) = List.length l <-> Forall (fun x => p x = true) l.
Proof.
  induction l as [|x l IH]; simpl.
  - split; [constructor|reflexivity].
  - pose proof (filter_length_le p l) as Hle. destruct (p x) eqn:Hx; simpl.
    + split.
      * intro H. constructor; [exact Hx|]. apply IH. lia.
      * intro H. inversion H; subst. f_equal. now apply IH.
    + split; [lia|]. intro H. inversion H; subst. congruence.
Qed.

(** X17.  On two tensors of the shape of [y_true] the consistent accuracy is a
    percentage, and it is 100 exactly when the thresholded prediction agrees
    with the thresholded truth at every entry. *)
Theorem computeConsistentAccuracy_percentage (predictions y_true : TF.Tensor) :
  let total := (nth 0 (TF.shape y_true) 0 * nth 1 (TF.shape y_true) 0)%nat in
  total <> 0%nat ->
  List.length (TF.values predictions) = total ->
  List.length (TF.values y_true) = total ->
  exists a,
    computeConsistentAccuracy predictions y_true = Some a
    /\ 0 <= a /\ a <= 100
    /\ (a == 100
        <-> Forall (fun vw => JS.gtb (fst vw) (1 # 2) = JS.gtb (snd vw) (1 # 2))
              (combine (TF.values predictions) (TF.values y_true))).
Proof.
  intros total Hnz Hp Hy. unfold computeConsistentAccuracy. fold total.
  destruct (Nat.eqb_spec total 0) as [|_]; [contradiction|].
  eexists. split; [reflexivity|].
  unfold TF.sum, TF.equal, TF.greater. cbn [TF.values].
  rewrite sum_equal_greater.
  set (agree := fun vw : Q * Q =>
                  Bool.eqb (JS.gtb (fst vw) (1 # 2)) (JS.gtb (snd vw) (1 # 2))).
  set (pairs := combine (TF.values predictions) (TF.values y_true)).
  assert (Hlen : List.length pairs = total).
  { unfold pairs. rewrite length_combine. lia. }
  pose proof (filter_length_le agree pairs) as Hle. rewrite Hlen in Hle.
  assert (Hpos : (0 < total)%nat) by lia.
  pose proof (inject_nat_pos total Hpos) as Ht.
  pose proof (inject_nat_nonneg (List.length (filter agree pairs))) as Hc.
  pose proof (inject_nat_le _ _ Hle) as Hct.
  set (c := inject_Z (Z.of_nat (List.length (filter agree pairs)))) in *.
  set (t := inject_Z (Z.of_nat total)) in *.
  assert (H0 : 0 <= c / t) by (apply Qle_shift_div_l; lra).
  assert (H1 : c / t <= 1) by (apply Qle_shift_div_r; lra).
  split; [lra|]. split; [lra|].
  assert (Hfull : c / t * 100 == 100 <-> c == t).
  { split; intro H.
    - assert (Hq : c / t == 1) by lra.
      rewrite <- (Qmult_div_r c t) by lra. rewrite Hq. ring.
    - rewrite H. field. lra. }
  rewrite Hfull. unfold c, t. rewrite inject_Z_injective, Nat2Z.inj_iff.
  rewrite <- Hlen, filter_length_full.
  split; intro H; (eapply Forall_impl; [|exact H]); intros vw Hvw;
    unfold agree in *; cbv beta in *.
  - now apply Bool.eqb_prop in Hvw.
  - rewrite Hvw. apply Bool.eqb_reflx.
Qed.

End TrackAccuracy.

Section TrackAccuracyRuns.

Import DataLoader GRUModel Fixtures.

Local Open Scope string_scope.
Local Open Scope list_scope.

Lemma computeConsistentAccuracy_percentage_witness :
  exists a,
    computeConsistentAccuracy predictions22 truth22 = Some a
    /\ 0 <= a /\ a <= 100.
Proof.
  destruct (computeConsistentAccuracy_percentage predictions22 truth22)
    as (a & H & H0 & H1 & _).
  - vm_compute. discriminate.
  - reflexivity.
  - reflexivity.
  - exists a. split; [exact H|]. split; [exact H0|exact H1].
Defined.

Lemma computeTrackSpecificAccuracy_report_witness :
  NoDup (JS.mapKeys (trackMetadata loadedTwice))
  /\ exists accs days,
       computeTrackSpecificAccuracy predictionsCB truthCB
         (trackMetadata loadedTwice) = Some (accs, days)
       /\ JS.mapKeys accs = JS.mapKeys (trackMetadata loadedTwice).
Proof.
  assert (Hnd : NoDup (JS.mapKeys (trackMetadata loadedTwice))).
  { vm_compute. repeat constructor.
    - intros [H|[H|[]]]; discriminate.
    - intros [H|[]]; discriminate.
    - intros []. }
  split; [exact Hnd|].
  destruct (computeTrackSpecificAccuracy_report predictionsCB truthCB
              (trackMetadata loadedTwice) Hnd) as (accs & days & H & Hk & _).
  - vm_compute. lia.
  - exists accs, days. split; [exact H|exact Hk].
Defined.

Lemma computeTrackSpecificAccuracy_beyond_columns_witness :
  nth_error (JS.mapKeys (trackMetadata loadedTwice)) 2 = Some "C"
  /\ exists accs days a,
       computeTrackSpecificAccuracy predictionsCB truthCB
         (trackMetadata loadedTwice) = Some (accs, days)
       /\ JS.mapGet "C" accs = Some a /\ accuracy a == 100.
Proof.
  split; [vm_compute; reflexivity|].
  destruct (computeTrackSpecificAccuracy_beyond_columns predictionsCB truthCB
              (trackMetadata loadedTwice) 2 "C")
    as (accs & days & a & H & Hg & Ha & _).
  - vm_compute. repeat constructor.
    + intros [H|[H|[]]]; discriminate.
    + intros [H|[]]; discriminate.
    + intros [].
  - vm_compute. reflexivity.
  - vm_compute. lia.
  - vm_compute. lia.
  - vm_compute. lia.
  - vm_compute. lia.
  - exists accs, days, a. split; [exact H|]. split; [exact Hg|exact Ha].
Defined.

End TrackAccuracyRuns.

(** ** The analysis: breakout detection *)

(** The insertion sort is sorted as soon as the comparator is total and
    transitive on the elements of the list. *)
Lemma sortBy_sorted_on {A : Type} (le : A -> A -> bool) (P : A -> Prop)
    (l : list A) :
  (forall x y, P x -> P y -> le x y = false -> le y x = true) ->
  (forall x y z, P x -> P y -> P z ->
                 le x y = true -> le y z = true -> le x z = true) ->
  Forall P l ->
  StronglySorted (fun x y => le x y = true) (JS.sortBy le l).
Proof.
  intros Htot Htrans. induction 1 as [|x l Hx Hl IH]; simpl; [constructor|].
  assert (HP : Forall P (JS.sortBy le l)).
  { eapply Permutation_Forall; [symmetry; apply sortBy_perm|exact Hl]. }
  revert IH HP. generalize (JS.sortBy le l). clear l Hl.
  intros l Hs. induction Hs as [|y l Hs IH Hy]; intro HP; simpl.
  - repeat constructor.
  - inversion HP as [|? ? Py Pl]; subst.
    destruct (le x y) eqn:Hxy.
    + constructor; [now constructor|]. constructor; [exact Hxy|].
      rewrite Forall_forall in *. intros z Hz.
      apply (Htrans x y z); auto.
    + constructor; [now apply IH|].
      eapply Permutation_Forall; [symmetry; apply insert_perm|].
      constructor; [now apply Htot|exact Hy].
Qed.

(** What the comparator never separates is left in its order. *)
Lemma sortBy_unordered {A : Type} (le : A -> A -> bool) (l : list A) :
  (forall x y, In x l -> le x y = true) -> JS.sortBy le l = l.
Proof.
  induction l as [|x l IH]; intro H; simpl; [reflexivity|].
  rewrite IH by (intros a b Ha; apply H; now right).
  destruct l as [|y l]; [reflexivity|]. simpl.
  now rewrite (H x y) by now left.
Qed.

Section BreakoutMore.

Import MusicPopularityApp.

Local Open Scope string_scope.

Lemma gt_weaken (a : num) (c c' : Q) :
  c' <= c -> gt a c = true -> gt a c' = true.
Proof.
  destruct a as [x|]; [|discriminate]. rewrite !gt_Some. lra.
Qed.

Lemma calculateRiskLevel_cases (s c : num) :
  (gt s 0 = true /\ calculateRiskLevel s c <> "very-high")
  \/ (gt s 0 = false /\ calculateRiskLevel s c = "very-high").
Proof.
  unfold calculateRiskLevel. destruct (gt s 0) eqn:H0.
  - left. split; [reflexivity|].
    destruct (gt s (1 # 10) && gt c (7 # 10)); [discriminate|].
    destruct (gt s (5 # 100) && gt c (6 # 10)); discriminate.
  - right. split; [reflexivity|].
    destruct (gt s (1 # 10)) eqn:H1.
    { apply (gt_weaken s (1 # 10) 0) in H1; [congruence|lra]. }
    destruct (gt s (5 # 100)) eqn:H2.
    { apply (gt_weaken s (5 # 100) 0) in H2; [congruence|lra]. }
    reflexivity.
Qed.

Lemma calculateRiskLevel_low (s c : num) :
  calculateRiskLevel s c = "low" ->
  exists x y, s = Some x /\ c = Some y /\ 1 # 10 < x /\ 7 # 10 < y.
Proof.
  unfold calculateRiskLevel.
  destruct (gt s (1 # 10) && gt c (7 # 10)) eqn:H1.
  - intros _. apply andb_prop in H1. destruct H1 as [Hs Hc].
    destruct s as [x|]; [|discriminate]. destruct c as [y|]; [|discriminate].
    exists x, y. rewrite gt_Some in Hs, Hc. now repeat split.
  - destruct (gt s (5 # 100) && gt c (6 # 10)); [discriminate|].
    destruct (gt s 0); discriminate.
Qed.

Lemma breakoutOf_consistent (predData : list (list Q))
    (ti : DataLoader.Metadata * nat) :
  let b := breakoutOf predData ti in
  ((trend b = "rising" /\ riskLevel b <> "very-high")
   \/ (trend b = "stable" /\ riskLevel b = "very-high"))
  /\ (riskLevel b = "low" ->
      exists s c, breakoutScore b = Some s /\ confidence b = Some c
                  /\ 10 <= s /\ 70 <= c).
Proof.
  unfold breakoutOf. cbn [trend riskLevel breakoutScore confidence].
  set (s := average _ _). set (c := average (sumOver (fun row => overallConfidence row (snd ti)) predData) _).
  split.
  - destruct (calculateRiskLevel_cases s c) as [[H ?]|[H ?]]; rewrite H;
      [left|right]; now split.
  - intro H. apply calculateRiskLevel_low in H.
    destruct H as (x & y & -> & -> & Hx & Hy).
    exists (x * 100), (y * 100). cbn [lift2].
    repeat split; lra.
Qed.

(** X20.  The result has one entry for every value of the metadata map; in
    every entry the trend is [rising] exactly when the risk level is not
    [very-high], and a [low] risk level comes with a score of at least 10 and
    a confidence of at least 70. *)
Theorem detectBreakoutTracks_entries (predictions : TF.Tensor)
    (md : list (string * DataLoader.Metadata)) :
  let out := detectBreakoutTracks predictions md in
  Permutation (map trackId out) (map DataLoader.id (JS.mapValues md))
  /\ List.length out = List.length md
  /\ Forall
       (fun b =>
          ((trend b = "rising" /\ riskLevel b <> "very-high")
           \/ (trend b = "stable" /\ riskLevel b = "very-high"))
          /\ (riskLevel b = "low" ->
              exists s c, breakoutScore b = Some s /\ confidence b = Some c
                          /\ 10 <= s /\ 70 <= c))
       out.
Proof.
  intro out. unfold out, detectBreakoutTracks.
  set (pd := TF.arraySync predictions).
  set (l := map (breakoutOf pd) (GRUModel.withIndex (JS.mapValues md))).
  assert (Hperm : Permutation (JS.sortBy byScore l) l).
  { apply sortBy_perm. }
  split; [|split].
  - rewrite (Permutation_map trackId Hperm). unfold l.
    rewrite map_map. cbn [breakoutOf trackId].
    rewrite <- (map_map fst DataLoader.id).
    unfold GRUModel.withIndex. now rewrite withIndex_fst.
  - rewrite (Permutation_length Hperm). unfold l, GRUModel.withIndex.
    rewrite length_map, length_combine, length_seq. unfold JS.mapValues.
    rewrite length_map. lia.
  - eapply Permutation_Forall; [symmetry; exact Hperm|].
    unfold l. apply Forall_forall. intros b Hb.
    apply in_map_iff in Hb. destruct Hb as (ti & <- & _).
    apply breakoutOf_consistent.
Qed.

(** X21.  Without a sample every average is a division of zero by zero: every
    track is reported, in the order of the metadata map, with score and
    confidence [NaN], trend [stable] and risk level [very-high]. *)
Theorem detectBreakoutTracks_no_samples (predictions : TF.Tensor)
    (md : list (string * DataLoader.Metadata)) :
  nth 0 (TF.shape predictions) 0%nat = 0%nat ->
  detectBreakoutTracks predictions md
  = map (fun track =>
           mkBreakout (DataLoader.id track) (DataLoader.name track) None None
             "stable" "very-high")
      (JS.mapValues md).
Proof.
  intro H. unfold detectBreakoutTracks, TF.arraySync. rewrite H. cbn [TF.chunk].
  assert (Hmap : map (breakoutOf []) (GRUModel.withIndex (JS.mapValues md))
                 = map (fun track =>
                          mkBreakout (DataLoader.id track)
                            (DataLoader.name track) None None
                            "stable" "very-high")
                     (JS.mapValues md)).
  { unfold GRUModel.withIndex.
    rewrite <- (withIndex_fst (JS.mapValues md) 0) at 3.
    rewrite map_map. apply map_ext. now intros [track i]. }
  rewrite Hmap. apply sortBy_unordered.
  intros x y Hx. apply in_map_iff in Hx. destruct Hx as (track & <- & _).
  unfold byScore. cbn [breakoutScore lift2]. now destruct (breakoutScore y).
Qed.

Lemma sumOver_defined (f : list Q -> num) (predData : list (list Q)) (a : Q) :
  Forall (fun row => f row <> None) predData ->
  fold_left (fun acc row => lift2 Qplus acc (f row)) predData (Some a) <> None.
Proof.
  intro H. revert a. induction H as [|row rows Hrow _ IH]; intro a; simpl.
  - discriminate.
  - destruct (f row) as [x|]; [|contradiction]. apply IH.
Qed.

Lemma trendStrength_defined (row : list Q) (i : nat) :
  (3 * i + 3 <= List.length row)%nat -> trendStrength row i <> None.
Proof.
  intro H. unfold trendStrength.
  destruct (nth_error row (i * 3)) eqn:H1;
    [|apply nth_error_None in H1; lia].
  destruct (nth_error row (i * 3 + 1)) eqn:H2;
    [|apply nth_error_None in H2; lia].
  destruct (nth_error row (i * 3 + 2)) eqn:H3;
    [|apply nth_error_None in H3; lia].
  discriminate.
Qed.

Lemma withIndex_bound {A : Type} (l : list A) (s : nat) (x : A) (i : nat) :
  In (x, i) (combine l (seq s (List.length l))) ->
  (i < s + List.length l)%nat.
Proof.
  intro H. apply in_combine_r in H. apply in_seq in H. lia.
Qed.

(** X22.  When there is a sample and every sample has the three columns of
    every track, every score is a number and the result is in descending
    order of the score. *)
Theorem detectBreakoutTracks_descending (predictions : TF.Tensor)
    (md : list (string * DataLoader.Metadata)) :
  TF.arraySync predictions <> [] ->
  Forall (fun row => (3 * List.length md <= List.length row)%nat)
    (TF.arraySync predictions) ->
  StronglySorted
    (fun a b => exists x y, breakoutScore a = Some x /\ breakoutScore b = Some y
                            /\ y <= x)
    (detectBreakoutTracks predictions md).
Proof.
  intros Hne Hwide. unfold detectBreakoutTracks.
  set (pd := TF.arraySync predictions) in *.
  set (l := map (breakoutOf pd) (GRUModel.withIndex (JS.mapValues md))).
  set (P := fun b : Breakout => breakoutScore b <> None).
  assert (HP : Forall P l).
  { unfold l. apply Forall_forall. intros b Hb. apply in_map_iff in Hb.
    destruct Hb as ([track i] & <- & Hin).
    apply withIndex_bound in Hin. unfold JS.mapValues in Hin.
    rewrite length_map in Hin.
    unfold P, breakoutOf. cbn [breakoutScore snd].
    assert (Hs : sumOver (fun row => trendStrength row i) pd <> None).
    { apply sumOver_defined. eapply Forall_impl; [|exact Hwide].
      intros row Hrow. cbv beta in Hrow. apply trendStrength_defined. lia. }
    unfold average. destruct (Nat.eqb_spec (List.length pd) 0) as [H0|_].
    - destruct pd; [contradiction|discriminate].
    - destruct (sumOver _ pd); [discriminate|contradiction]. }
  assert (Hsorted : StronglySorted (fun a b => byScore a b = true)
                      (JS.sortBy byScore l)).
  { apply (sortBy_sorted_on byScore P); [| |exact HP].
    - intros x y Hx Hy. unfold P, byScore in *.
      destruct (breakoutScore x) as [sx|]; [|contradiction].
      destruct (breakoutScore y) as [sy|]; [|contradiction].
      cbn [lift2]. rewrite Qle_bool_false, Qle_bool_iff. lra.
    - intros x y z Hx Hy Hz. unfold P, byScore in *.
      destruct (breakoutScore x) as [sx|]; [|contradiction].
      destruct (breakoutScore y) as [sy|]; [|contradiction].
      destruct (breakoutScore z) as [sz|]; [|contradiction].
      cbn [lift2]. rewrite !Qle_bool_iff. lra. }
  assert (HPs : Forall P (JS.sortBy byScore l)).
  { eapply Permutation_Forall; [symmetry; apply sortBy_perm|exact HP]. }
  unfold P in HPs. revert Hsorted HPs. generalize (JS.sortBy byScore l). clear.
  intros l Hs. induction Hs as [|a l Hs IH Ha]; intro HP; constructor.
  - apply IH. now inversion HP.
  - inversion HP as [|? ? Pa Pl]; subst.
    rewrite Forall_forall in *. intros b Hb.
    specialize (Ha b Hb). specialize (Pl b Hb). unfold byScore in Ha.
    cbv beta in Pa, Pl.
    destruct (breakoutScore a) as [x|]; [|contradiction].
    destruct (breakoutScore b) as [y|]; [|contradiction].
    exists x, y. cbn [lift2] in Ha. rewrite Qle_bool_iff in Ha.
    repeat split; trivial. lra.
Qed.

End BreakoutMore.

Section BreakoutMoreRuns.

Import DataLoader MusicPopularityApp Fixtures.

Local Open Scope string_scope.
Local Open Scope list_scope.

Lemma detectBreakoutTracks_entries_witness :
  List.length (detectBreakoutTracks predictions13 metadataA) = 1%nat
  /\ Forall
       (fun b =>
          (trend b = "rising" /\ riskLevel b <> "very-high")
          \/ (trend b = "stable" /\ riskLevel b = "very-high"))
       (detectBreakoutTracks predictions13 metadataA).
Proof.
  destruct (detectBreakoutTracks_entries predictions13 metadataA)
    as (_ & Hlen & Hall).
  split; [exact Hlen|].
  eapply Forall_impl; [|exact Hall]. intros b [H _]. exact H.
Defined.

Lemma detectBreakoutTracks_no_samples_witness :
  detectBreakoutTracks (TF.mkTensor [0; 3]%nat []) metadataA
  = [mkBreakout "A" "A" None None "stable" "very-high"].
Proof.
  apply (detectBreakoutTracks_no_samples (TF.mkTensor [0; 3]%nat []) metadataA).
  reflexivity.
Defined.

Lemma detectBreakoutTracks_descending_witness :
  StronglySorted
    (fun a b => exists x y, breakoutScore a = Some x /\ breakoutScore b = Some y
                            /\ y <= x)
    (detectBreakoutTracks (TF.tensor2d [[1 # 10; 2 # 10; 3 # 10; 1 # 10; 5 # 10; 9 # 10]])
       [("A", mkMetadata "A" "A" (Some 100));
        ("B", mkMetadata "B" "B" (Some 50))]).
Proof.
  apply detectBreakoutTracks_descending.
  - vm_compute. discriminate.
  - vm_compute. constructor; [lia|constructor].
Defined.

End BreakoutMoreRuns.

(** ** The training loop *)

Section TrainingLoop.

Import GRUModelFit SpecFit.

Variable trainer : nat -> EpochResult.

Lemma historyOf_S (n : nat) :
  historyOf trainer (S n) = push (trainer n) (historyOf trainer n).
Proof.
  unfold historyOf, push. cbn [h_loss h_val_loss h_accuracy h_val_accuracy].
  rewrite seq_S, map_app, !map_app. reflexivity.
Qed.

Lemma improves_Some (v b : Q) : improves (Some v) (Some b) = true <-> v < b.
Proof.
  unfold improves. rewrite negb_true_iff, Qle_bool_false. reflexivity.
Qed.

Lemma improves_Some_false (v b : Q) :
  improves (Some v) (Some b) = false <-> b <= v.
Proof.
  unfold improves. rewrite negb_false_iff. apply Qle_bool_iff.
Qed.

Lemma bestOf_improved (n : nat) (s s' : Fit) (v : Q) :
  bestOf trainer n s (patienceCounter s) ->
  val_loss (trainer n) = Some v ->
  improves (Some v) (bestValLoss s) = true ->
  bestValLoss s' = Some v -> bestWeights s' = Some n ->
  bestOf trainer (S n) s' 0.
Proof.
  intros Hb Hv Hi Hbv Hbw. right. exists n, v.
  split; [exact Hbv|]. split; [exact Hbw|]. split; [|lia].
  split; [lia|]. split; [exact Hv|].
  intros j w Hj Hw.
  destruct (Nat.eq_dec j n) as [->|Hne].
  - rewrite Hv in Hw. injection Hw as <-. split; [lra|lia].
  - assert (Hlt : (j < n)%nat) by lia.
    destruct Hb as [(_ & _ & _ & Hnone)|(k & b & Hsb & _ & (_ & _ & Hleast) & _)].
    + rewrite (Hnone j Hlt) in Hw. discriminate.
    + rewrite Hsb in Hi. apply improves_Some in Hi.
      destruct (Hleast j w Hlt Hw) as [Hle _]. split; [lra|intros _; lra].
Qed.

Lemma bestOf_waited (n : nat) (s s' : Fit) :
  bestOf trainer n s (patienceCounter s) ->
  improves (val_loss (trainer n)) (bestValLoss s) = false ->
  bestValLoss s' = bestValLoss s -> bestWeights s' = bestWeights s ->
  bestOf trainer (S n) s' (S (patienceCounter s)).
Proof.
  intros Hb Hi Hbv Hbw.
  destruct Hb as [(Hsb & Hsw & Hpc & Hnone)|(k & b & Hsb & Hsw & (Hk & Hkb & Hleast) & Hn)].
  - left. rewrite Hbv, Hbw. split; [exact Hsb|]. split; [exact Hsw|].
    split; [lia|]. intros j Hj.
    destruct (Nat.eq_dec j n) as [->|Hne]; [|apply Hnone; lia].
    rewrite Hsb in Hi. unfold improves in Hi.
    now destruct (val_loss (trainer n)).
  - right. exists k, b. rewrite Hbv, Hbw.
    split; [exact Hsb|]. split; [exact Hsw|]. split; [|lia].
    split; [lia|]. split; [exact Hkb|].
    intros j w Hj Hw.
    destruct (Nat.eq_dec j n) as [->|Hne]; [|apply Hleast; [lia|exact Hw]].
    rewrite Hsb, Hw in Hi. apply improves_Some_false in Hi. split; [exact Hi|lia].
Qed.

Lemma epochTurn_running (n : nat) (s : Fit) :
  running trainer n s ->
  match epochTurn n (trainer n) s with
  | Next s' => running trainer (S n) s'
  | Break s' => stopped trainer (S n) s'
  end.
Proof.
  intros (Hh & He & Hr & Hp & Hb). unfold epochTurn.
  assert (Hwait :
            improves (val_loss (trainer n)) (bestValLoss s) = false ->
            match
              (if (patience <=? S (patienceCounter s))%nat
               then Break (mkFit (push (trainer n) (history s)) (bestValLoss s)
                             (bestWeights s) (S (patienceCounter s))
                             (dispatched s) (restored s ++ [bestWeights s]))
               else Next (mkFit (push (trainer n) (history s)) (bestValLoss s)
                            (bestWeights s) (S (patienceCounter s))
                            (dispatched s
                               ++ [progress n (trainer n) (S (patienceCounter s))])
                            (restored s)))
            with
            | Next s' => running trainer (S n) s'
            | Break s' => stopped trainer (S n) s'
            end).
  { intro Hi.
    destruct (Nat.leb_spec patience (S (patienceCounter s))) as [Hge|Hlt].
    - assert (Hpc : S (patienceCounter s) = patience) by lia.
      unfold stopped.
      cbn [history dispatched restored patienceCounter bestWeights].
      split; [now rewrite historyOf_S, Hh|].
      split; [now rewrite Nat.sub_1_r|].
      split; [now rewrite Hr|]. split; [exact Hpc|].
      rewrite <- Hpc. now apply (bestOf_waited n s).
    - unfold running.
      cbn [history dispatched restored patienceCounter bestWeights].
      split; [now rewrite historyOf_S, Hh|].
      split.
      { rewrite map_app, He, seq_S. cbn [map progress p_epoch].
        now rewrite Nat.add_comm. }
      split; [exact Hr|]. split; [exact Hlt|].
      now apply (bestOf_waited n s). }
  destruct (val_loss (trainer n)) as [v|] eqn:Hv; [|now apply Hwait].
  destruct (improves (Some v) (bestValLoss s)) eqn:Hi; [|now apply Hwait].
  unfold running.
  cbn [history dispatched restored patienceCounter bestWeights].
  split; [now rewrite historyOf_S, Hh|].
  split.
  { rewrite map_app, He, seq_S. cbn [map progress p_epoch].
    now rewrite Nat.add_comm. }
  split; [exact Hr|]. split; [unfold patience; lia|].
  apply (bestOf_improved n s _ v); trivial.
Qed.

Lemma epochLoop_outcome (remaining n : nat) (s : Fit) :
  running trainer n s ->
  running trainer (n + remaining) (epochLoop trainer remaining n s)
  \/ exists m, (n < m <= n + remaining)%nat
               /\ stopped trainer m (epochLoop trainer remaining n s).
Proof.
  revert n s. induction remaining as [|r IH]; intros n s Hrun.
  - left. now rewrite Nat.add_0_r.
  - cbn [epochLoop]. pose proof (epochTurn_running n s Hrun) as Hturn.
    destruct (epochTurn n (trainer n) s) as [s'|s'].
    + destruct (IH (S n) s' Hturn) as [H|(m & Hm & H)].
      * left. now rewrite <- Nat.add_succ_comm.
      * right. exists m. split; [lia|exact H].
    + right. exists (S n). split; [lia|exact Hturn].
Qed.

Lemma fit_outcome (epochs : nat) :
  running trainer epochs (fit trainer epochs)
  \/ exists m, (0 < m <= epochs)%nat /\ stopped trainer m (fit trainer epochs).
Proof.
  apply (epochLoop_outcome epochs 0 (start)).
  unfold running, start. cbn. repeat split; try reflexivity.
  - unfold patience. lia.
  - left. repeat split. intros j Hj. lia.
Qed.

Lemma historyOf_length (n : nat) :
  List.length (h_val_loss (historyOf trainer n)) = n.
Proof.
  unfold historyOf. cbn [h_val_loss]. now rewrite !length_map, length_seq.
Qed.

(** X23.  [fit] records in its four histories what the first [n] epochs
    reported, for some [n] that is the number of epochs asked for unless the
    training stops early; it dispatches a progress event after every epoch
    but the one at which it stops, and it does not stop before 20 epochs have
    run. *)
Theorem fit_history (epochs : nat) :
  let s := fit trainer epochs in
  exists n,
    (n <= epochs)%nat
    /\ history s = historyOf trainer n
    /\ ((restored s = [] /\ n = epochs
         /\ map p_epoch (dispatched s) = seq 1 n)
        \/ (restored s = [bestWeights s] /\ (20 <= n)%nat
            /\ map p_epoch (dispatched s) = seq 1 (n - 1))).
Proof.
  intro s. unfold s.
  destruct (fit_outcome epochs)
    as [(Hh & He & Hr & _ & _)|(m & Hm & Hh & He & Hr & _ & Hb)].
  - exists epochs. split; [lia|]. split; [exact Hh|]. left. now repeat split.
  - exists m. split; [lia|]. split; [exact Hh|]. right.
    split; [exact Hr|]. split; [|exact He].
    unfold patience in Hb.
    destruct Hb as [(_ & _ & Hn & _)|(k & b & _ & _ & _ & Hn)]; lia.
Qed.

(** X24.  When [fit] returns, [bestValLoss] is the least validation loss that
    was reported and [bestWeights] holds the weights read at the first epoch
    that reported it; both are still [Infinity] and [null] when every
    validation loss was [NaN]. *)
Theorem fit_best (epochs : nat) :
  let s := fit trainer epochs in
  let n := List.length (h_val_loss (history s)) in
  (bestValLoss s = None /\ bestWeights s = None
   /\ forall j, (j < n)%nat -> val_loss (trainer j) = None)
  \/ (exists k b,
         bestValLoss s = Some b /\ bestWeights s = Some k
         /\ leastAt trainer n k b).
Proof.
  intros s n. unfold n, s.
  destruct (fit_outcome epochs)
    as [(Hh & _ & _ & _ & Hb)|(m & _ & Hh & _ & _ & _ & Hb)];
    rewrite Hh, historyOf_length;
    (destruct Hb as [(H1 & H2 & _ & H3)|(k & b & H1 & H2 & H3 & _)];
     [left|right; exists k, b]; (split; [exact H1|split; [exact H2|exact H3]])).
Qed.

(** X25.  [fit] stops early exactly when 20 epochs have run since the best
    one (or 20 epochs in all, when no validation loss was a number); it puts
    weights back then and only then, so that when it has not done so all the
    epochs asked for have run; and when the first validation loss is a number
    the weights it puts back are never [null]. *)
Theorem fit_early_stop (epochs : nat) :
  let s := fit trainer epochs in
  let n := List.length (h_val_loss (history s)) in
  (restored s <> []
   <-> n = match bestWeights s with
           | Some k => (k + 21)%nat
           | None => 20%nat
           end)
  /\ (restored s = [] -> n = epochs)
  /\ (val_loss (trainer 0) <> None ->
      Forall (fun w => w <> None) (restored s)).
Proof.
  intros s n. unfold n, s.
  destruct (fit_outcome epochs)
    as [(Hh & _ & Hr & Hp & Hb)|(m & Hm & Hh & _ & Hr & _ & Hb)];
    rewrite Hh, historyOf_length, Hr; unfold patience in *.
  - split; [|split].
    + split; [congruence|]. intro Hn. exfalso.
      destruct Hb as [(_ & Hw & Hpc & _)|(k & b & _ & Hw & _ & Hpc)];
        rewrite Hw in Hn; lia.
    + reflexivity.
    + intros _. constructor.
  - split; [|split].
    + split; [|discriminate]. intros _.
      destruct Hb as [(_ & Hw & Hpc & _)|(k & b & _ & Hw & _ & Hpc)];
        rewrite Hw; lia.
    + discriminate.
    + intro H0. constructor; [|constructor].
      destruct Hb as [(_ & _ & _ & Hnone)|(k & b & _ & Hw & _ & _)].
      * exfalso. apply H0. apply Hnone. lia.
      * rewrite Hw. discriminate.
Qed.

End TrainingLoop.

Section TrainingLoopRuns.

Import GRUModelFit SpecFit.

Lemma fit_best_witness :
  let flat := fun _ : nat =>
                mkEpochResult (Some 1) (Some (1 # 2)) (Some 1) (Some (1 # 2)) in
  exists k b,
    bestValLoss (fit flat 100) = Some b /\ bestWeights (fit flat 100) = Some k
    /\ leastAt flat (List.length (h_val_loss (history (fit flat 100)))) k b.
Proof.
  intro flat.
  destruct (fit_best flat 100) as [(H & _)|H].
  - vm_compute in H. discriminate.
  - exact H.
Defined.

Lemma fit_early_stop_witness :
  let flat := fun _ : nat =>
                mkEpochResult (Some 1) (Some (1 # 2)) (Some 1) (Some (1 # 2)) in
  restored (fit flat 100) <> []
  /\ List.length (h_val_loss (history (fit flat 100))) = 21%nat
  /\ Forall (fun w => w <> None) (restored (fit flat 100)).
Proof.
  intro flat.
  destruct (fit_early_stop flat 100) as (Hstop & _ & Hsome).
  assert (Hr : restored (fit flat 100) <> []) by (vm_compute; discriminate).
  split; [exact Hr|]. split.
  - apply Hstop in Hr. rewrite Hr. vm_compute. reflexivity.
  - apply Hsome. discriminate.
Defined.

End TrainingLoopRuns.
